(** * Camera framing (lib/look-at.ts, lib/map-controller.ts)

    A shallow embedding of [fetchElevation], [lookAt], [lookAtWithPadding]
    and [MapController.frameEntities], and the properties of the viewport
    framing engine proved about them.

    Numbers.  A JavaScript [number] is modelled by a real number of the
    Standard Library: the arithmetic of the source is exact here, there is
    neither rounding nor NaN, and [x / 0] follows the library's total
    division.  [Infinity] occurs in the source only as the start value of
    the bounding-box scan and is modelled by the type [bound].

    Effects.  An [async] function is modelled by a computation that either
    returns or throws (the promise resolves or rejects) and records, in
    order, the calls it makes to its collaborators: the elevation service,
    the console and the camera of the 3D map. *)

From Stdlib Require Import Reals Lra Psatz List String Bool Arith Permutation.
From Stdlib Require Import DecimalString.
Import ListNotations.

Open Scope R_scope.

(** ** Errors, completions and recorded calls *)

(** A thrown JavaScript value: the [name] and [message] of an [Error]. *)
Record JsError := mkError { name : string; message : string }.

(** What reading a property of [undefined] throws. *)
Definition TypeError (msg : string) : JsError :=
  {| name := "TypeError"; message := msg |}.

Inductive Completion (A : Type) : Type :=
| Returned (a : A)
| Thrown (e : JsError).
Arguments Returned {A} a.
Arguments Thrown {A} e.

(** [google.maps.LocationElevationRequest]: the [locations] to sample. *)
Record LocationElevationRequest := { locations : list (R * R) }.

(** [google.maps.ElevationResult], reduced to the field the code reads. *)
Record ElevationResult := { elevation : R }.

(** What the promise of [getElevationForLocations] settles to: a rejection,
    or a response whose [results] is [null] or an array. *)
Inductive ElevationReply :=
| Rejects (reason : JsError)
| Resolves (results : option (list ElevationResult)).

(** [google.maps.ElevationService]: an external collaborator. *)
Definition ElevationService := LocationElevationRequest -> ElevationReply.

(** The argument of [Map3DElement.flyCameraTo]. *)
Record FlyToAnimation := {
  durationMillis : R;
  endCamera_lat : R;
  endCamera_lng : R;
  endCamera_altitude : R;
  endCamera_range : R;
  endCamera_heading : R;
  endCamera_tilt : R;
  endCamera_roll : R
}.

Inductive Event :=
| GetElevationForLocations (req : LocationElevationRequest)
| ConsoleLog (msg : string) (args : list R)
| ConsoleError (msg : string) (e : JsError)
| FlyCameraTo (options : FlyToAnimation).

(** A computation: its completion and the calls it made, oldest first. *)
Definition Action (A : Type) : Type := (Completion A * list Event)%type.

Definition ret {A} (a : A) : Action A := (Returned a, []).

Definition throw {A} (e : JsError) : Action A := (Thrown e, []).

Definition bind {A B} (m : Action A) (k : A -> Action B) : Action B :=
  match m with
  | (Returned a, t) => let (r, t') := k a in (r, t ++ t')
  | (Thrown e, t) => (Thrown e, t)
  end.

(** [try { m } catch (e) { h e }] *)
Definition tryCatch {A} (m : Action A) (h : JsError -> Action A) : Action A :=
  match m with
  | (Thrown e, t) => let (r, t') := h e in (r, t ++ t')
  | done => done
  end.

Definition emit (ev : Event) : Action unit := (Returned tt, [ev]).

Definition completion {A} (m : Action A) : Completion A := fst m.
Definition trace {A} (m : Action A) : list Event := snd m.

Declare Scope action_scope.
Delimit Scope action_scope with action.
Notation "x <- m ;; k" := (bind m (fun x => k))
  (at level 61, m at next level, right associativity) : action_scope.
Notation "m ;; k" := (bind m (fun _ => k))
  (at level 61, right associativity) : action_scope.
Open Scope action_scope.

(** [await elevator.getElevationForLocations(req)] *)
Definition getElevationForLocations (elevator : ElevationService)
    (req : LocationElevationRequest) : Action (option (list ElevationResult)) :=
  emit (GetElevationForLocations req) ;;
  match elevator req with
  | Rejects reason => throw reason
  | Resolves results => ret results
  end.

(** The elevation requests among recorded calls. *)
Fixpoint elevationRequests (t : list Event) : list LocationElevationRequest :=
  match t with
  | [] => []
  | GetElevationForLocations req :: t' => req :: elevationRequests t'
  | _ :: t' => elevationRequests t'
  end.

(** The camera animations among recorded calls. *)
Fixpoint cameraFlights (t : list Event) : list FlyToAnimation :=
  match t with
  | [] => []
  | FlyCameraTo o :: t' => o :: cameraFlights t'
  | _ :: t' => cameraFlights t'
  end.

(** ** Numbers *)

(** [x < y] and [x > y] as the tests of an [if]. *)
Definition ltb (x y : R) : bool := if Rlt_dec x y then true else false.
Definition gtb (x y : R) : bool := ltb y x.

(** A variable of the bounding-box scan: [-Infinity], a number, [Infinity]. *)
Inductive bound :=
| NegInfinity
| Finite (r : R)
| Infinity.

(** [x < b] *)
Definition lt_bound (x : R) (b : bound) : bool :=
  match b with
  | NegInfinity => false
  | Finite r => ltb x r
  | Infinity => true
  end.

(** [x > b] *)
Definition gt_bound (x : R) (b : bound) : bool :=
  match b with
  | NegInfinity => true
  | Finite r => gtb x r
  | Infinity => false
  end.

(** The number a scan variable holds.  A start value survives only the scan
    of an empty array, which neither function reaches: both have thrown at
    [locations[0].lat] by then. *)
Definition number_of (b : bound) : R :=
  match b with
  | Finite r => r
  | _ => 0
  end.

(** [Math.atan2(y, x)] of the ECMAScript library: the angle of the point
    [(x, y)], in (-PI, PI], from [atan] by quadrant. *)
Definition atan2 (y x : R) : R :=
  if Rlt_dec 0 x then atan (y / x)
  else if Rlt_dec x 0 then
    if Rlt_dec y 0 then atan (y / x) - PI else atan (y / x) + PI
  else if Rlt_dec 0 y then PI / 2
  else if Rlt_dec y 0 then - (PI / 2)
  else 0.

(** ** lib/look-at.ts *)

Module Location.
(** [type Location = { lat: number; lng: number; alt?: number }] *)
Record t := mk { lat : R; lng : R; alt : option R }.
End Location.

Module CameraParams.
(** The object [lookAt] and [lookAtWithPadding] return. *)
Record t := mk {
  lat : R;
  lng : R;
  altitude : R;
  range : R;
  tilt : R;
  heading : R
}.
End CameraParams.

(** [padding: [number, number, number, number]], as [top, right, bottom, left]. *)
Definition Padding : Type := (R * R * R * R)%type.

(** [locations[0]], whose properties the caller reads at once: reading one
    of [undefined] throws a [TypeError]. *)
Definition first_location (locs : list Location.t) : Action Location.t :=
  match locs with
  | [] => throw (TypeError "Cannot read properties of undefined (reading 'lat')")
  | loc :: _ => ret loc
  end.

Definition fetchElevation (lat lng : R) (elevator : ElevationService) : Action R :=
  let locationRequest := {| locations := [(lat, lng)] |} in
  found <- tryCatch
             (results <- getElevationForLocations elevator locationRequest ;;
              match results with
              | Some (r0 :: _) => ret (Some (elevation r0))
              | _ => ret None
              end)
             (fun e =>
                emit (ConsoleError "Elevation service failed due to: " e) ;;
                ret None) ;;
  match found with
  | Some h => ret h
  | None => ret 0
  end.

Import Location.

Definition degToRad : R := PI / 180.
Definition earthRadius : R := 6371000.
Definition targetTiltDeg : R := 60.

(** [x ?? d] *)
Definition nullish (x : option R) (d : R) : R :=
  match x with
  | Some v => v
  | None => d
  end.

(** *** The statements the two functions share

    Both bodies open with the same text: the bounding-box scan, the centre
    of the box, the altitude average, [haversine] and the scan for the
    largest angular distance.  Each [const] and each [let] of that text is
    one definition here, under the name the source gives it. *)

Record Box := { minLat : bound; maxLat : bound; minLng : bound; maxLng : bound }.

(** [let minLat = Infinity; let maxLat = -Infinity; ...] *)
Definition startBox : Box :=
  {| minLat := Infinity; maxLat := NegInfinity;
     minLng := Infinity; maxLng := NegInfinity |}.

(** The body of the first [forEach]. *)
Definition extendBox (b : Box) (loc : Location.t) : Box :=
  {| minLat := if lt_bound (lat loc) (minLat b) then Finite (lat loc) else minLat b;
     maxLat := if gt_bound (lat loc) (maxLat b) then Finite (lat loc) else maxLat b;
     minLng := if lt_bound (lng loc) (minLng b) then Finite (lng loc) else minLng b;
     maxLng := if gt_bound (lng loc) (maxLng b) then Finite (lng loc) else maxLng b |}.

Definition boundingBox (locs : list Location.t) : Box :=
  fold_left extendBox locs startBox.

Definition centerLat (locs : list Location.t) : R :=
  (number_of (minLat (boundingBox locs)) + number_of (maxLat (boundingBox locs))) / 2.

Definition centerLng (locs : list Location.t) : R :=
  (number_of (minLng (boundingBox locs)) + number_of (maxLng (boundingBox locs))) / 2.

(** The body of the second [forEach], on the pair [(sumAlt, countAlt)]. *)
Definition addAltitude (ALTITUDE : R) (acc : R * R) (loc : Location.t) : R * R :=
  let (sumAlt, countAlt) := acc in
  (sumAlt + (ALTITUDE + nullish (alt loc) 0), countAlt + 1).

Definition lookAtAltitude (ALTITUDE : R) (locs : list Location.t) : R :=
  let (sumAlt, countAlt) := fold_left (addAltitude ALTITUDE) locs (0, 0) in
  if gtb countAlt 0 then sumAlt / countAlt else 0.

(** Angular distance in radians. *)
Definition haversine (lat1 lng1 lat2 lng2 : R) : R :=
  let dLat := (lat2 - lat1) * degToRad in
  let dLng := (lng2 - lng1) * degToRad in
  let a :=
    sin (dLat / 2) ^ 2 +
    cos (lat1 * degToRad) * cos (lat2 * degToRad) * sin (dLng / 2) ^ 2 in
  2 * atan2 (sqrt a) (sqrt (1 - a)).

(** The body of the third [forEach]. *)
Definition furthest (cLat cLng : R) (maxAngularDistance : R) (loc : Location.t) : R :=
  let d := haversine cLat cLng (lat loc) (lng loc) in
  if gtb d maxAngularDistance then d else maxAngularDistance.

Definition maxAngularDistance (locs : list Location.t) : R :=
  fold_left (furthest (centerLat locs) (centerLng locs)) locs 0.

Definition maxDistance (locs : list Location.t) : R :=
  maxAngularDistance locs * earthRadius.

(** *** lookAt *)

Definition horizontalDistance (locs : list Location.t) : R :=
  maxDistance locs * 2.

Definition lookAt (locs : list Location.t) (elevator : ElevationService)
    (heading : R) : Action CameraParams.t :=
  loc0 <- first_location locs ;;
  ALTITUDE <- fetchElevation (lat loc0) (lng loc0) elevator ;;
  emit (ConsoleLog "lookAt altitude for" [lat loc0; lng loc0; ALTITUDE]) ;;
  let verticalDistance :=
    horizontalDistance locs / tan (targetTiltDeg * degToRad) in
  let slantRange := sqrt (horizontalDistance locs ^ 2 + verticalDistance ^ 2) in
  ret {| CameraParams.lat := centerLat locs;
         CameraParams.lng := centerLng locs;
         CameraParams.altitude := lookAtAltitude ALTITUDE locs;
         CameraParams.range := slantRange;
         CameraParams.tilt := targetTiltDeg;
         CameraParams.heading := heading |}.

(** *** lookAtWithPadding: the padding calculations *)

Definition visibleWidthFraction (padding : Padding) : R :=
  let '(padTop, padRight, padBottom, padLeft) := padding in
  1 - padLeft - padRight.

Definition visibleHeightFraction (padding : Padding) : R :=
  let '(padTop, padRight, padBottom, padLeft) := padding in
  1 - padTop - padBottom.

(** [Math.max(1 / visibleWidthFraction, 1 / visibleHeightFraction)].  When
    a visible fraction is exactly 0 the source divides by zero and gets
    [Infinity], which a real number cannot be: the properties that depend
    on the value of the scale are stated for fractions other than 0. *)
Definition scale (padding : Padding) : R :=
  Rmax (1 / visibleWidthFraction padding) (1 / visibleHeightFraction padding).

Definition contentHorizontalDistance (locs : list Location.t) : R :=
  maxDistance locs * 2.

Definition fullHorizontalDistance (locs : list Location.t) (padding : Padding) : R :=
  contentHorizontalDistance locs * scale padding.

Definition offsetX (padding : Padding) : R :=
  let '(padTop, padRight, padBottom, padLeft) := padding in
  (padLeft - padRight) / 2.

Definition offsetY (padding : Padding) : R :=
  let '(padTop, padRight, padBottom, padLeft) := padding in
  (padTop - padBottom) / 2.

Definition offsetGeoScreenX (locs : list Location.t) (padding : Padding) : R :=
  offsetX padding * fullHorizontalDistance locs padding.

Definition offsetGeoScreenY (locs : list Location.t) (padding : Padding) : R :=
  offsetY padding * fullHorizontalDistance locs padding.

(** [shiftVectorScreenMeters = { x: -offsetGeoScreenX, y: offsetGeoScreenY }] *)
Definition shiftVectorScreenMeters (locs : list Location.t) (padding : Padding) : R * R :=
  (- offsetGeoScreenX locs padding, offsetGeoScreenY locs padding).

Definition shiftEastMeters (locs : list Location.t) (heading : R) (padding : Padding) : R :=
  let headingRad := heading * degToRad in
  let cosH := cos headingRad in
  let sinH := sin headingRad in
  fst (shiftVectorScreenMeters locs padding) * cosH
  - snd (shiftVectorScreenMeters locs padding) * sinH.

Definition shiftNorthMeters (locs : list Location.t) (heading : R) (padding : Padding) : R :=
  let headingRad := heading * degToRad in
  let cosH := cos headingRad in
  let sinH := sin headingRad in
  fst (shiftVectorScreenMeters locs padding) * sinH
  + snd (shiftVectorScreenMeters locs padding) * cosH.

Definition shiftLatDeg (locs : list Location.t) (heading : R) (padding : Padding) : R :=
  shiftNorthMeters locs heading padding / 111000.

Definition shiftLngDeg (locs : list Location.t) (heading : R) (padding : Padding) : R :=
  shiftEastMeters locs heading padding / (111000 * cos (centerLat locs * degToRad)).

Definition newCenterLat (locs : list Location.t) (heading : R) (padding : Padding) : R :=
  centerLat locs + shiftLatDeg locs heading padding.

Definition newCenterLng (locs : list Location.t) (heading : R) (padding : Padding) : R :=
  centerLng locs + shiftLngDeg locs heading padding.

(** *** lookAtWithPadding *)

Definition lookAtWithPadding (locs : list Location.t) (elevator : ElevationService)
    (heading : R) (padding : Padding) : Action CameraParams.t :=
  loc0 <- first_location locs ;;
  ALTITUDE <- fetchElevation (lat loc0) (lng loc0) elevator ;;
  let verticalDistance :=
    fullHorizontalDistance locs padding / tan (targetTiltDeg * degToRad) in
  let slantRange :=
    sqrt (fullHorizontalDistance locs padding ^ 2 + verticalDistance ^ 2) in
  ret {| CameraParams.lat := newCenterLat locs heading padding;
         CameraParams.lng := newCenterLng locs heading padding;
         CameraParams.altitude := lookAtAltitude ALTITUDE locs;
         CameraParams.range := slantRange;
         CameraParams.tilt := targetTiltDeg;
         CameraParams.heading := heading |}.

(** ** lib/map-controller.ts *)

Module MapController.

(** [{ position: { lat: number; lng: number } }] *)
Record Entity := { position : R * R }.

(** [Map3DCameraProps] *)
Record Map3DCameraProps := {
  center : R * R * R;
  range : R;
  heading : R;
  tilt : R;
  roll : R
}.

(** The controller's dependencies, reduced to the one [frameEntities]
    uses: [new this.elevationLib.ElevationService()]. *)
Record t := { elevationLib : ElevationService }.

Definition flyTo (cameraProps : Map3DCameraProps) : Action unit :=
  let '(lat, lng, altitude) := center cameraProps in
  emit (FlyCameraTo
          {| durationMillis := 5000;
             endCamera_lat := lat;
             endCamera_lng := lng;
             endCamera_altitude := altitude;
             endCamera_range := range cameraProps;
             endCamera_heading := heading cameraProps;
             endCamera_tilt := tilt cameraProps;
             endCamera_roll := roll cameraProps |}).

(** [e => e.position], read as a [Location]: a position has no [alt]. *)
Definition location_of (e : Entity) : Location.t :=
  Location.mk (fst (position e)) (snd (position e)) None.

Definition frameEntities (this : t) (entities : list Entity)
    (padding : Padding) : Action unit :=
  if Nat.eqb (List.length entities) 0 then ret tt
  else
    let elevator := elevationLib this in
    cameraProps <- lookAtWithPadding (map location_of entities) elevator 0 padding ;;
    flyTo {| center := (CameraParams.lat cameraProps,
                        CameraParams.lng cameraProps,
                        CameraParams.altitude cameraProps);
             range := CameraParams.range cameraProps + 1000;
             heading := CameraParams.heading cameraProps;
             tilt := CameraParams.tilt cameraProps;
             roll := 0 |}.

End MapController.

(** ** The notions of the specification

    The bounding extent, a valid padding, the elevation with its fallback
    and the altitude offsets, as the specification words them.  These
    definitions follow the specification, not the source; the theorems
    below compare the two. *)

Module Spec.

(** Least and greatest element of a list (0 for the empty list). *)
Definition least (l : list R) : R :=
  match l with
  | [] => 0
  | x :: xs => fold_left Rmin xs x
  end.

Definition greatest (l : list R) : R :=
  match l with
  | [] => 0
  | x :: xs => fold_left Rmax xs x
  end.

(** Arithmetic mean. *)
Definition mean (l : list R) : R :=
  fold_right Rplus 0 l / INR (List.length l).

(** *** Bounding calculator *)

(** Centre of the bounding box: the mean of the least and the greatest
    latitude, and of the least and the greatest longitude. *)
Definition boxCenterLat (points : list Location.t) : R :=
  (least (map lat points) + greatest (map lat points)) / 2.

Definition boxCenterLng (points : list Location.t) : R :=
  (least (map lng points) + greatest (map lng points)) / 2.

(** The haversine formula, on degrees:
    a = sin(dlat/2)^2 + cos(lat1) * cos(lat2) * sin(dlng/2)^2,
    angular distance = 2 * atan2(sqrt a, sqrt (1 - a)). *)
Definition radians (deg : R) : R := deg * (PI / 180).

Definition angularDistance (lat1 lng1 lat2 lng2 : R) : R :=
  let a :=
    Rsqr (sin (radians (lat2 - lat1) / 2)) +
    cos (radians lat1) * cos (radians lat2) * Rsqr (sin (radians (lng2 - lng1) / 2)) in
  2 * atan2 (sqrt a) (sqrt (1 - a)).

(** Greatest angular distance from the centre of the box to a point. *)
Definition angularExtent (points : list Location.t) : R :=
  greatest
    (map (fun p => angularDistance (boxCenterLat points) (boxCenterLng points)
                     (lat p) (lng p))
         points).

(** *** Padding *)

(** A padding of the data model: four fractions, each at least 0 and less
    than 1, opposite sides summing to less than 1. *)
Definition validPadding (padding : Padding) : Prop :=
  let '(padTop, padRight, padBottom, padLeft) := padding in
  (0 <= padTop < 1) /\ (0 <= padRight < 1) /\
  (0 <= padBottom < 1) /\ (0 <= padLeft < 1) /\
  padTop + padBottom < 1 /\ padLeft + padRight < 1.

(** *** Elevation *)

(** The elevation the service reports for a request, 0 when the lookup
    fails or has no result. *)
Definition elevationOrZero (elevator : ElevationService)
    (req : LocationElevationRequest) : R :=
  match elevator req with
  | Resolves (Some (r :: _)) => elevation r
  | _ => 0
  end.

(** The optional altitude offset of a point, 0 by default. *)
Definition altitudeOffset (p : Location.t) : R :=
  match alt p with
  | Some a => a
  | None => 0
  end.

End Spec.

(** The slant range both functions compute from a horizontal distance:
    [Math.sqrt(horizontal ** 2 + verticalDistance ** 2)]. *)
Definition slant (horizontal : R) : R :=
  sqrt (horizontal ^ 2 + (horizontal / tan (targetTiltDeg * degToRad)) ^ 2).

(** The request [fetchElevation] builds for one location. *)
Definition requestFor (loc : Location.t) : LocationElevationRequest :=
  {| locations := [(lat loc, lng loc)] |}.

(** ** lib/state.ts: the log store *)

(** An object of the [@google/genai] library the stores only pass along
    ([LiveServerToolCall], [LiveClientToolResponse],
    [GenerateContentResponse], [placeAnswerSources]): its serialised form. *)
Definition JsObject : Type := string.

(** [GroundingChunk["maps"]] *)
Record GroundingChunkMaps := {
  uri : option string;
  title : option string;
  placeId : string;
  placeAnswerSources : option JsObject
}.

(** [GroundingChunk] *)
Record GroundingChunk := {
  web : option JsObject;
  maps : option GroundingChunkMaps
}.

(** A [Date], as milliseconds since the epoch. *)
Definition Date : Type := nat.

(** [newArray[i] = v] for an index within the array. *)
Fixpoint setAt {A : Type} (i : nat) (v : A) (l : list A) : list A :=
  match l, i with
  | [], _ => []
  | _ :: l', O => v :: l'
  | x :: l', S i' => x :: setAt i' v l'
  end.

Module LogStore.

Inductive Role := user | agent | system.

Definition Role_eqb (a b : Role) : bool :=
  match a, b with
  | user, user | agent, agent | system, system => true
  | _, _ => false
  end.

(** [interface ConversationTurn] *)
Record ConversationTurn := mkTurn {
  timestamp : Date;
  role : Role;
  text : string;
  isFinal : bool;
  toolUseRequest : option JsObject;
  toolUseResponse : option JsObject;
  groundingChunks : option (list GroundingChunk);
  toolResponse : option JsObject
}.

(** The state of [useLogStore]. *)
Record State := {
  turns : list ConversationTurn;
  isAwaitingFunctionResponse : bool
}.

Definition initial : State :=
  {| turns := []; isAwaitingFunctionResponse := false |}.

(** [Omit<ConversationTurn, 'timestamp'>], the argument of [addTurn]. *)
Record NewTurn := {
  new_role : Role;
  new_text : string;
  new_isFinal : bool;
  new_toolUseRequest : option JsObject;
  new_toolUseResponse : option JsObject;
  new_groundingChunks : option (list GroundingChunk);
  new_toolResponse : option JsObject
}.

(** [{ role, text, isFinal }], the other properties absent. *)
Definition plainTurn (r : Role) (t : string) (final : bool) : NewTurn :=
  {| new_role := r; new_text := t; new_isFinal := final;
     new_toolUseRequest := None; new_toolUseResponse := None;
     new_groundingChunks := None; new_toolResponse := None |}.

(** [{ ...turn, timestamp: new Date() }] *)
Definition stamped (turn : NewTurn) (now : Date) : ConversationTurn :=
  {| timestamp := now;
     role := new_role turn;
     text := new_text turn;
     isFinal := new_isFinal turn;
     toolUseRequest := new_toolUseRequest turn;
     toolUseResponse := new_toolUseResponse turn;
     groundingChunks := new_groundingChunks turn;
     toolResponse := new_toolResponse turn |}.

(** [addTurn], with the date [new Date()] gives. *)
Definition addTurn (now : Date) (turn : NewTurn) (state : State) : State :=
  {| turns := turns state ++ [stamped turn now];
     isAwaitingFunctionResponse := isAwaitingFunctionResponse state |}.

(** [Partial<ConversationTurn>], the argument of [updateLastTurn]: [None]
    for a property the object does not have. *)
Record TurnUpdate := {
  upd_timestamp : option Date;
  upd_role : option Role;
  upd_text : option string;
  upd_isFinal : option bool;
  upd_toolUseRequest : option (option JsObject);
  upd_toolUseResponse : option (option JsObject);
  upd_groundingChunks : option (option (list GroundingChunk));
  upd_toolResponse : option (option JsObject)
}.

(** [{}] *)
Definition noUpdate : TurnUpdate :=
  {| upd_timestamp := None; upd_role := None; upd_text := None;
     upd_isFinal := None; upd_toolUseRequest := None;
     upd_toolUseResponse := None; upd_groundingChunks := None;
     upd_toolResponse := None |}.

(** A property of a spread [{ ...last, ...update }]. *)
Definition spread {A : Type} (old : A) (new : option A) : A :=
  match new with
  | Some v => v
  | None => old
  end.

(** [{ ...last, ...update }] *)
Definition overridden (last : ConversationTurn) (update : TurnUpdate)
    : ConversationTurn :=
  {| timestamp := spread (timestamp last) (upd_timestamp update);
     role := spread (role last) (upd_role update);
     text := spread (text last) (upd_text update);
     isFinal := spread (isFinal last) (upd_isFinal update);
     toolUseRequest := spread (toolUseRequest last) (upd_toolUseRequest update);
     toolUseResponse := spread (toolUseResponse last) (upd_toolUseResponse update);
     groundingChunks := spread (groundingChunks last) (upd_groundingChunks update);
     toolResponse := spread (toolResponse last) (upd_toolResponse update) |}.

Definition updateLastTurn (update : TurnUpdate) (state : State) : State :=
  if Nat.eqb (List.length (turns state)) 0 then state
  else
    let newTurns := turns state in
    match nth_error newTurns (List.length newTurns - 1) with
    | Some last =>
        let lastTurn := overridden last update in
        {| turns := setAt (List.length newTurns - 1) lastTurn newTurns;
           isAwaitingFunctionResponse := isAwaitingFunctionResponse state |}
    | None => state
    end.

(** [roles.lastIndexOf('agent')], [None] for -1. *)
Fixpoint lastIndexOf (r : Role) (roles : list Role) : option nat :=
  match roles with
  | [] => None
  | x :: rest =>
      match lastIndexOf r rest with
      | Some i => Some (S i)
      | None => if Role_eqb x r then Some 0%nat else None
      end
  end.

(** [Omit<ConversationTurn, 'timestamp' | 'role'>], the argument of
    [mergeIntoLastAgentTurn]. *)
Record TurnData := {
  data_text : string;
  data_isFinal : bool;
  data_toolUseRequest : option JsObject;
  data_toolUseResponse : option JsObject;
  data_groundingChunks : option (list GroundingChunk);
  data_toolResponse : option JsObject
}.

(** [{ ...update, role: 'agent' }] *)
Definition asAgentTurn (update : TurnData) : NewTurn :=
  {| new_role := agent;
     new_text := data_text update;
     new_isFinal := data_isFinal update;
     new_toolUseRequest := data_toolUseRequest update;
     new_toolUseResponse := data_toolUseResponse update;
     new_groundingChunks := data_groundingChunks update;
     new_toolResponse := data_toolResponse update |}.

(** [chunks || []] *)
Definition orEmpty (chunks : option (list GroundingChunk)) : list GroundingChunk :=
  match chunks with
  | Some l => l
  | None => []
  end.

(** [a || b] on objects. *)
Definition orElse {A : Type} (a b : option A) : option A :=
  match a with
  | Some v => Some v
  | None => b
  end.

(** The [mergedTurn] of [mergeIntoLastAgentTurn]; [update.text || ''] is
    [update.text], a string. *)
Definition mergedTurn (lastAgentTurn : ConversationTurn) (update : TurnData)
    : ConversationTurn :=
  {| timestamp := timestamp lastAgentTurn;
     role := role lastAgentTurn;
     text := (text lastAgentTurn ++ data_text update)%string;
     isFinal := data_isFinal update;
     toolUseRequest := toolUseRequest lastAgentTurn;
     toolUseResponse := toolUseResponse lastAgentTurn;
     groundingChunks :=
       Some (orEmpty (groundingChunks lastAgentTurn)
             ++ orEmpty (data_groundingChunks update));
     toolResponse := orElse (data_toolResponse update) (toolResponse lastAgentTurn) |}.

Definition mergeIntoLastAgentTurn (now : Date) (update : TurnData) (state : State)
    : State :=
  let turns := turns state in
  match lastIndexOf agent (map role turns) with
  | None =>
      {| LogStore.turns := turns ++ [stamped (asAgentTurn update) now];
         isAwaitingFunctionResponse := isAwaitingFunctionResponse state |}
  | Some lastAgentTurnIndex =>
      match nth_error turns lastAgentTurnIndex with
      | Some lastAgentTurn =>
          {| LogStore.turns :=
               setAt lastAgentTurnIndex (mergedTurn lastAgentTurn update) turns;
             isAwaitingFunctionResponse := isAwaitingFunctionResponse state |}
      | None => state
      end
  end.

Definition clearTurns (state : State) : State :=
  {| turns := []; isAwaitingFunctionResponse := isAwaitingFunctionResponse state |}.

Definition setIsAwaitingFunctionResponse (isAwaiting : bool) (state : State) : State :=
  {| turns := turns state; isAwaitingFunctionResponse := isAwaiting |}.

End LogStore.

(** The update that two successive updates of [mergeIntoLastAgentTurn]
    amount to (a notion of the properties below, not of the source). *)
Definition bothUpdates (first second : LogStore.TurnData) : LogStore.TurnData :=
  {| LogStore.data_text := (LogStore.data_text first ++ LogStore.data_text second)%string;
     LogStore.data_isFinal := LogStore.data_isFinal second;
     LogStore.data_toolUseRequest := LogStore.data_toolUseRequest second;
     LogStore.data_toolUseResponse := LogStore.data_toolUseResponse second;
     LogStore.data_groundingChunks :=
       Some (LogStore.orEmpty (LogStore.data_groundingChunks first)
             ++ LogStore.orEmpty (LogStore.data_groundingChunks second));
     LogStore.data_toolResponse :=
       LogStore.orElse (LogStore.data_toolResponse second)
         (LogStore.data_toolResponse first) |}.

(** ** components/streaming-console/StreamingConsole.tsx: the transcription
    handlers, on the log store *)

Module StreamingConsole.

Import LogStore.

(** [turns[turns.length - 1]] *)
Definition lastTurn (state : State) : option ConversationTurn :=
  nth_error (turns state) (List.length (turns state) - 1).

Definition handleInputTranscription (now : Date) (text : string) (isFinal : bool)
    (state : State) : State :=
  match lastTurn state with
  | Some last =>
      if Role_eqb (role last) user && negb (LogStore.isFinal last) then
        updateLastTurn
          {| upd_timestamp := None; upd_role := None;
             upd_text := Some (LogStore.text last ++ text)%string;
             upd_isFinal := Some isFinal;
             upd_toolUseRequest := None; upd_toolUseResponse := None;
             upd_groundingChunks := None; upd_toolResponse := None |}
          state
      else addTurn now (plainTurn user text isFinal) state
  | None => addTurn now (plainTurn user text isFinal) state
  end.

Definition handleTurnComplete (state : State) : State :=
  match lastTurn state with
  | Some last =>
      if negb (LogStore.isFinal last) then
        updateLastTurn
          {| upd_timestamp := None; upd_role := None; upd_text := None;
             upd_isFinal := Some true;
             upd_toolUseRequest := None; upd_toolUseResponse := None;
             upd_groundingChunks := None; upd_toolResponse := None |}
          state
      else state
  | None => state
  end.

(** [handleOutputTranscription], given the values of [heldGroundingChunks]
    and [heldGroundedResponse] its closure holds.  It gives the log store
    it leaves and whether it called [clearHeldGroundingChunks] and
    [clearHeldGroundedResponse]. *)
Definition handleOutputTranscription (now : Date)
    (heldGroundingChunks : option (list GroundingChunk))
    (heldGroundedResponse : option JsObject)
    (text : string) (isFinal : bool) (state : State) : State * (bool * bool) :=
  let turns := turns state in
  let extends :=
    match lastTurn state with
    | Some last =>
        if Role_eqb (role last) agent && negb (LogStore.isFinal last)
        then Some last else None
    | None => None
    end in
  match extends with
  | Some last =>
      (updateLastTurn
         {| upd_timestamp := None; upd_role := None;
            upd_text := Some (LogStore.text last ++ text)%string;
            upd_isFinal := Some isFinal;
            upd_toolUseRequest := None; upd_toolUseResponse := None;
            upd_groundingChunks := None; upd_toolResponse := None |}
         state,
       (false, false))
  | None =>
      let shouldMerge :=
        match lastIndexOf agent (map role turns) with
        | Some lastAgentTurnIndex =>
            let subsequentTurns := skipn (lastAgentTurnIndex + 1) turns in
            Nat.ltb 0 (List.length subsequentTurns)
            && forallb (fun t => Role_eqb (role t) system) subsequentTurns
        | None => false
        end in
      let turnData :=
        {| data_text := text; data_isFinal := isFinal;
           data_toolUseRequest := None; data_toolUseResponse := None;
           data_groundingChunks := heldGroundingChunks;
           data_toolResponse := heldGroundedResponse |} in
      (if shouldMerge then mergeIntoLastAgentTurn now turnData state
       else addTurn now (asAgentTurn turnData) state,
       (match heldGroundingChunks with Some _ => true | None => false end,
        match heldGroundedResponse with Some _ => true | None => false end))
  end.

End StreamingConsole.

(** ** lib/state.ts: the map store *)

Module MapStore.

(** [interface MapMarker]; the position is (lat, lng, altitude). *)
Record MapMarker := {
  position : R * R * R;
  label : string;
  showLabel : bool
}.

(** The state of [useMapStore]. *)
Record State := {
  markers : list MapMarker;
  cameraTarget : option MapController.Map3DCameraProps;
  preventAutoFrame : bool
}.

Definition initial : State :=
  {| markers := []; cameraTarget := None; preventAutoFrame := false |}.

Definition setMarkers (ms : list MapMarker) (state : State) : State :=
  {| markers := ms;
     cameraTarget := cameraTarget state;
     preventAutoFrame := preventAutoFrame state |}.

Definition clearMarkers (state : State) : State :=
  {| markers := [];
     cameraTarget := cameraTarget state;
     preventAutoFrame := preventAutoFrame state |}.

Definition setCameraTarget (target : option MapController.Map3DCameraProps)
    (state : State) : State :=
  {| markers := markers state;
     cameraTarget := target;
     preventAutoFrame := preventAutoFrame state |}.

Definition setPreventAutoFrame (prevent : bool) (state : State) : State :=
  {| markers := markers state;
     cameraTarget := cameraTarget state;
     preventAutoFrame := prevent |}.

End MapStore.

(** ** lib/tools/tool-registry.ts *)

(** What a tool works on besides its arguments: the two stores, and the
    clock [new Date()] reads, as the dates of its successive readings. *)
Record World := {
  logStore : LogStore.State;
  mapStore : MapStore.State;
  clock : nat -> Date;
  clockReads : nat
}.

(** A piece of a template literal: text, or a number put into the text. *)
Inductive Piece :=
| Str (s : string)
| Num (x : R).

(** A text between double quotes, as the template literals have it. *)
Definition quoted (s : string) : string :=
  String (Ascii.ascii_of_nat 34) (s ++ String (Ascii.ascii_of_nat 34) EmptyString).

(** [String(n)] for a length or an index. *)
Definition decimal (n : nat) : string :=
  DecimalString.NilZero.string_of_uint (Nat.to_uint n).

(** [array.map((x, index) => f x index)], from a first index. *)
Fixpoint mapWithIndex {A B : Type} (f : A -> nat -> B) (from : nat) (l : list A)
    : list B :=
  match l with
  | [] => []
  | x :: l' => f x from :: mapWithIndex f (S from) l'
  end.

Module ToolRegistry.

(** A tool's computation: what it returns or throws, the calls it records,
    and the world it leaves. *)
Definition Tool (A : Type) : Type := World -> Action A * World.

Definition pure {A} (a : A) : Tool A := fun w => (ret a, w).

Definition andThen {A B} (m : Tool A) (k : A -> Tool B) : Tool B :=
  fun w =>
    match m w with
    | ((Returned a, t), w') =>
        match k a w' with
        | ((r, t'), w'') => ((r, t ++ t'), w'')
        end
    | ((Thrown e, t), w') => ((Thrown e, t), w')
    end.

(** An [await] of a computation that does not touch the stores. *)
Definition await {A} (m : Action A) : Tool A := fun w => (m, w).

Definition onMapStore (f : MapStore.State -> MapStore.State) : Tool unit :=
  fun w =>
    (ret tt,
     {| logStore := logStore w; mapStore := f (mapStore w);
        clock := clock w; clockReads := clockReads w |}).

(** [useLogStore.getState().addTurn(turn)], which reads the clock once. *)
Definition addTurn (turn : LogStore.NewTurn) : Tool unit :=
  fun w =>
    (ret tt,
     {| logStore := LogStore.addTurn (clock w (clockReads w)) turn (logStore w);
        mapStore := mapStore w;
        clock := clock w; clockReads := S (clockReads w) |}).

Declare Scope tool_scope.
Delimit Scope tool_scope with tool.
Notation "x <- m ;; k" := (andThen m (fun x => k))
  (at level 61, m at next level, right associativity) : tool_scope.
Notation "m ;; k" := (andThen m (fun _ => k))
  (at level 61, right associativity) : tool_scope.
Local Open Scope tool_scope.

(** [google.maps.GeocoderResult], reduced to [geometry.location]. *)
Record GeocoderResult := { location : R * R }.

(** What the promise of [geocoder.geocode] settles to. *)
Inductive GeocodeReply :=
| GeocodeRejects (reason : JsError)
| GeocodeResolves (results : option (list GeocoderResult)).

(** [google.maps.Geocoder], asked for an address. *)
Definition Geocoder : Type := string -> GeocodeReply.

(** [interface ToolContext], reduced to what these tools read. *)
Record ToolContext := {
  elevationLib : option ElevationService;
  geocoder : option Geocoder;
  padding : Padding
}.

(** What a tool resolves to: here always a string, given by its pieces. *)
Definition ToolResult : Type := list Piece.

(** *** updateMapStateWithMarkers *)

(** [groundingChunks.some(chunk => chunk.maps?.placeAnswerSources)] *)
Definition hasPlaceAnswerSources (groundingChunks : list GroundingChunk) : bool :=
  existsb
    (fun chunk =>
       match maps chunk with
       | Some m =>
           match placeAnswerSources m with
           | Some _ => true
           | None => false
           end
       | None => false
       end)
    groundingChunks.

Definition updateMapStateWithMarkers (markers : list MapStore.MapMarker)
    (groundingChunks : list GroundingChunk) : Tool unit :=
  match hasPlaceAnswerSources groundingChunks, markers with
  | true, [marker] =>
      onMapStore (MapStore.setPreventAutoFrame true) ;;
      onMapStore (MapStore.setMarkers markers) ;;
      onMapStore
        (MapStore.setCameraTarget
           (Some
              (let '(lat, lng, _) := MapStore.position marker in
               {| MapController.center := (lat, lng, 200);
                  MapController.range := 500;
                  MapController.heading := 0;
                  MapController.tilt := 60;
                  MapController.roll := 0 |})))
  | _, _ =>
      onMapStore (MapStore.setPreventAutoFrame false) ;;
      onMapStore (MapStore.setMarkers markers)
  end.

(** *** frameEstablishingShot *)

(** [{ role: 'system', text: errorMessage, isFinal: true }] *)
Definition systemMessage (errorMessage : string) : LogStore.NewTurn :=
  LogStore.plainTurn LogStore.system errorMessage true.

(** The arguments of [frameEstablishingShot], as the declaration of the
    tool types them: [lat] and [lng] when they are numbers, and [geocode],
    a string, when the arguments have one. *)
Record EstablishingShotArgs := {
  shot_lat : option R;
  shot_lng : option R;
  shot_geocode : option string
}.

(** A string is truthy unless empty. *)
Definition truthy (s : string) : bool :=
  match s with
  | EmptyString => false
  | _ => true
  end.

(** The [try] block of [frameEstablishingShot]: the coordinates found, or
    the message the tool returns at once. *)
Definition geocodeOne (g : Geocoder) (geocode : string)
    : Tool (R * R + ToolResult) :=
  match g geocode with
  | GeocodeResolves (Some (result :: _)) => pure (inl (location result))
  | GeocodeResolves _ =>
      let errorMessage :=
        ("Could not find a location for " ++ quoted geocode ++ ".")%string in
      addTurn (systemMessage errorMessage) ;;
      pure (inr [Str errorMessage])
  | GeocodeRejects error =>
      await (emit (ConsoleError ("Geocoding failed for " ++ quoted geocode ++ ":") error)) ;;
      let errorMessage :=
        ("There was an error trying to find the location for " ++ quoted geocode
         ++ ". See browser console for details.")%string in
      addTurn (systemMessage errorMessage) ;;
      pure (inr [Str ("There was an error trying to find the location for "
                      ++ quoted geocode ++ ".")%string])
  end.

(** The end of [frameEstablishingShot], once [lat] and [lng] are settled. *)
Definition setEstablishingShot (lat lng : option R) (geocode : option string)
    : Tool ToolResult :=
  match lat, lng with
  | Some lat, Some lng =>
      onMapStore
        (MapStore.setCameraTarget
           (Some {| MapController.center := (lat, lng, 5000);
                    MapController.range := 15000;
                    MapController.tilt := 10;
                    MapController.heading := 0;
                    MapController.roll := 0 |})) ;;
      match geocode with
      | Some g =>
          if truthy g then pure [Str ("Set camera target to " ++ g ++ ".")%string]
          else pure [Str "Set camera target to latitude "; Num lat;
                     Str " and longitude "; Num lng; Str "."]
      | None =>
          pure [Str "Set camera target to latitude "; Num lat;
                Str " and longitude "; Num lng; Str "."]
      end
  | _, _ =>
      pure [Str "Invalid arguments for frameEstablishingShot. You must provide either a `geocode` string or numeric `lat` and `lng` values."]
  end.

Definition frameEstablishingShot (args : EstablishingShotArgs) (context : ToolContext)
    : Tool ToolResult :=
  match shot_geocode args with
  | Some geocode =>
      if truthy geocode then
        match geocoder context with
        | None =>
            let errorMessage := "Geocoding service is not available."%string in
            addTurn (systemMessage errorMessage) ;;
            pure [Str errorMessage]
        | Some g =>
            found <- geocodeOne g geocode ;;
            match found with
            | inl (lat, lng) =>
                setEstablishingShot (Some lat) (Some lng) (shot_geocode args)
            | inr message => pure message
            end
        end
      else setEstablishingShot (shot_lat args) (shot_lng args) (shot_geocode args)
  | None => setEstablishingShot (shot_lat args) (shot_lng args) (shot_geocode args)
  end.

(** *** frameLocations *)

(** [{ lat: number; lng: number; label?: string }] *)
Record LabelledLocation := {
  lat : R;
  lng : R;
  label : option string
}.

(** The arguments of [frameLocations], as the declaration of the tool
    types them: [locations], an array of objects with [lat] and [lng], and
    [geocode], an array of strings, when the arguments have them, and
    whether [markers] is truthy. *)
Record FrameLocationsArgs := {
  locations : option (list (R * R));
  geocode : option (list string);
  markers : bool
}.

(** The body of [geocodeResults.forEach], for the result of one address,
    on the array [locationsWithLabels]. *)
Definition collectGeocoded (g : Geocoder) (locationsWithLabels : list LabelledLocation)
    (address : string) : Tool (list LabelledLocation) :=
  match g address with
  | GeocodeResolves (Some (result :: _)) =>
      pure (locationsWithLabels
            ++ [{| lat := fst (location result);
                   lng := snd (location result);
                   label := Some address |}])
  | GeocodeResolves _ =>
      let errorMessage :=
        ("Could not find a location for " ++ quoted address ++ ".")%string in
      addTurn (systemMessage errorMessage) ;;
      pure locationsWithLabels
  | GeocodeRejects reason =>
      let errorMessage := "Geocoding failed for an address."%string in
      await (emit (ConsoleError errorMessage reason)) ;;
      addTurn (systemMessage errorMessage) ;;
      pure locationsWithLabels
  end.

Fixpoint forEachGeocoded (g : Geocoder) (addresses : list string)
    (locationsWithLabels : list LabelledLocation) : Tool (list LabelledLocation) :=
  match addresses with
  | [] => pure locationsWithLabels
  | address :: rest =>
      collected <- collectGeocoded g locationsWithLabels address ;;
      forEachGeocoded g rest collected
  end.

(** [loc.label || `Location ${index + 1}`] *)
Definition labelOr (l : option string) (index : nat) : string :=
  match l with
  | Some s => if truthy s then s else ("Location " ++ decimal (index + 1))%string
  | None => ("Location " ++ decimal (index + 1))%string
  end.

(** An element of [markersToSet]. *)
Definition markerOf (loc : LabelledLocation) (index : nat) : MapStore.MapMarker :=
  {| MapStore.position := (lat loc, lng loc, 1);
     MapStore.label := labelOr (label loc) index;
     MapStore.showLabel := true |}.

(** A labelled location as [lookAtWithPadding] reads it: it has no [alt]. *)
Definition asLocation (loc : LabelledLocation) : Location.t :=
  Location.mk (lat loc) (lng loc) None.

(** Step 3 of [frameLocations]. *)
Definition frameCollected (shouldCreateMarkers : bool) (context : ToolContext)
    (locationsWithLabels : list LabelledLocation) : Tool ToolResult :=
  if Nat.eqb (List.length locationsWithLabels) 0 then
    pure [Str "Could not find any valid locations to frame."]
  else if shouldCreateMarkers then
    let markersToSet := mapWithIndex markerOf 0 locationsWithLabels in
    onMapStore (MapStore.setPreventAutoFrame false) ;;
    onMapStore (MapStore.setMarkers markersToSet) ;;
    pure [Str ("Framed and added markers for " ++ decimal (List.length markersToSet)
               ++ " locations.")%string]
  else
    match elevationLib context with
    | None => pure [Str "Elevation library is not available."]
    | Some elevator =>
        onMapStore MapStore.clearMarkers ;;
        cameraProps <- await (lookAtWithPadding (map asLocation locationsWithLabels)
                                elevator 0 (padding context)) ;;
        onMapStore
          (MapStore.setCameraTarget
             (Some {| MapController.center :=
                        (CameraParams.lat cameraProps,
                         CameraParams.lng cameraProps,
                         CameraParams.altitude cameraProps);
                      MapController.range := CameraParams.range cameraProps + 1000;
                      MapController.heading := CameraParams.heading cameraProps;
                      MapController.tilt := CameraParams.tilt cameraProps;
                      MapController.roll := 0 |})) ;;
        pure [Str ("Framed " ++ decimal (List.length locationsWithLabels)
                   ++ " locations on the map.")%string]
    end.

(** [explicitLocations.map(loc => ({ ...loc }))] *)
Definition explicitLocations (args : FrameLocationsArgs) : list LabelledLocation :=
  match locations args with
  | Some l => map (fun loc => {| lat := fst loc; lng := snd loc; label := None |}) l
  | None => []
  end.

Definition frameLocations (args : FrameLocationsArgs) (context : ToolContext)
    : Tool ToolResult :=
  let locationsWithLabels := explicitLocations args in
  match geocode args with
  | Some (address :: rest) =>
      match geocoder context with
      | None =>
          let errorMessage := "Geocoding service is not available."%string in
          addTurn (systemMessage errorMessage) ;;
          pure [Str errorMessage]
      | Some g =>
          collected <- forEachGeocoded g (address :: rest) locationsWithLabels ;;
          frameCollected (markers args) context collected
      end
  | _ => frameCollected (markers args) context locationsWithLabels
  end.

End ToolRegistry.

(** What a run of a tool returned or threw, the calls it recorded, and the
    world it left. *)
Definition outcome {A} (run : Action A * World) : Completion A := completion (fst run).
Definition calls {A} (run : Action A * World) : list Event := trace (fst run).
Definition worldAfter {A} (run : Action A * World) : World := snd run.

(** The addresses a geocoder finds, in order, each with its first result
    and the address for label (a notion of the properties below). *)
Definition geocoded (g : ToolRegistry.Geocoder) (addresses : list string)
    : list ToolRegistry.LabelledLocation :=
  flat_map
    (fun address =>
       match g address with
       | ToolRegistry.GeocodeResolves (Some (result :: _)) =>
           [{| ToolRegistry.lat := fst (ToolRegistry.location result);
               ToolRegistry.lng := snd (ToolRegistry.location result);
               ToolRegistry.label := Some address |}]
       | _ => []
       end)
    addresses.

(** The addresses a geocoder fails on: a rejection, or no result. *)
Definition notGeocoded (g : ToolRegistry.Geocoder) (addresses : list string)
    : list string :=
  filter
    (fun address =>
       match g address with
       | ToolRegistry.GeocodeResolves (Some (_ :: _)) => false
       | _ => true
       end)
    addresses.

(** The turns the tools add to the log are final system turns (a notion of
    the properties below). *)
Definition systemTurns (added : list LogStore.ConversationTurn) : Prop :=
  Forall (fun t => LogStore.role t = LogStore.system /\ LogStore.isFinal t = true) added.

(** The addresses [frameLocations] is asked to geocode: none when [geocode]
    is not an array (a notion of the properties below). *)
Definition addressesOf (args : ToolRegistry.FrameLocationsArgs) : list string :=
  match ToolRegistry.geocode args with
  | Some addresses => addresses
  | None => []
  end.

(** A world whose log has got further turns and whose clock has been read
    once for each of them. *)
Definition withTurns (w : World) (added : list LogStore.ConversationTurn) : World :=
  {| logStore :=
       {| LogStore.turns := LogStore.turns (logStore w) ++ added;
          LogStore.isAwaitingFunctionResponse :=
            LogStore.isAwaitingFunctionResponse (logStore w) |};
     mapStore := mapStore w;
     clock := clock w;
     clockReads := clockReads w + List.length added |}.

(** A world with another map store. *)
Definition withMapStore (w : World) (store : MapStore.State) : World :=
  {| logStore := logStore w; mapStore := store;
     clock := clock w; clockReads := clockReads w |}.

(** ** lib/map-controller.ts: the markers of the map *)

Module MapElement.

(** The options of a [Marker3DInteractiveElement]; the position is
    (lat, lng, altitude). *)
Record Marker3DInteractiveElement := {
  position : R * R * R;
  altitudeMode : string;
  label : option string;
  title : string;
  drawsWhenOccluded : bool
}.

(** The children of the [Map3DElement]. *)
Definition Children : Type := list Marker3DInteractiveElement.

(** [clearMap]: [this.map.innerHTML = ''] *)
Definition clearMap (children : Children) : Children := [].

(** [new this.maps3dLib.Marker3DInteractiveElement({ ... })] *)
Definition marker3D (markerData : MapStore.MapMarker) : Marker3DInteractiveElement :=
  {| position := MapStore.position markerData;
     altitudeMode := "RELATIVE_TO_MESH";
     label := if MapStore.showLabel markerData
              then Some (MapStore.label markerData) else None;
     title := MapStore.label markerData;
     drawsWhenOccluded := true |}.

(** [addMarkers]: one [appendChild] for each marker. *)
Definition addMarkers (markers : list MapStore.MapMarker) (children : Children)
    : Children :=
  fold_left (fun children markerData => children ++ [marker3D markerData])
    markers children.

End MapElement.

(** ** App.tsx: the padding measured from the layout *)

(** [calculatePadding], from what it reads in the page: the console panel
    (its [offsetWidth], when the element is there), the control tray
    (whether the element is there), whether the media query of the mobile
    layout matches, and [window.innerWidth].  It returns the padding it
    passes to [setPadding], or nothing when it returns before. *)
Definition calculatePadding (consoleEl : option R) (trayEl : bool)
    (isMobile : bool) (vw : R) : option Padding :=
  match consoleEl, trayEl with
  | Some offsetWidth, true =>
      let top := 0.05 in
      let right_ := 0.05 in
      let bottom := 0.05 in
      let left_ := 0.05 in
      let left_ :=
        if negb isMobile then Rmax left_ (offsetWidth / vw + 0.02) else left_ in
      Some (top, right_, bottom, left_)
  | _, _ => None
  end.

(** ** App.tsx: the two effects on the map store

    The bodies of the effects, as functions of what they read: the
    controller when [mapController.current] is set, the values of the store
    the component was rendered with, and the children of the map element.
    When React runs them is not part of this development. *)

Module App.

(** [p => ({ position: p })], for the position of a marker: [frameEntities]
    reads its [lat] and [lng]. *)
Definition entityOf (p : R * R * R) : MapController.Entity :=
  let '(lat, lng, _) := p in {| MapController.position := (lat, lng) |}.

(** The body of the effect on [markers], [padding] and [preventAutoFrame]:
    the calls it starts and the children it leaves in the map element.
    [frameEntities] is started, not awaited. *)
Definition markerEffect (controller : option MapController.t)
    (markers : list MapStore.MapMarker) (padding : Padding) (preventAutoFrame : bool)
    (children : MapElement.Children) : Action unit * MapElement.Children :=
  match controller with
  | None => (ret tt, children)
  | Some controller =>
      let children := MapElement.clearMap children in
      let children :=
        if Nat.ltb 0 (List.length markers)
        then MapElement.addMarkers markers children
        else children in
      let markerPositions := map MapStore.position markers in
      let allEntities := map entityOf markerPositions in
      if Nat.ltb 0 (List.length allEntities) && negb preventAutoFrame
      then (MapController.frameEntities controller allEntities padding, children)
      else (ret tt, children)
  end.

(** The body of the effect on [cameraTarget]: the calls it makes and the
    map store it leaves. *)
Definition cameraTargetEffect (controller : option MapController.t)
    (store : MapStore.State) : Action unit * MapStore.State :=
  match MapStore.cameraTarget store, controller with
  | Some cameraTarget, Some _ =>
      (MapController.flyTo cameraTarget,
       MapStore.setPreventAutoFrame false (MapStore.setCameraTarget None store))
  | _, _ => (ret tt, store)
  end.

End App.

(** * Properties *)

(** ** Computations *)

(** The cases of the reply to the one request of [fetchElevation]: a
    rejection, [null], an empty array, an array with a first result. *)
Ltac by_reply elevator lat lng :=
  unfold fetchElevation, getElevationForLocations, completion, trace;
  destruct (elevator {| locations := [(lat, lng)] |}) as [reason | [[ | r0 rs] | ]].

Lemma fetchElevation_returns lat lng elevator :
  exists h, completion (fetchElevation lat lng elevator) = Returned h.
Proof. by_reply elevator lat lng; cbn; eexists; reflexivity. Qed.

Lemma fetchElevation_value lat lng elevator :
  completion (fetchElevation lat lng elevator)
  = Returned (Spec.elevationOrZero elevator {| locations := [(lat, lng)] |}).
Proof.
  unfold Spec.elevationOrZero. by_reply elevator lat lng; reflexivity.
Qed.

Lemma fetchElevation_requests lat lng elevator :
  elevationRequests (trace (fetchElevation lat lng elevator))
  = [{| locations := [(lat, lng)] |}].
Proof. by_reply elevator lat lng; reflexivity. Qed.

Lemma fetchElevation_no_flight lat lng elevator :
  cameraFlights (trace (fetchElevation lat lng elevator)) = [].
Proof. by_reply elevator lat lng; reflexivity. Qed.

Lemma completion_bind {A B} (m : Action A) (k : A -> Action B) :
  completion (bind m k)
  = match completion m with
    | Returned a => completion (k a)
    | Thrown e => Thrown e
    end.
Proof.
  destruct m as [[a | e] t]; cbn; [destruct (k a) | ]; reflexivity.
Qed.

Lemma trace_bind {A B} (m : Action A) (k : A -> Action B) :
  trace (bind m k)
  = match completion m with
    | Returned a => trace m ++ trace (k a)
    | Thrown e => trace m
    end.
Proof.
  destruct m as [[a | e] t]; cbn; [destruct (k a) | ]; reflexivity.
Qed.

Lemma elevationRequests_app t1 t2 :
  elevationRequests (t1 ++ t2) = elevationRequests t1 ++ elevationRequests t2.
Proof.
  induction t1 as [ | ev t1 IH]; [reflexivity | ].
  destruct ev; cbn; rewrite IH; reflexivity.
Qed.

Lemma cameraFlights_app t1 t2 :
  cameraFlights (t1 ++ t2) = cameraFlights t1 ++ cameraFlights t2.
Proof.
  induction t1 as [ | ev t1 IH]; [reflexivity | ].
  destruct ev; cbn; rewrite IH; reflexivity.
Qed.

(** What [lookAt] returns on a non-empty array. *)
Lemma lookAt_completion loc0 rest elevator heading :
  completion (lookAt (loc0 :: rest) elevator heading)
  = Returned
      {| CameraParams.lat := centerLat (loc0 :: rest);
         CameraParams.lng := centerLng (loc0 :: rest);
         CameraParams.altitude :=
           lookAtAltitude (Spec.elevationOrZero elevator (requestFor loc0)) (loc0 :: rest);
         CameraParams.range := slant (horizontalDistance (loc0 :: rest));
         CameraParams.tilt := 60;
         CameraParams.heading := heading |}.
Proof.
  unfold lookAt.
  rewrite completion_bind. cbn [first_location completion ret fst].
  rewrite completion_bind, fetchElevation_value.
  rewrite completion_bind. reflexivity.
Qed.

(** What [lookAtWithPadding] returns on a non-empty array. *)
Lemma lookAtWithPadding_completion loc0 rest elevator heading padding :
  completion (lookAtWithPadding (loc0 :: rest) elevator heading padding)
  = Returned
      {| CameraParams.lat := newCenterLat (loc0 :: rest) heading padding;
         CameraParams.lng := newCenterLng (loc0 :: rest) heading padding;
         CameraParams.altitude :=
           lookAtAltitude (Spec.elevationOrZero elevator (requestFor loc0)) (loc0 :: rest);
         CameraParams.range := slant (fullHorizontalDistance (loc0 :: rest) padding);
         CameraParams.tilt := 60;
         CameraParams.heading := heading |}.
Proof.
  unfold lookAtWithPadding.
  rewrite completion_bind. cbn [first_location completion ret fst].
  rewrite completion_bind, fetchElevation_value. reflexivity.
Qed.

(** The calls [lookAtWithPadding] makes on a non-empty array are those of
    [fetchElevation] at the first location. *)
Lemma lookAtWithPadding_trace loc0 rest elevator heading padding :
  trace (lookAtWithPadding (loc0 :: rest) elevator heading padding)
  = trace (fetchElevation (lat loc0) (lng loc0) elevator).
Proof.
  unfold lookAtWithPadding.
  rewrite trace_bind. cbn [first_location completion trace ret fst snd app].
  rewrite trace_bind.
  destruct (fetchElevation_returns (lat loc0) (lng loc0) elevator) as [h Hh].
  rewrite Hh. cbn. apply app_nil_r.
Qed.

(** ** Empty input *)

(** C3, as amended: with an empty location list [lookAtWithPadding] and
    [lookAt] both fail, for every heading and padding, with the [TypeError]
    that reading [locations[0].lat] throws, and before any call to the
    elevation service, the console or the camera. *)
Theorem empty_locations_throw_TypeError :
  forall (elevator : ElevationService) (heading : R) (padding : Padding),
    (exists e,
        lookAtWithPadding [] elevator heading padding = (Thrown e, [])
        /\ name e = "TypeError"%string)
    /\ (exists e,
        lookAt [] elevator heading = (Thrown e, [])
        /\ name e = "TypeError"%string).
Proof.
  intros elevator heading padding.
  split; eexists; (split; [reflexivity | reflexivity]).
Qed.

(** C3, counterexample: the error of an empty list is not an
    [EmptyInputError]. *)
Lemma empty_locations_not_EmptyInputError :
  ~ (forall (elevator : ElevationService) (heading : R) (padding : Padding),
        exists e,
          completion (lookAtWithPadding [] elevator heading padding) = Thrown e
          /\ name e = "EmptyInputError"%string).
Proof.
  intros claim.
  destruct (claim (fun _ => Resolves None) 0 (0, 0, 0, 0)) as [e [Hthrown Hname]].
  cbn in Hthrown. injection Hthrown as <-. discriminate Hname.
Qed.

(** ** Invalid padding *)

(** The pose [lookAtWithPadding] returns on a non-empty array, written out
    from the four numbers of the padding. *)
Lemma lookAtWithPadding_pose loc0 rest elevator heading padTop padRight padBottom padLeft :
  let locs := loc0 :: rest in
  let s := Rmax (1 / (1 - padLeft - padRight)) (1 / (1 - padTop - padBottom)) in
  let ox := (padLeft - padRight) / 2 in
  let oy := (padTop - padBottom) / 2 in
  let full := maxAngularDistance locs * 6371000 * 2 * s in
  let h := heading * (PI / 180) in
  exists view,
    completion (lookAtWithPadding locs elevator heading
                  (padTop, padRight, padBottom, padLeft))
    = Returned view
    /\ CameraParams.tilt view = 60
    /\ CameraParams.heading view = heading
    /\ CameraParams.range view = sqrt (full ^ 2 + (full / tan (60 * (PI / 180))) ^ 2)
    /\ CameraParams.lat view
       = centerLat locs + (- (ox * full) * sin h + oy * full * cos h) / 111000
    /\ CameraParams.lng view
       = centerLng locs
         + (- (ox * full) * cos h - oy * full * sin h)
           / (111000 * cos (centerLat locs * (PI / 180))).
Proof.
  cbv zeta. rewrite lookAtWithPadding_completion.
  eexists. split; [reflexivity | ].
  cbn [CameraParams.tilt CameraParams.heading CameraParams.range
       CameraParams.lat CameraParams.lng].
  split; [reflexivity | split; [reflexivity | ]].
  assert (Hfull :
    fullHorizontalDistance (loc0 :: rest) (padTop, padRight, padBottom, padLeft)
    = maxAngularDistance (loc0 :: rest) * 6371000 * 2
      * Rmax (1 / (1 - padLeft - padRight)) (1 / (1 - padTop - padBottom)))
    by reflexivity.
  split; [unfold slant; rewrite Hfull; reflexivity | ].
  unfold newCenterLat, newCenterLng, shiftLatDeg, shiftLngDeg,
    shiftNorthMeters, shiftEastMeters, shiftVectorScreenMeters,
    offsetGeoScreenX, offsetGeoScreenY.
  cbn [fst snd]. rewrite Hfull.
  unfold offsetX, offsetY, degToRad, Rdiv. split; ring.
Qed.

(** C2, as amended: the padding is not validated.  For every non-empty list
    of locations and every padding with [1 - left - right <= 0] or
    [1 - top - bottom <= 0], neither fraction being 0, [lookAtWithPadding]
    throws nothing and returns the pose computed from the padding as given:
    tilt 60, the heading it was given, the range
    sqrt(f^2 + (f / tan(60 degrees))^2) for
    f = maxAngularDistance * 6371000 * 2 * max(1/(1 - left - right),
    1/(1 - top - bottom)), the reciprocal of a negative fraction taking part
    in the maximum as it is, and the centre of the bounding box shifted by
    the offsets (left - right)/2 and (top - bottom)/2 of that distance. *)
Theorem invalid_padding_still_returns_a_pose :
  forall (loc0 : Location.t) (rest : list Location.t) (elevator : ElevationService)
         (heading padTop padRight padBottom padLeft : R),
    1 - padLeft - padRight <= 0 \/ 1 - padTop - padBottom <= 0 ->
    1 - padLeft - padRight <> 0 ->
    1 - padTop - padBottom <> 0 ->
    let locs := loc0 :: rest in
    let s := Rmax (1 / (1 - padLeft - padRight)) (1 / (1 - padTop - padBottom)) in
    let ox := (padLeft - padRight) / 2 in
    let oy := (padTop - padBottom) / 2 in
    let f := maxAngularDistance locs * 6371000 * 2 * s in
    let h := heading * (PI / 180) in
    exists view,
      completion (lookAtWithPadding locs elevator heading
                    (padTop, padRight, padBottom, padLeft))
      = Returned view
      /\ CameraParams.tilt view = 60
      /\ CameraParams.heading view = heading
      /\ CameraParams.range view = sqrt (f ^ 2 + (f / tan (60 * (PI / 180))) ^ 2)
      /\ CameraParams.lat view
         = centerLat locs + (- (ox * f) * sin h + oy * f * cos h) / 111000
      /\ CameraParams.lng view
         = centerLng locs
           + (- (ox * f) * cos h - oy * f * sin h)
             / (111000 * cos (centerLat locs * (PI / 180))).
Proof.
  intros loc0 rest elevator heading padTop padRight padBottom padLeft _ _ _.
  apply lookAtWithPadding_pose.
Qed.

Lemma invalid_padding_still_returns_a_pose_witness :
  let locs := [Location.mk 0 0 None; Location.mk 1 1 None] in
  let s := Rmax (1 / (1 - 0.6 - 0.5)) (1 / (1 - 0 - 0)) in
  let ox := (0.6 - 0.5) / 2 in
  let oy := (0 - 0) / 2 in
  let f := maxAngularDistance locs * 6371000 * 2 * s in
  let h := 0 * (PI / 180) in
  exists view,
    completion (lookAtWithPadding locs (fun _ => Resolves None) 0 (0, 0.5, 0, 0.6))
    = Returned view
    /\ CameraParams.tilt view = 60
    /\ CameraParams.heading view = 0
    /\ CameraParams.range view = sqrt (f ^ 2 + (f / tan (60 * (PI / 180))) ^ 2)
    /\ CameraParams.lat view
       = centerLat locs + (- (ox * f) * sin h + oy * f * cos h) / 111000
    /\ CameraParams.lng view
       = centerLng locs
         + (- (ox * f) * cos h - oy * f * sin h)
           / (111000 * cos (centerLat locs * (PI / 180))).
Proof.
  apply (invalid_padding_still_returns_a_pose
           (Location.mk 0 0 None) [Location.mk 1 1 None] (fun _ => Resolves None)
           0 0 0.5 0 0.6).
  - left. lra.
  - lra.
  - lra.
Defined.

(** C2, counterexample: left = 0.6 and right = 0.5 leave no visible width,
    and the call does not fail with an [InvalidPaddingError]. *)
Lemma invalid_padding_no_InvalidPaddingError :
  1 - 0.6 - 0.5 <= 0
  /\ ~ (exists e,
          completion (lookAtWithPadding [Location.mk 0 0 None] (fun _ => Resolves None) 0
                        (0, 0.5, 0, 0.6))
          = Thrown e
          /\ name e = "InvalidPaddingError"%string).
Proof.
  split; [lra | ].
  intros [e [Hthrown _]].
  rewrite lookAtWithPadding_completion in Hthrown. discriminate Hthrown.
Qed.

(** ** The bounding-box scan *)

Lemma ltb_spec x y : ltb x y = true <-> x < y.
Proof.
  unfold ltb. destruct (Rlt_dec x y); split; intros H; try discriminate; tauto.
Qed.

Lemma smaller_is_Rmin x a :
  (if lt_bound x (Finite a) then Finite x else Finite a) = Finite (Rmin a x).
Proof.
  cbn. unfold ltb, Rmin.
  destruct (Rlt_dec x a), (Rle_dec a x); f_equal; lra.
Qed.

Lemma larger_is_Rmax x a :
  (if gt_bound x (Finite a) then Finite x else Finite a) = Finite (Rmax a x).
Proof.
  cbn. unfold gtb, ltb, Rmax.
  destruct (Rlt_dec a x), (Rle_dec a x); f_equal; lra.
Qed.

(** Once every variable of the scan holds a number, the scan folds [Rmin]
    and [Rmax] over the remaining latitudes and longitudes. *)
Lemma scan_from_numbers (l : list Location.t) :
  forall a b c d,
    fold_left extendBox l
      {| minLat := Finite a; maxLat := Finite b; minLng := Finite c; maxLng := Finite d |}
    = {| minLat := Finite (fold_left Rmin (map lat l) a);
         maxLat := Finite (fold_left Rmax (map lat l) b);
         minLng := Finite (fold_left Rmin (map lng l) c);
         maxLng := Finite (fold_left Rmax (map lng l) d) |}.
Proof.
  induction l as [ | loc l IH]; intros a b c d; [reflexivity | ].
  cbn [fold_left map]. rewrite <- IH. f_equal.
  unfold extendBox. cbn [minLat maxLat minLng maxLng].
  rewrite !smaller_is_Rmin, !larger_is_Rmax. reflexivity.
Qed.

Lemma boundingBox_nonempty loc0 rest :
  boundingBox (loc0 :: rest)
  = {| minLat := Finite (Spec.least (map lat (loc0 :: rest)));
       maxLat := Finite (Spec.greatest (map lat (loc0 :: rest)));
       minLng := Finite (Spec.least (map lng (loc0 :: rest)));
       maxLng := Finite (Spec.greatest (map lng (loc0 :: rest))) |}.
Proof.
  unfold boundingBox. cbn [fold_left].
  replace (extendBox startBox loc0)
    with {| minLat := Finite (lat loc0); maxLat := Finite (lat loc0);
            minLng := Finite (lng loc0); maxLng := Finite (lng loc0) |}
    by reflexivity.
  apply scan_from_numbers.
Qed.

Lemma centerLat_is_boxCenterLat loc0 rest :
  centerLat (loc0 :: rest) = Spec.boxCenterLat (loc0 :: rest).
Proof. unfold centerLat. rewrite boundingBox_nonempty. reflexivity. Qed.

Lemma centerLng_is_boxCenterLng loc0 rest :
  centerLng (loc0 :: rest) = Spec.boxCenterLng (loc0 :: rest).
Proof. unfold centerLng. rewrite boundingBox_nonempty. reflexivity. Qed.

(** [Spec.least] and [Spec.greatest] are what their names say. *)
Lemma fold_Rmin_spec (l : list R) :
  forall a,
    (fold_left Rmin l a = a \/ In (fold_left Rmin l a) l)
    /\ fold_left Rmin l a <= a
    /\ (forall x, In x l -> fold_left Rmin l a <= x).
Proof.
  induction l as [ | y l IH]; intros a; cbn [fold_left In].
  - split; [left; reflexivity | split; [lra | intros x []]].
  - destruct (IH (Rmin a y)) as [Hin [Hle Hall]].
    pose proof (Rmin_l a y). pose proof (Rmin_r a y).
    split; [ | split].
    + destruct Hin as [Heq | Hin]; [ | right; right; exact Hin].
      rewrite Heq. unfold Rmin. destruct (Rle_dec a y); [left | right; left]; reflexivity.
    + lra.
    + intros x [<- | Hx]; [lra | apply Hall, Hx].
Qed.

Lemma fold_Rmax_spec (l : list R) :
  forall a,
    (fold_left Rmax l a = a \/ In (fold_left Rmax l a) l)
    /\ a <= fold_left Rmax l a
    /\ (forall x, In x l -> x <= fold_left Rmax l a).
Proof.
  induction l as [ | y l IH]; intros a; cbn [fold_left In].
  - split; [left; reflexivity | split; [lra | intros x []]].
  - destruct (IH (Rmax a y)) as [Hin [Hle Hall]].
    pose proof (Rmax_l a y). pose proof (Rmax_r a y).
    split; [ | split].
    + destruct Hin as [Heq | Hin]; [ | right; right; exact Hin].
      rewrite Heq. unfold Rmax. destruct (Rle_dec a y); [right; left | left]; reflexivity.
    + lra.
    + intros x [<- | Hx]; [lra | apply Hall, Hx].
Qed.

Lemma least_spec (l : list R) :
  l <> [] -> In (Spec.least l) l /\ forall x, In x l -> Spec.least l <= x.
Proof.
  destruct l as [ | a l]; [congruence | intros _].
  destruct (fold_Rmin_spec l a) as [Hin [Hle Hall]]. cbn [Spec.least In].
  split.
  - destruct Hin as [Heq | Hin]; [left; symmetry; exact Heq | right; exact Hin].
  - intros x [<- | Hx]; [exact Hle | apply Hall, Hx].
Qed.

Lemma greatest_spec (l : list R) :
  l <> [] -> In (Spec.greatest l) l /\ forall x, In x l -> x <= Spec.greatest l.
Proof.
  destruct l as [ | a l]; [congruence | intros _].
  destruct (fold_Rmax_spec l a) as [Hin [Hle Hall]]. cbn [Spec.greatest In].
  split.
  - destruct Hin as [Heq | Hin]; [left; symmetry; exact Heq | right; exact Hin].
  - intros x [<- | Hx]; [exact Hle | apply Hall, Hx].
Qed.

(** ** Angular distances *)

Lemma atan2_nonneg y x : 0 <= y -> 0 <= x -> 0 <= atan2 y x.
Proof.
  intros Hy Hx. unfold atan2. pose proof PI_RGT_0 as HPI.
  destruct (Rlt_dec 0 x) as [Hpos | Hnpos].
  - destruct (Req_dec y 0) as [-> | Hy0].
    + unfold Rdiv. rewrite Rmult_0_l, atan_0. lra.
    + left. rewrite <- atan_0. apply atan_increasing.
      apply Rdiv_lt_0_compat; lra.
  - destruct (Rlt_dec x 0); [lra | ].
    destruct (Rlt_dec 0 y); [lra | ].
    destruct (Rlt_dec y 0); lra.
Qed.

Lemma atan2_0_1 : atan2 0 1 = 0.
Proof.
  unfold atan2. destruct (Rlt_dec 0 1); [ | lra].
  unfold Rdiv. rewrite Rmult_0_l. apply atan_0.
Qed.

Lemma haversine_is_angularDistance lat1 lng1 lat2 lng2 :
  haversine lat1 lng1 lat2 lng2 = Spec.angularDistance lat1 lng1 lat2 lng2.
Proof.
  unfold haversine, Spec.angularDistance, Spec.radians, degToRad.
  rewrite !Rsqr_pow2. reflexivity.
Qed.

Lemma haversine_nonneg lat1 lng1 lat2 lng2 : 0 <= haversine lat1 lng1 lat2 lng2.
Proof.
  unfold haversine. cbv zeta.
  match goal with
  | |- 0 <= 2 * atan2 ?y ?x =>
      pose proof (atan2_nonneg y x (sqrt_pos _) (sqrt_pos _))
  end.
  lra.
Qed.

(** A point is at angular distance 0 from itself. *)
Lemma haversine_same lat lng : haversine lat lng lat lng = 0.
Proof.
  unfold haversine. cbv zeta.
  replace ((lat - lat) * degToRad / 2) with 0 by lra.
  replace ((lng - lng) * degToRad / 2) with 0 by lra.
  rewrite sin_0.
  replace (0 ^ 2 + cos (lat * degToRad) * cos (lat * degToRad) * 0 ^ 2) with 0 by lra.
  replace (1 - 0) with 1 by lra.
  rewrite sqrt_0, sqrt_1, atan2_0_1. lra.
Qed.

Lemma furthest_is_Rmax cLat cLng m loc :
  furthest cLat cLng m loc = Rmax m (haversine cLat cLng (lat loc) (lng loc)).
Proof.
  unfold furthest, gtb, ltb, Rmax. cbv zeta.
  destruct (Rlt_dec m (haversine cLat cLng (lat loc) (lng loc))),
           (Rle_dec m (haversine cLat cLng (lat loc) (lng loc))); lra.
Qed.

Lemma furthest_scan cLat cLng (l : list Location.t) :
  forall m,
    fold_left (furthest cLat cLng) l m
    = fold_left Rmax (map (fun p => haversine cLat cLng (lat p) (lng p)) l) m.
Proof.
  induction l as [ | loc l IH]; intros m; [reflexivity | ].
  cbn [fold_left map]. rewrite furthest_is_Rmax. apply IH.
Qed.

Lemma maxAngularDistance_nonneg locs : 0 <= maxAngularDistance locs.
Proof.
  unfold maxAngularDistance. rewrite furthest_scan.
  match goal with
  | |- 0 <= fold_left Rmax ?l 0 => destruct (fold_Rmax_spec l 0) as [_ [Hle _]]
  end.
  exact Hle.
Qed.

(** The scan that starts from 0 finds the greatest angular distance from
    the centre of the box to a location. *)
Lemma maxAngularDistance_is_angularExtent loc0 rest :
  maxAngularDistance (loc0 :: rest) = Spec.angularExtent (loc0 :: rest).
Proof.
  unfold maxAngularDistance, Spec.angularExtent.
  rewrite furthest_scan, centerLat_is_boxCenterLat, centerLng_is_boxCenterLng.
  cbn [map Spec.greatest fold_left].
  rewrite (Rmax_right 0) by apply haversine_nonneg.
  rewrite haversine_is_angularDistance.
  f_equal. apply map_ext. intros p. apply haversine_is_angularDistance.
Qed.

(** ** The altitude average *)

Lemma altitude_scan ALTITUDE (l : list Location.t) :
  forall sumAlt countAlt,
    fold_left (addAltitude ALTITUDE) l (sumAlt, countAlt)
    = (sumAlt + INR (List.length l) * ALTITUDE
       + fold_right Rplus 0 (map Spec.altitudeOffset l),
       countAlt + INR (List.length l)).
Proof.
  induction l as [ | loc l IH]; intros sumAlt countAlt.
  - cbn. f_equal; lra.
  - cbn [fold_left]. unfold addAltitude at 2. rewrite IH.
    cbn [List.length map fold_right]. rewrite S_INR.
    unfold nullish, Spec.altitudeOffset. f_equal; lra.
Qed.

Lemma lookAtAltitude_nonempty ALTITUDE loc0 rest :
  lookAtAltitude ALTITUDE (loc0 :: rest)
  = ALTITUDE + Spec.mean (map Spec.altitudeOffset (loc0 :: rest)).
Proof.
  unfold lookAtAltitude, Spec.mean. rewrite altitude_scan, length_map.
  assert (Hn : 0 < INR (List.length (loc0 :: rest))).
  { apply lt_0_INR. cbn. apply Nat.lt_0_succ. }
  unfold gtb, ltb.
  destruct (Rlt_dec 0 (0 + INR (List.length (loc0 :: rest)))) as [_ | Hn']; [ | lra].
  field. lra.
Qed.

(** Averaging [ALTITUDE + offset] over the points, as the source does, is
    adding the average offset to [ALTITUDE]. *)
Lemma mean_of_shifted ALTITUDE (l : list Location.t) :
  l <> [] ->
  Spec.mean (map (fun p => ALTITUDE + Spec.altitudeOffset p) l)
  = ALTITUDE + Spec.mean (map Spec.altitudeOffset l).
Proof.
  intros Hne. unfold Spec.mean. rewrite !length_map.
  assert (Hsum : fold_right Rplus 0 (map (fun p => ALTITUDE + Spec.altitudeOffset p) l)
                 = INR (List.length l) * ALTITUDE
                   + fold_right Rplus 0 (map Spec.altitudeOffset l)).
  { clear Hne. induction l as [ | p l IH]; [cbn; lra | ].
    cbn [map fold_right List.length]. rewrite IH, S_INR. lra. }
  rewrite Hsum.
  assert (Hn : 0 < INR (List.length l)).
  { apply lt_0_INR. destruct l; [congruence | cbn; apply Nat.lt_0_succ]. }
  field. lra.
Qed.

(** ** The padding/scale resolver *)

Lemma scale_zero_padding : scale (0, 0, 0, 0) = 1.
Proof.
  unfold scale, visibleWidthFraction, visibleHeightFraction.
  replace (1 / (1 - 0 - 0)) with 1 by lra.
  apply Rmax_left. lra.
Qed.

Lemma shift_without_offset locs heading padding :
  offsetX padding = 0 -> offsetY padding = 0 ->
  newCenterLat locs heading padding = centerLat locs
  /\ newCenterLng locs heading padding = centerLng locs.
Proof.
  intros HX HY.
  unfold newCenterLat, newCenterLng, shiftLatDeg, shiftLngDeg,
    shiftNorthMeters, shiftEastMeters, shiftVectorScreenMeters,
    offsetGeoScreenX, offsetGeoScreenY.
  cbn [fst snd]. rewrite HX, HY. unfold Rdiv. split; ring.
Qed.

(** With positive visible fractions the scale is positive and makes the
    visible part of the viewport span at least the content on both axes. *)
Lemma scale_covers_the_content padTop padRight padBottom padLeft :
  0 < 1 - padLeft - padRight ->
  0 < 1 - padTop - padBottom ->
  let padding := (padTop, padRight, padBottom, padLeft) in
  0 < scale padding
  /\ 1 <= scale padding * (1 - padLeft - padRight)
  /\ 1 <= scale padding * (1 - padTop - padBottom).
Proof.
  intros Hw Hh padding.
  unfold padding, scale, visibleWidthFraction, visibleHeightFraction.
  set (w := 1 - padLeft - padRight) in *.
  set (h := 1 - padTop - padBottom) in *.
  assert (Hiw : 0 < 1 / w) by (apply Rdiv_lt_0_compat; lra).
  assert (Hih : 0 < 1 / h) by (apply Rdiv_lt_0_compat; lra).
  pose proof (Rmax_l (1 / w) (1 / h)) as Hl.
  pose proof (Rmax_r (1 / w) (1 / h)) as Hr.
  split; [lra | split].
  - replace 1 with (1 / w * w) at 1 by (field; lra).
    apply Rmult_le_compat_r; lra.
  - replace 1 with (1 / h * h) at 1 by (field; lra).
    apply Rmult_le_compat_r; lra.
Qed.

(** C4: for every padding (top, right, bottom, left) with positive visible
    fractions, the resolver inside [lookAtWithPadding] computes
    scale = max(1/(1 - left - right), 1/(1 - top - bottom)),
    offsetX = (left - right)/2 and offsetY = (top - bottom)/2: these are
    the values of its [scale], [offsetX] and [offsetY], and the pose the
    call returns on a non-empty list is the one they give, the range being
    the slant range of the content distance multiplied by that scale, and
    the centre the centre of the bounding box shifted by those offsets of
    the scaled distance, rotated by the heading. *)
Theorem resolver_scale_and_offset :
  forall (loc0 : Location.t) (rest : list Location.t) (elevator : ElevationService)
         (heading padTop padRight padBottom padLeft : R),
    0 < 1 - padLeft - padRight ->
    0 < 1 - padTop - padBottom ->
    let locs := loc0 :: rest in
    let padding := (padTop, padRight, padBottom, padLeft) in
    let s := Rmax (1 / (1 - padLeft - padRight)) (1 / (1 - padTop - padBottom)) in
    let ox := (padLeft - padRight) / 2 in
    let oy := (padTop - padBottom) / 2 in
    let full := maxAngularDistance locs * 6371000 * 2 * s in
    let h := heading * (PI / 180) in
    scale padding = s
    /\ offsetX padding = ox
    /\ offsetY padding = oy
    /\ exists view,
        completion (lookAtWithPadding locs elevator heading padding) = Returned view
        /\ CameraParams.range view
           = sqrt (full ^ 2 + (full / tan (60 * (PI / 180))) ^ 2)
        /\ CameraParams.lat view
           = centerLat locs + (- (ox * full) * sin h + oy * full * cos h) / 111000
        /\ CameraParams.lng view
           = centerLng locs
             + (- (ox * full) * cos h - oy * full * sin h)
               / (111000 * cos (centerLat locs * (PI / 180))).
Proof.
  intros loc0 rest elevator heading padTop padRight padBottom padLeft _ _.
  cbv zeta.
  split; [reflexivity | split; [reflexivity | split; [reflexivity | ]]].
  destruct (lookAtWithPadding_pose loc0 rest elevator heading
              padTop padRight padBottom padLeft)
    as [view [Hview [_ [_ [Hrange [Hlat Hlng]]]]]].
  exists view. split; [exact Hview | split; [exact Hrange | split]].
  - exact Hlat.
  - exact Hlng.
Qed.

Lemma resolver_scale_and_offset_witness :
  let locs := [Location.mk 40 (-74) None; Location.mk 41 (-73) None] in
  let padding := (0.05, 0.05, 0.05, 0.35) in
  let s := Rmax (1 / (1 - 0.35 - 0.05)) (1 / (1 - 0.05 - 0.05)) in
  let ox := (0.35 - 0.05) / 2 in
  let oy := (0.05 - 0.05) / 2 in
  let full := maxAngularDistance locs * 6371000 * 2 * s in
  let h := 30 * (PI / 180) in
  scale padding = s
  /\ offsetX padding = ox
  /\ offsetY padding = oy
  /\ exists view,
      completion (lookAtWithPadding locs (fun _ => Resolves None) 30 padding)
      = Returned view
      /\ CameraParams.range view
         = sqrt (full ^ 2 + (full / tan (60 * (PI / 180))) ^ 2)
      /\ CameraParams.lat view
         = centerLat locs + (- (ox * full) * sin h + oy * full * cos h) / 111000
      /\ CameraParams.lng view
         = centerLng locs
           + (- (ox * full) * cos h - oy * full * sin h)
             / (111000 * cos (centerLat locs * (PI / 180))).
Proof.
  apply (resolver_scale_and_offset
           (Location.mk 40 (-74) None) [Location.mk 41 (-73) None]
           (fun _ => Resolves None) 30 0.05 0.05 0.05 0.35); lra.
Defined.

(** ** Zero padding *)

(** C1: for every non-empty list of locations, every heading and every
    behaviour of the elevation service, [lookAtWithPadding] with padding
    [0, 0, 0, 0] returns the pose [lookAt] returns: the same lat, lng,
    altitude, range, tilt and heading.  At that padding the scale is 1 and
    the offset is (0, 0). *)
Theorem zero_padding_agrees_with_lookAt :
  forall (loc0 : Location.t) (rest : list Location.t)
         (elevator : ElevationService) (heading : R),
    scale (0, 0, 0, 0) = 1
    /\ offsetX (0, 0, 0, 0) = 0
    /\ offsetY (0, 0, 0, 0) = 0
    /\ exists view,
        completion (lookAt (loc0 :: rest) elevator heading) = Returned view
        /\ completion (lookAtWithPadding (loc0 :: rest) elevator heading (0, 0, 0, 0))
           = Returned view.
Proof.
  intros loc0 rest elevator heading.
  assert (HX : offsetX (0, 0, 0, 0) = 0) by (cbn; lra).
  assert (HY : offsetY (0, 0, 0, 0) = 0) by (cbn; lra).
  split; [apply scale_zero_padding | split; [exact HX | split; [exact HY | ]]].
  eexists. split; [apply lookAt_completion | ].
  rewrite lookAtWithPadding_completion.
  destruct (shift_without_offset (loc0 :: rest) heading (0, 0, 0, 0) HX HY) as [-> ->].
  unfold fullHorizontalDistance, contentHorizontalDistance, horizontalDistance.
  rewrite scale_zero_padding, Rmult_1_r. reflexivity.
Qed.

(** ** The camera solver *)

(** C5: for every non-empty location list, heading and valid padding, the
    returned centre is the centre of the bounding box (the mean of the least
    and greatest latitude, and of the least and greatest longitude) plus
    the shift got from (x, y) = (-offsetX * full, offsetY * full), rotated
    by the heading in radians into east and north, and converted to degrees
    by 111000 and, for the longitude, the cosine of the centre latitude. *)
Theorem center_is_box_center_plus_rotated_shift :
  forall (loc0 : Location.t) (rest : list Location.t) (elevator : ElevationService)
         (heading padTop padRight padBottom padLeft : R),
    Spec.validPadding (padTop, padRight, padBottom, padLeft) ->
    let locs := loc0 :: rest in
    let boxLat := (Spec.least (map lat locs) + Spec.greatest (map lat locs)) / 2 in
    let boxLng := (Spec.least (map lng locs) + Spec.greatest (map lng locs)) / 2 in
    let offsetX := (padLeft - padRight) / 2 in
    let offsetY := (padTop - padBottom) / 2 in
    let full :=
      Spec.angularExtent locs * 6371000 * 2
      * Rmax (1 / (1 - padLeft - padRight)) (1 / (1 - padTop - padBottom)) in
    let x := - offsetX * full in
    let y := offsetY * full in
    let h := heading * (PI / 180) in
    let shiftEast := x * cos h - y * sin h in
    let shiftNorth := x * sin h + y * cos h in
    let shiftLat := shiftNorth / 111000 in
    let shiftLng := shiftEast / (111000 * cos (boxLat * (PI / 180))) in
    fullHorizontalDistance locs (padTop, padRight, padBottom, padLeft) = full
    /\ exists view,
        completion (lookAtWithPadding locs elevator heading
                      (padTop, padRight, padBottom, padLeft))
        = Returned view
        /\ CameraParams.lat view = boxLat + shiftLat
        /\ CameraParams.lng view = boxLng + shiftLng.
Proof.
  intros loc0 rest elevator heading padTop padRight padBottom padLeft _.
  cbv zeta.
  assert (Hfull :
    fullHorizontalDistance (loc0 :: rest) (padTop, padRight, padBottom, padLeft)
    = Spec.angularExtent (loc0 :: rest) * 6371000 * 2
      * Rmax (1 / (1 - padLeft - padRight)) (1 / (1 - padTop - padBottom))).
  { unfold fullHorizontalDistance, contentHorizontalDistance, maxDistance.
    rewrite maxAngularDistance_is_angularExtent. reflexivity. }
  split; [exact Hfull | ].
  rewrite lookAtWithPadding_completion.
  eexists. split; [reflexivity | ].
  cbn [CameraParams.lat CameraParams.lng].
  unfold newCenterLat, newCenterLng, shiftLatDeg, shiftLngDeg,
    shiftNorthMeters, shiftEastMeters, shiftVectorScreenMeters,
    offsetGeoScreenX, offsetGeoScreenY.
  cbn [fst snd].
  rewrite Hfull, centerLat_is_boxCenterLat, centerLng_is_boxCenterLng.
  unfold Spec.boxCenterLat, Spec.boxCenterLng, offsetX, offsetY, degToRad, Rdiv.
  split; ring.
Qed.

Lemma center_is_box_center_plus_rotated_shift_witness :
  Spec.validPadding (0.05, 0.05, 0.05, 0.35)
  /\ exists view,
      completion (lookAtWithPadding
                    [Location.mk (-0.5) (-0.5) None; Location.mk 0.5 0.5 None]
                    (fun _ => Resolves None) 0 (0.05, 0.05, 0.05, 0.35))
      = Returned view.
Proof.
  assert (Hvalid : Spec.validPadding (0.05, 0.05, 0.05, 0.35)) by (cbn; lra).
  split; [exact Hvalid | ].
  destruct (center_is_box_center_plus_rotated_shift
              (Location.mk (-0.5) (-0.5) None) [Location.mk 0.5 0.5 None]
              (fun _ => Resolves None) 0 0.05 0.05 0.05 0.35 Hvalid)
    as [_ [view [Hview _]]].
  exists view. exact Hview.
Defined.

Lemma slant_zero : slant 0 = 0.
Proof.
  unfold slant, Rdiv. rewrite Rmult_0_l.
  replace (0 ^ 2 + 0 ^ 2) with 0 by lra. apply sqrt_0.
Qed.

(** The greatest angular distance of a one-point list is 0. *)
Lemma angularExtent_single loc0 : Spec.angularExtent [loc0] = 0.
Proof.
  rewrite <- maxAngularDistance_is_angularExtent.
  unfold maxAngularDistance. cbn [fold_left]. rewrite furthest_is_Rmax.
  replace (centerLat [loc0]) with (lat loc0).
  2:{ rewrite centerLat_is_boxCenterLat. unfold Spec.boxCenterLat. cbn. lra. }
  replace (centerLng [loc0]) with (lng loc0).
  2:{ rewrite centerLng_is_boxCenterLng. unfold Spec.boxCenterLng. cbn. lra. }
  rewrite haversine_same. apply Rmax_left. lra.
Qed.

(** C6: for every non-empty location list and valid padding, the returned
    pose has tilt 60 and range sqrt(f^2 + (f / tan(60 degrees))^2), with
    f = maxAngularDistance * 6371000 * 2 * scale, where maxAngularDistance
    is the greatest haversine angular distance from the centre of the
    bounding box to a location: no location is further, and one is that
    far.  A one-point list has angular distance 0 and range 0. *)
Theorem range_is_slant_of_scaled_extent :
  forall (loc0 : Location.t) (rest : list Location.t) (elevator : ElevationService)
         (heading padTop padRight padBottom padLeft : R),
    Spec.validPadding (padTop, padRight, padBottom, padLeft) ->
    let locs := loc0 :: rest in
    let distanceTo p :=
      Spec.angularDistance (Spec.boxCenterLat locs) (Spec.boxCenterLng locs)
        (lat p) (lng p) in
    let scale := Rmax (1 / (1 - padLeft - padRight)) (1 / (1 - padTop - padBottom)) in
    let f := maxAngularDistance locs * 6371000 * 2 * scale in
    (forall p, In p locs -> distanceTo p <= maxAngularDistance locs)
    /\ (exists p, In p locs /\ maxAngularDistance locs = distanceTo p)
    /\ exists view,
        completion (lookAtWithPadding locs elevator heading
                      (padTop, padRight, padBottom, padLeft))
        = Returned view
        /\ CameraParams.tilt view = 60
        /\ CameraParams.range view = sqrt (f ^ 2 + (f / tan (60 * (PI / 180))) ^ 2)
        /\ (rest = [] -> maxAngularDistance locs = 0 /\ CameraParams.range view = 0).
Proof.
  intros loc0 rest elevator heading padTop padRight padBottom padLeft _.
  cbv zeta.
  rewrite maxAngularDistance_is_angularExtent.
  assert (Hne : map (fun p => Spec.angularDistance
                                (Spec.boxCenterLat (loc0 :: rest))
                                (Spec.boxCenterLng (loc0 :: rest)) (lat p) (lng p))
                    (loc0 :: rest) <> []) by discriminate.
  destruct (greatest_spec _ Hne) as [Hin Hall].
  split; [ | split].
  - intros p Hp. apply Hall. apply in_map_iff. exists p. split; [reflexivity | exact Hp].
  - apply in_map_iff in Hin. destruct Hin as [p [Heq Hp]].
    exists p. split; [exact Hp | symmetry; exact Heq].
  - rewrite lookAtWithPadding_completion.
    eexists. split; [reflexivity | ].
    cbn [CameraParams.tilt CameraParams.range].
    split; [reflexivity | ].
    unfold fullHorizontalDistance, contentHorizontalDistance, maxDistance.
    rewrite maxAngularDistance_is_angularExtent.
    split; [reflexivity | ].
    intros ->. rewrite angularExtent_single. split; [reflexivity | ].
    unfold earthRadius. rewrite !Rmult_0_l. apply slant_zero.
Qed.

Lemma range_is_slant_of_scaled_extent_witness :
  Spec.validPadding (0.05, 0.05, 0.05, 0.35)
  /\ exists view,
      completion (lookAtWithPadding [Location.mk 48 2 None] (fun _ => Resolves None) 0
                    (0.05, 0.05, 0.05, 0.35))
      = Returned view
      /\ CameraParams.tilt view = 60
      /\ CameraParams.range view = 0.
Proof.
  assert (Hvalid : Spec.validPadding (0.05, 0.05, 0.05, 0.35)) by (cbn; lra).
  split; [exact Hvalid | ].
  destruct (range_is_slant_of_scaled_extent
              (Location.mk 48 2 None) [] (fun _ => Resolves None) 0
              0.05 0.05 0.05 0.35 Hvalid)
    as [_ [_ [view [Hview [Htilt [_ Hsingle]]]]]].
  exists view. split; [exact Hview | split; [exact Htilt | ]].
  apply Hsingle. reflexivity.
Defined.

(** ** Elevation *)

(** C9: for every non-empty location list the call makes exactly one request
    to the elevation service, for the first location, and the returned
    altitude is the elevation reported for that location (0 when the lookup
    fails) plus the arithmetic mean of the per-point altitude offsets
    (default 0); the source gets it by averaging, over the points, that one
    elevation plus the offset of the point. *)
Theorem altitude_from_one_elevation_request :
  forall (loc0 : Location.t) (rest : list Location.t) (elevator : ElevationService)
         (heading : R) (padding : Padding),
    let locs := loc0 :: rest in
    let firstLocation := {| locations := [(lat loc0, lng loc0)] |} in
    let sample := Spec.elevationOrZero elevator firstLocation in
    elevationRequests (trace (lookAtWithPadding locs elevator heading padding))
    = [firstLocation]
    /\ exists view,
        completion (lookAtWithPadding locs elevator heading padding) = Returned view
        /\ CameraParams.altitude view
           = sample + Spec.mean (map Spec.altitudeOffset locs)
        /\ CameraParams.altitude view
           = Spec.mean (map (fun p => sample + Spec.altitudeOffset p) locs)
        /\ (forall r rs,
               elevator firstLocation = Resolves (Some (r :: rs)) ->
               sample = elevation r).
Proof.
  intros loc0 rest elevator heading padding. cbv zeta.
  split.
  - rewrite lookAtWithPadding_trace. apply fetchElevation_requests.
  - rewrite lookAtWithPadding_completion.
    eexists. split; [reflexivity | ].
    cbn [CameraParams.altitude].
    rewrite mean_of_shifted by discriminate.
    rewrite lookAtAltitude_nonempty.
    unfold requestFor. split; [reflexivity | split; [reflexivity | ]].
    intros r rs Hreply. unfold Spec.elevationOrZero. rewrite Hreply. reflexivity.
Qed.

(** C7: for every non-empty location list, if the elevation lookup raises
    or returns no results, [lookAtWithPadding] still returns a camera pose,
    and its altitude is the mean of the per-point altitude offsets alone. *)
Theorem elevation_failure_is_absorbed :
  forall (loc0 : Location.t) (rest : list Location.t) (elevator : ElevationService)
         (heading : R) (padding : Padding),
    let locs := loc0 :: rest in
    let firstLocation := {| locations := [(lat loc0, lng loc0)] |} in
    (exists reason, elevator firstLocation = Rejects reason)
    \/ elevator firstLocation = Resolves None
    \/ elevator firstLocation = Resolves (Some []) ->
    exists view,
      completion (lookAtWithPadding locs elevator heading padding) = Returned view
      /\ CameraParams.altitude view = Spec.mean (map Spec.altitudeOffset locs).
Proof.
  intros loc0 rest elevator heading padding. cbv zeta. intros Hfail.
  rewrite lookAtWithPadding_completion.
  eexists. split; [reflexivity | ].
  cbn [CameraParams.altitude]. rewrite lookAtAltitude_nonempty.
  unfold requestFor, Spec.elevationOrZero.
  destruct Hfail as [[reason ->] | [-> | ->]]; lra.
Qed.

Lemma elevation_failure_is_absorbed_witness :
  exists view,
    completion (lookAtWithPadding
                  [Location.mk 36 (-115) (Some 10); Location.mk 37 (-114) None]
                  (fun _ => Rejects (mkError "Error" "OVER_QUERY_LIMIT"))
                  0 (0.05, 0.05, 0.05, 0.35))
    = Returned view
    /\ CameraParams.altitude view
       = Spec.mean (map Spec.altitudeOffset
                      [Location.mk 36 (-115) (Some 10); Location.mk 37 (-114) None]).
Proof.
  apply (elevation_failure_is_absorbed
           (Location.mk 36 (-115) (Some 10)) [Location.mk 37 (-114) None]
           (fun _ => Rejects (mkError "Error" "OVER_QUERY_LIMIT"))
           0 (0.05, 0.05, 0.05, 0.35)).
  left. eexists. reflexivity.
Defined.

(** ** Symmetric padding *)

Lemma slant_factor horizontal :
  slant horizontal
  = sqrt (horizontal ^ 2 * (1 + (/ tan (targetTiltDeg * degToRad)) ^ 2)).
Proof. unfold slant, Rdiv. f_equal. ring. Qed.

Lemma slant_le a b : 0 <= a <= b -> slant a <= slant b.
Proof.
  intros [Ha Hab]. rewrite !slant_factor.
  set (k := 1 + (/ tan (targetTiltDeg * degToRad)) ^ 2).
  assert (Hk : 1 <= k) by (unfold k; pose proof (pow2_ge_0 (/ tan (targetTiltDeg * degToRad))); lra).
  apply sqrt_le_1_alt. apply Rmult_le_compat_r; [lra | ].
  cbn [pow]. nra.
Qed.

Lemma slant_lt a b : 0 <= a < b -> slant a < slant b.
Proof.
  intros [Ha Hab]. rewrite !slant_factor.
  set (k := 1 + (/ tan (targetTiltDeg * degToRad)) ^ 2).
  assert (Hk : 1 <= k) by (unfold k; pose proof (pow2_ge_0 (/ tan (targetTiltDeg * degToRad))); lra).
  assert (Ha2 : 0 <= a ^ 2) by apply pow2_ge_0.
  apply sqrt_lt_1_alt. split; [apply Rmult_le_pos; lra | ].
  apply Rmult_lt_compat_r; [lra | ].
  cbn [pow]. nra.
Qed.

Lemma contentHorizontalDistance_nonneg locs : 0 <= contentHorizontalDistance locs.
Proof.
  unfold contentHorizontalDistance, maxDistance, earthRadius.
  pose proof (maxAngularDistance_nonneg locs). nra.
Qed.

(** C8, as amended: for every non-empty location list and every valid
    padding with top = bottom, left = right and all four nonzero,
    offsetX = offsetY = 0 and scale > 1; [lookAtWithPadding] returns the
    centre it returns with zero padding, and a range that is at least the
    zero-padding range, and strictly larger exactly when some location lies
    off the centre of the bounding box (maxAngularDistance > 0). *)
Theorem symmetric_padding_keeps_center_and_never_shrinks_range :
  forall (loc0 : Location.t) (rest : list Location.t) (elevator : ElevationService)
         (heading padTop padRight padBottom padLeft : R),
    Spec.validPadding (padTop, padRight, padBottom, padLeft) ->
    padTop = padBottom -> padLeft = padRight ->
    padTop <> 0 -> padRight <> 0 -> padBottom <> 0 -> padLeft <> 0 ->
    let locs := loc0 :: rest in
    let padding := (padTop, padRight, padBottom, padLeft) in
    offsetX padding = 0
    /\ offsetY padding = 0
    /\ 1 < scale padding
    /\ exists view view0,
        completion (lookAtWithPadding locs elevator heading padding) = Returned view
        /\ completion (lookAtWithPadding locs elevator heading (0, 0, 0, 0))
           = Returned view0
        /\ CameraParams.lat view = CameraParams.lat view0
        /\ CameraParams.lng view = CameraParams.lng view0
        /\ CameraParams.range view0 <= CameraParams.range view
        /\ (CameraParams.range view0 < CameraParams.range view
            <-> 0 < maxAngularDistance locs).
Proof.
  intros loc0 rest elevator heading padTop padRight padBottom padLeft
    Hvalid Hv Hh HT HR HB HL.
  cbv zeta. cbn in Hvalid.
  assert (HX : offsetX (padTop, padRight, padBottom, padLeft) = 0) by (cbn; lra).
  assert (HY : offsetY (padTop, padRight, padBottom, padLeft) = 0) by (cbn; lra).
  assert (HX0 : offsetX (0, 0, 0, 0) = 0) by (cbn; lra).
  assert (HY0 : offsetY (0, 0, 0, 0) = 0) by (cbn; lra).
  assert (Hscale : 1 < scale (padTop, padRight, padBottom, padLeft)).
  { unfold scale, visibleWidthFraction, visibleHeightFraction.
    eapply Rlt_le_trans; [ | apply Rmax_l].
    apply Rmult_lt_reg_r with (1 - padLeft - padRight); [lra | ].
    replace (1 / (1 - padLeft - padRight) * (1 - padLeft - padRight)) with 1
      by (field; lra).
    lra. }
  split; [exact HX | split; [exact HY | split; [exact Hscale | ]]].
  rewrite !lookAtWithPadding_completion.
  eexists. eexists. split; [reflexivity | split; [reflexivity | ]].
  cbn [CameraParams.lat CameraParams.lng CameraParams.range].
  destruct (shift_without_offset (loc0 :: rest) heading _ HX HY) as [-> ->].
  destruct (shift_without_offset (loc0 :: rest) heading _ HX0 HY0) as [-> ->].
  split; [reflexivity | split; [reflexivity | ]].
  unfold fullHorizontalDistance. rewrite scale_zero_padding, Rmult_1_r.
  pose proof (contentHorizontalDistance_nonneg (loc0 :: rest)) as Hc.
  pose proof (maxAngularDistance_nonneg (loc0 :: rest)) as Hm.
  split.
  - apply slant_le. nra.
  - split.
    + intros Hlt.
      destruct (Req_dec (maxAngularDistance (loc0 :: rest)) 0) as [Hz | Hnz]; [ | lra].
      exfalso. revert Hlt.
      unfold contentHorizontalDistance, maxDistance. rewrite Hz, !Rmult_0_l. lra.
    + intros Hpos. apply slant_lt.
      assert (0 < contentHorizontalDistance (loc0 :: rest)).
      { unfold contentHorizontalDistance, maxDistance, earthRadius. nra. }
      nra.
Qed.

Lemma symmetric_padding_keeps_center_and_never_shrinks_range_witness :
  exists view view0,
    completion (lookAtWithPadding [Location.mk 0 0 None; Location.mk 1 1 None]
                  (fun _ => Resolves None) 0 (0.1, 0.2, 0.1, 0.2))
    = Returned view
    /\ completion (lookAtWithPadding [Location.mk 0 0 None; Location.mk 1 1 None]
                     (fun _ => Resolves None) 0 (0, 0, 0, 0))
       = Returned view0
    /\ CameraParams.lat view = CameraParams.lat view0
    /\ CameraParams.lng view = CameraParams.lng view0
    /\ CameraParams.range view0 <= CameraParams.range view.
Proof.
  assert (Hvalid : Spec.validPadding (0.1, 0.2, 0.1, 0.2)) by (cbn; lra).
  destruct (symmetric_padding_keeps_center_and_never_shrinks_range
              (Location.mk 0 0 None) [Location.mk 1 1 None] (fun _ => Resolves None) 0
              0.1 0.2 0.1 0.2 Hvalid)
    as [_ [_ [_ [view [view0 [Hv [Hv0 [Hlat [Hlng [Hle _]]]]]]]]]]; try lra.
  exists view, view0. repeat split; assumption.
Defined.

(** C8, counterexample: one location and padding 0.1 on every side; the
    padding is valid, symmetric and nonzero, and the range is the
    zero-padding range, not a larger one. *)
Lemma symmetric_padding_single_location_same_range :
  Spec.validPadding (0.1, 0.1, 0.1, 0.1)
  /\ forall view view0,
      completion (lookAtWithPadding [Location.mk 0 0 None] (fun _ => Resolves None) 0
                    (0.1, 0.1, 0.1, 0.1))
      = Returned view ->
      completion (lookAtWithPadding [Location.mk 0 0 None] (fun _ => Resolves None) 0
                    (0, 0, 0, 0))
      = Returned view0 ->
      ~ CameraParams.range view0 < CameraParams.range view.
Proof.
  split; [cbn; lra | ].
  intros view view0. rewrite !lookAtWithPadding_completion.
  intros Hv Hv0. injection Hv as <-. injection Hv0 as <-.
  cbn [CameraParams.range].
  unfold fullHorizontalDistance, contentHorizontalDistance, maxDistance.
  rewrite maxAngularDistance_is_angularExtent, angularExtent_single.
  rewrite !Rmult_0_l. lra.
Qed.

(** ** MapController.frameEntities *)

(** C10: for every padding, [frameEntities] on an empty entity list returns
    without an error and without any call: no elevation request, no camera
    animation.  On a non-empty list it starts one camera animation, whose
    range is the range [lookAtWithPadding] returns plus 1000, with heading
    0 and roll 0. *)
Theorem frameEntities_empty_returns_nonempty_flies :
  forall (this : MapController.t) (padding : Padding),
    MapController.frameEntities this [] padding = (Returned tt, [])
    /\ forall (e0 : MapController.Entity) (es : list MapController.Entity),
        let entities := e0 :: es in
        exists view flight,
          completion (lookAtWithPadding (map MapController.location_of entities)
                        (MapController.elevationLib this) 0 padding)
          = Returned view
          /\ completion (MapController.frameEntities this entities padding) = Returned tt
          /\ cameraFlights (trace (MapController.frameEntities this entities padding))
             = [flight]
          /\ endCamera_range flight = CameraParams.range view + 1000
          /\ endCamera_heading flight = 0
          /\ endCamera_roll flight = 0.
Proof.
  intros this padding. split; [reflexivity | ].
  intros e0 es. cbv zeta.
  unfold MapController.frameEntities. cbn [List.length Nat.eqb map].
  rewrite completion_bind, trace_bind, lookAtWithPadding_completion.
  eexists. eexists. split; [reflexivity | ].
  split; [reflexivity | ].
  rewrite cameraFlights_app, lookAtWithPadding_trace, fetchElevation_no_flight.
  cbn. repeat split; reflexivity.
Qed.

(** ** A worked scenario *)

Lemma atan2_pos y x : 0 < y -> 0 <= x -> 0 < atan2 y x.
Proof.
  intros Hy Hx. unfold atan2. pose proof PI_RGT_0 as HPI.
  destruct (Rlt_dec 0 x) as [Hpos | Hnpos].
  - rewrite <- atan_0. apply atan_increasing. apply Rdiv_lt_0_compat; lra.
  - destruct (Rlt_dec x 0); [lra | ].
    destruct (Rlt_dec 0 y); lra.
Qed.

(** The corner (-0.5, -0.5) is at a positive angular distance from (0, 0). *)
Lemma haversine_corner_pos : 0 < haversine 0 0 (-0.5) (-0.5).
Proof.
  unfold haversine, degToRad. cbv zeta.
  pose proof PI_RGT_0 as HPI. pose proof PI_4 as HPI4.
  set (u := (-0.5 - 0) * (PI / 180) / 2).
  assert (Hs : sin u ^ 2 = sin (- u) ^ 2) by (rewrite sin_neg; ring).
  assert (Hpos : 0 < sin (- u)) by (apply sin_gt_0; unfold u; lra).
  assert (Hc0 : cos (0 * (PI / 180)) = 1) by (rewrite Rmult_0_l; apply cos_0).
  assert (Hc : 0 < cos (-0.5 * (PI / 180))) by (apply cos_gt_0; lra).
  assert (Ha : 0 < sin u ^ 2 + cos (0 * (PI / 180)) * cos (-0.5 * (PI / 180)) * sin u ^ 2).
  { rewrite Hs, Hc0. cbn [pow]. nra. }
  match goal with
  | |- 0 < 2 * atan2 (sqrt ?a) (sqrt ?b) =>
      pose proof (atan2_pos (sqrt a) (sqrt b) (sqrt_lt_R0 a Ha) (sqrt_pos b))
  end.
  lra.
Qed.

(** Four locations at the corners of a one-degree box around (0, 0), heading
    0, and the desktop padding [0.05, 0.05, 0.05, 0.35]: the camera centre
    moves west of the centre of the box, its latitude stays, and the range
    is larger than with padding [0, 0, 0, 0]. *)
Example desktop_padding_moves_center_west :
  let box := [Location.mk (-0.5) (-0.5) None; Location.mk (-0.5) 0.5 None;
              Location.mk 0.5 (-0.5) None; Location.mk 0.5 0.5 None] in
  exists view view0,
    completion (lookAtWithPadding box (fun _ => Resolves None) 0 (0.05, 0.05, 0.05, 0.35))
    = Returned view
    /\ completion (lookAtWithPadding box (fun _ => Resolves None) 0 (0, 0, 0, 0))
       = Returned view0
    /\ CameraParams.lat view = 0
    /\ CameraParams.lng view < 0
    /\ CameraParams.range view0 < CameraParams.range view.
Proof.
  cbv zeta.
  rewrite !lookAtWithPadding_completion.
  eexists. eexists. split; [reflexivity | split; [reflexivity | ]].
  cbn [CameraParams.lat CameraParams.lng CameraParams.range].
  set (box := [Location.mk (-0.5) (-0.5) None; Location.mk (-0.5) 0.5 None;
               Location.mk 0.5 (-0.5) None; Location.mk 0.5 0.5 None]).
  assert (HcLat : centerLat box = 0).
  { unfold box. rewrite centerLat_is_boxCenterLat.
    unfold Spec.boxCenterLat. cbn. unfold Rmin, Rmax.
    repeat (destruct (Rle_dec _ _)); lra. }
  assert (HcLng : centerLng box = 0).
  { unfold box. rewrite centerLng_is_boxCenterLng.
    unfold Spec.boxCenterLng. cbn. unfold Rmin, Rmax.
    repeat (destruct (Rle_dec _ _)); lra. }
  assert (Hext : 0 < maxAngularDistance box).
  { eapply Rlt_le_trans; [apply haversine_corner_pos | ].
    unfold maxAngularDistance. rewrite furthest_scan, HcLat, HcLng.
    match goal with
    | |- _ <= fold_left Rmax ?l 0 => destruct (fold_Rmax_spec l 0) as [_ [_ Hall]]
    end.
    apply Hall. left. reflexivity. }
  assert (Hcontent : 0 < contentHorizontalDistance box).
  { unfold contentHorizontalDistance, maxDistance, earthRadius. nra. }
  assert (Hscale : scale (0.05, 0.05, 0.05, 0.35) = 1 / 0.6).
  { unfold scale, visibleWidthFraction, visibleHeightFraction.
    replace (1 - 0.35 - 0.05) with 0.6 by lra.
    replace (1 - 0.05 - 0.05) with 0.9 by lra.
    apply Rmax_left. lra. }
  unfold newCenterLat, newCenterLng, shiftLatDeg, shiftLngDeg,
    shiftNorthMeters, shiftEastMeters, shiftVectorScreenMeters,
    offsetGeoScreenX, offsetGeoScreenY, fullHorizontalDistance.
  cbn [fst snd]. rewrite HcLat, HcLng, Hscale, scale_zero_padding.
  rewrite !Rmult_0_l, sin_0, cos_0.
  unfold offsetX, offsetY.
  split; [lra | split].
  - lra.
  - rewrite Rmult_1_r. apply slant_lt. lra.
Qed.

(** * Further properties of lib/look-at.ts *)

(** ** Range and scale *)

Lemma slant_scales horizontal s :
  0 <= s -> slant (horizontal * s) = s * slant horizontal.
Proof.
  intros Hs. rewrite !slant_factor.
  set (k := 1 + (/ tan (targetTiltDeg * degToRad)) ^ 2).
  replace ((horizontal * s) ^ 2 * k) with (s ^ 2 * (horizontal ^ 2 * k)) by ring.
  rewrite sqrt_mult_alt by apply pow2_ge_0.
  rewrite sqrt_pow2 by exact Hs. reflexivity.
Qed.

Lemma scale_pos padTop padRight padBottom padLeft :
  0 < 1 - padLeft - padRight -> 0 < 1 - padTop - padBottom ->
  0 < scale (padTop, padRight, padBottom, padLeft).
Proof.
  intros Hw Hh. unfold scale, visibleWidthFraction, visibleHeightFraction.
  eapply Rlt_le_trans; [ | apply Rmax_l].
  apply Rdiv_lt_0_compat; lra.
Qed.

(** With positive visible fractions, the range of [lookAtWithPadding] is
    the range of [lookAt] multiplied by the scale: padding zooms out by
    exactly that factor and changes nothing else of the range. *)
Theorem padded_range_is_scaled_lookAt_range :
  forall (loc0 : Location.t) (rest : list Location.t) (elevator : ElevationService)
         (heading padTop padRight padBottom padLeft : R),
    0 < 1 - padLeft - padRight ->
    0 < 1 - padTop - padBottom ->
    let padding := (padTop, padRight, padBottom, padLeft) in
    exists view view0,
      completion (lookAtWithPadding (loc0 :: rest) elevator heading padding)
      = Returned view
      /\ completion (lookAt (loc0 :: rest) elevator heading) = Returned view0
      /\ CameraParams.range view = scale padding * CameraParams.range view0.
Proof.
  intros loc0 rest elevator heading padTop padRight padBottom padLeft Hw Hh.
  cbv zeta. rewrite lookAtWithPadding_completion, lookAt_completion.
  eexists. eexists. split; [reflexivity | split; [reflexivity | ]].
  cbn [CameraParams.range].
  unfold fullHorizontalDistance, contentHorizontalDistance, horizontalDistance.
  apply slant_scales. left. apply scale_pos; assumption.
Qed.

Lemma padded_range_is_scaled_lookAt_range_witness :
  exists view view0,
    completion (lookAtWithPadding [Location.mk 0 0 None; Location.mk 1 1 None]
                  (fun _ => Resolves None) 0 (0.05, 0.05, 0.05, 0.35))
    = Returned view
    /\ completion (lookAt [Location.mk 0 0 None; Location.mk 1 1 None]
                     (fun _ => Resolves None) 0)
       = Returned view0
    /\ CameraParams.range view
       = scale (0.05, 0.05, 0.05, 0.35) * CameraParams.range view0.
Proof.
  apply (padded_range_is_scaled_lookAt_range
           (Location.mk 0 0 None) [Location.mk 1 1 None] (fun _ => Resolves None) 0
           0.05 0.05 0.05 0.35); lra.
Defined.

Lemma scale_monotone t r b l t' r' b' l' :
  t <= t' -> r <= r' -> b <= b' -> l <= l' ->
  0 < 1 - l' - r' -> 0 < 1 - t' - b' ->
  scale (t, r, b, l) <= scale (t', r', b', l').
Proof.
  intros Ht Hr Hb Hl Hw Hh.
  unfold scale, visibleWidthFraction, visibleHeightFraction.
  apply Rmax_lub.
  - eapply Rle_trans; [ | apply Rmax_l].
    unfold Rdiv. rewrite !Rmult_1_l. apply Rinv_le_contravar; lra.
  - eapply Rle_trans; [ | apply Rmax_r].
    unfold Rdiv. rewrite !Rmult_1_l. apply Rinv_le_contravar; lra.
Qed.

(** More padding never brings the camera closer: if every side of a
    padding is at least the same side of another, and the larger one still
    leaves positive visible fractions, the range with the larger padding is
    at least the range with the smaller. *)
Theorem range_grows_with_padding :
  forall (loc0 : Location.t) (rest : list Location.t) (elevator : ElevationService)
         (heading t r b l t' r' b' l' : R),
    t <= t' -> r <= r' -> b <= b' -> l <= l' ->
    0 < 1 - l' - r' -> 0 < 1 - t' - b' ->
    exists view view',
      completion (lookAtWithPadding (loc0 :: rest) elevator heading (t, r, b, l))
      = Returned view
      /\ completion (lookAtWithPadding (loc0 :: rest) elevator heading (t', r', b', l'))
         = Returned view'
      /\ CameraParams.range view <= CameraParams.range view'.
Proof.
  intros loc0 rest elevator heading t r b l t' r' b' l' Ht Hr Hb Hl Hw Hh.
  rewrite !lookAtWithPadding_completion.
  eexists. eexists. split; [reflexivity | split; [reflexivity | ]].
  cbn [CameraParams.range]. unfold fullHorizontalDistance.
  pose proof (contentHorizontalDistance_nonneg (loc0 :: rest)) as Hc.
  pose proof (scale_monotone t r b l t' r' b' l' Ht Hr Hb Hl Hw Hh) as Hs.
  assert (Hpos : 0 < scale (t, r, b, l)) by (apply scale_pos; lra).
  apply slant_le. split; [nra | ].
  apply Rmult_le_compat_l; assumption.
Qed.

Lemma range_grows_with_padding_witness :
  exists view view',
    completion (lookAtWithPadding [Location.mk 0 0 None; Location.mk 1 1 None]
                  (fun _ => Resolves None) 0 (0.05, 0.05, 0.05, 0.05))
    = Returned view
    /\ completion (lookAtWithPadding [Location.mk 0 0 None; Location.mk 1 1 None]
                     (fun _ => Resolves None) 0 (0.05, 0.05, 0.05, 0.35))
       = Returned view'
    /\ CameraParams.range view <= CameraParams.range view'.
Proof.
  apply (range_grows_with_padding
           (Location.mk 0 0 None) [Location.mk 1 1 None] (fun _ => Resolves None) 0
           0.05 0.05 0.05 0.05 0.05 0.05 0.05 0.35); lra.
Defined.

(** ** The shift of the centre *)

Lemma center_within_latitudes loc0 rest lo hi :
  (forall p, In p (loc0 :: rest) -> lo < lat p < hi) ->
  lo < centerLat (loc0 :: rest) < hi.
Proof.
  intros Hall. rewrite centerLat_is_boxCenterLat. unfold Spec.boxCenterLat.
  assert (Hne : map lat (loc0 :: rest) <> []) by discriminate.
  destruct (least_spec _ Hne) as [Hmin _].
  destruct (greatest_spec _ Hne) as [Hmax _].
  apply in_map_iff in Hmin. destruct Hmin as [p [Hp Hinp]].
  apply in_map_iff in Hmax. destruct Hmax as [q [Hq Hinq]].
  pose proof (Hall p Hinp). pose proof (Hall q Hinq).
  rewrite <- Hp, <- Hq. lra.
Qed.

(** Padding on the left only, heading 0, latitudes strictly between the
    poles: the latitude of the centre is the one [lookAt] returns, and the
    longitude moves west of it (strictly, as soon as some location lies off
    the centre of the bounding box). *)
Theorem left_padding_moves_center_west :
  forall (loc0 : Location.t) (rest : list Location.t) (elevator : ElevationService)
         (padLeft : R),
    0 < padLeft < 1 ->
    (forall p, In p (loc0 :: rest) -> -90 < lat p < 90) ->
    exists view view0,
      completion (lookAtWithPadding (loc0 :: rest) elevator 0 (0, 0, 0, padLeft))
      = Returned view
      /\ completion (lookAt (loc0 :: rest) elevator 0) = Returned view0
      /\ CameraParams.lat view = CameraParams.lat view0
      /\ CameraParams.lng view <= CameraParams.lng view0
      /\ (0 < maxAngularDistance (loc0 :: rest) ->
          CameraParams.lng view < CameraParams.lng view0).
Proof.
  intros loc0 rest elevator padLeft Hl Hlat.
  rewrite lookAtWithPadding_completion, lookAt_completion.
  eexists. eexists. split; [reflexivity | split; [reflexivity | ]].
  cbn [CameraParams.lat CameraParams.lng].
  pose proof (center_within_latitudes loc0 rest (-90) 90 Hlat) as Hc.
  pose proof PI_RGT_0 as HPI.
  assert (Hcos : 0 < cos (centerLat (loc0 :: rest) * degToRad)).
  { apply cos_gt_0; unfold degToRad; nra. }
  assert (Hscale : 0 < scale (0, 0, 0, padLeft)) by (apply scale_pos; lra).
  pose proof (contentHorizontalDistance_nonneg (loc0 :: rest)) as Hcontent.
  unfold newCenterLat, newCenterLng, shiftLatDeg, shiftLngDeg,
    shiftNorthMeters, shiftEastMeters, shiftVectorScreenMeters,
    offsetGeoScreenX, offsetGeoScreenY, fullHorizontalDistance, offsetX, offsetY.
  cbn [fst snd]. rewrite Rmult_0_l, sin_0, cos_0.
  set (full := contentHorizontalDistance (loc0 :: rest) * scale (0, 0, 0, padLeft)).
  set (den := 111000 * cos (centerLat (loc0 :: rest) * degToRad)).
  assert (Hfull : 0 <= full) by (unfold full; nra).
  assert (Hden : 0 < den) by (unfold den; nra).
  assert (Hshift :
    (- ((padLeft - 0) / 2 * full) * 1 - (0 - 0) / 2 * full * 0) / den
    = - (padLeft / 2 * full / den)) by (field; lra).
  rewrite Hshift.
  assert (Hq : 0 <= padLeft / 2 * full / den).
  { apply Rle_mult_inv_pos; [nra | exact Hden]. }
  split; [lra | split; [lra | ]].
  intros Hext.
  assert (0 < full).
  { unfold full, contentHorizontalDistance, maxDistance, earthRadius. nra. }
  assert (0 < padLeft / 2 * full / den).
  { apply Rdiv_lt_0_compat; [nra | exact Hden]. }
  lra.
Qed.

Lemma left_padding_moves_center_west_witness :
  exists view view0,
    completion (lookAtWithPadding [Location.mk 40 (-74) None; Location.mk 41 (-73) None]
                  (fun _ => Resolves None) 0 (0, 0, 0, 0.3))
    = Returned view
    /\ completion (lookAt [Location.mk 40 (-74) None; Location.mk 41 (-73) None]
                     (fun _ => Resolves None) 0)
       = Returned view0
    /\ CameraParams.lat view = CameraParams.lat view0
    /\ CameraParams.lng view <= CameraParams.lng view0.
Proof.
  destruct (left_padding_moves_center_west
              (Location.mk 40 (-74) None) [Location.mk 41 (-73) None]
              (fun _ => Resolves None) 0.3)
    as [view [view0 [Hv [Hv0 [Hlat [Hlng _]]]]]].
  - lra.
  - intros p [<- | [<- | []]]; cbn; lra.
  - exists view, view0. repeat split; assumption.
Defined.

(** Turning the heading by 180 degrees mirrors the centre through the
    centre of the bounding box: the shift of latitude and the shift of
    longitude both change sign, and the range stays.  (Positive visible
    fractions, latitudes strictly between the poles.) *)
Theorem half_turn_mirrors_the_shift :
  forall (loc0 : Location.t) (rest : list Location.t) (elevator : ElevationService)
         (heading padTop padRight padBottom padLeft : R),
    0 < 1 - padLeft - padRight ->
    0 < 1 - padTop - padBottom ->
    (forall p, In p (loc0 :: rest) -> -90 < lat p < 90) ->
    let padding := (padTop, padRight, padBottom, padLeft) in
    exists view view180 view0,
      completion (lookAtWithPadding (loc0 :: rest) elevator heading padding)
      = Returned view
      /\ completion (lookAtWithPadding (loc0 :: rest) elevator (heading + 180) padding)
         = Returned view180
      /\ completion (lookAt (loc0 :: rest) elevator heading) = Returned view0
      /\ CameraParams.lat view180 - CameraParams.lat view0
         = - (CameraParams.lat view - CameraParams.lat view0)
      /\ CameraParams.lng view180 - CameraParams.lng view0
         = - (CameraParams.lng view - CameraParams.lng view0)
      /\ CameraParams.range view180 = CameraParams.range view.
Proof.
  intros loc0 rest elevator heading padTop padRight padBottom padLeft _ _ _.
  cbv zeta.
  rewrite !lookAtWithPadding_completion, lookAt_completion.
  eexists. eexists. eexists.
  split; [reflexivity | split; [reflexivity | split; [reflexivity | ]]].
  cbn [CameraParams.lat CameraParams.lng CameraParams.range].
  unfold newCenterLat, newCenterLng, shiftLatDeg, shiftLngDeg,
    shiftNorthMeters, shiftEastMeters.
  cbv zeta.
  replace ((heading + 180) * degToRad) with (heading * degToRad + PI)
    by (unfold degToRad; field).
  rewrite neg_cos, neg_sin. unfold Rdiv.
  split; [ring | split; [ring | reflexivity]].
Qed.

Lemma half_turn_mirrors_the_shift_witness :
  exists view view180 view0,
    completion (lookAtWithPadding [Location.mk 40 (-74) None; Location.mk 41 (-73) None]
                  (fun _ => Resolves None) 30 (0.05, 0.05, 0.05, 0.35))
    = Returned view
    /\ completion (lookAtWithPadding [Location.mk 40 (-74) None; Location.mk 41 (-73) None]
                     (fun _ => Resolves None) (30 + 180) (0.05, 0.05, 0.05, 0.35))
       = Returned view180
    /\ completion (lookAt [Location.mk 40 (-74) None; Location.mk 41 (-73) None]
                     (fun _ => Resolves None) 30)
       = Returned view0
    /\ CameraParams.lat view180 - CameraParams.lat view0
       = - (CameraParams.lat view - CameraParams.lat view0)
    /\ CameraParams.lng view180 - CameraParams.lng view0
       = - (CameraParams.lng view - CameraParams.lng view0)
    /\ CameraParams.range view180 = CameraParams.range view.
Proof.
  apply (half_turn_mirrors_the_shift
           (Location.mk 40 (-74) None) [Location.mk 41 (-73) None]
           (fun _ => Resolves None) 30 0.05 0.05 0.05 0.35); try lra.
  intros p [<- | [<- | []]]; cbn; lra.
Defined.

(** ** The bounding box *)

(** On a non-empty list the scan ends with four numbers (no start value
    survives); every location lies within them, each of the four is the
    latitude or longitude of some location, and the centre lies within the
    box. *)
Theorem boundingBox_encloses_every_location :
  forall (loc0 : Location.t) (rest : list Location.t),
    let locs := loc0 :: rest in
    exists south north west east,
      boundingBox locs
      = {| minLat := Finite south; maxLat := Finite north;
           minLng := Finite west; maxLng := Finite east |}
      /\ (forall p, In p locs -> south <= lat p <= north /\ west <= lng p <= east)
      /\ (exists p, In p locs /\ lat p = south)
      /\ (exists p, In p locs /\ lat p = north)
      /\ (exists p, In p locs /\ lng p = west)
      /\ (exists p, In p locs /\ lng p = east)
      /\ south <= centerLat locs <= north
      /\ west <= centerLng locs <= east.
Proof.
  intros loc0 rest. cbv zeta.
  assert (Hlat : map lat (loc0 :: rest) <> []) by discriminate.
  assert (Hlng : map lng (loc0 :: rest) <> []) by discriminate.
  destruct (least_spec _ Hlat) as [HinS HS].
  destruct (greatest_spec _ Hlat) as [HinN HN].
  destruct (least_spec _ Hlng) as [HinW HW].
  destruct (greatest_spec _ Hlng) as [HinE HE].
  do 4 eexists. split; [apply boundingBox_nonempty | ].
  assert (Hbox : forall p, In p (loc0 :: rest) ->
            Spec.least (map lat (loc0 :: rest)) <= lat p
              <= Spec.greatest (map lat (loc0 :: rest))
            /\ Spec.least (map lng (loc0 :: rest)) <= lng p
              <= Spec.greatest (map lng (loc0 :: rest))).
  { intros p Hp.
    pose proof (in_map lat _ _ Hp) as Hplat.
    pose proof (in_map lng _ _ Hp) as Hplng.
    repeat split; auto. }
  split; [exact Hbox | ].
  apply in_map_iff in HinS, HinN, HinW, HinE.
  destruct HinS as [pS [HpS HinS]]. destruct HinN as [pN [HpN HinN]].
  destruct HinW as [pW [HpW HinW]]. destruct HinE as [pE [HpE HinE]].
  split; [exists pS; auto | ].
  split; [exists pN; auto | ].
  split; [exists pW; auto | ].
  split; [exists pE; auto | ].
  rewrite centerLat_is_boxCenterLat, centerLng_is_boxCenterLng.
  unfold Spec.boxCenterLat, Spec.boxCenterLng.
  destruct (Hbox pS HinS) as [[_ HSN] _].
  destruct (Hbox pW HinW) as [_ [_ HWE]].
  rewrite HpS in HSN. rewrite HpW in HWE. lra.
Qed.

Lemma boundingBox_encloses_every_location_witness :
  exists south north west east,
    boundingBox [Location.mk 40 (-74) None; Location.mk 41 (-73) None]
    = {| minLat := Finite south; maxLat := Finite north;
         minLng := Finite west; maxLng := Finite east |}
    /\ south <= 41 <= north /\ west <= -73 <= east.
Proof.
  destruct (boundingBox_encloses_every_location
              (Location.mk 40 (-74) None) [Location.mk 41 (-73) None])
    as [south [north [west [east [Hbox [Hin _]]]]]].
  exists south, north, west, east. split; [exact Hbox | ].
  apply (Hin (Location.mk 41 (-73) None)). right. left. reflexivity.
Defined.

(** ** Angular distances *)

Lemma atan2_le_half_PI y x : 0 <= y -> 0 <= x -> atan2 y x <= PI / 2.
Proof.
  intros Hy Hx. unfold atan2. pose proof PI_RGT_0 as HPI.
  destruct (Rlt_dec 0 x) as [Hpos | Hnpos].
  - left. apply atan_bound.
  - destruct (Rlt_dec x 0); [lra | ].
    destruct (Rlt_dec 0 y); [lra | ].
    destruct (Rlt_dec y 0); lra.
Qed.

(** [haversine] does not depend on the order of its two points, and its
    result is an angle between 0 and PI. *)
Theorem haversine_symmetric_and_bounded :
  forall lat1 lng1 lat2 lng2 : R,
    haversine lat1 lng1 lat2 lng2 = haversine lat2 lng2 lat1 lng1
    /\ 0 <= haversine lat1 lng1 lat2 lng2 <= PI.
Proof.
  intros lat1 lng1 lat2 lng2. split.
  - unfold haversine. cbv zeta.
    replace ((lat1 - lat2) * degToRad / 2) with (- ((lat2 - lat1) * degToRad / 2))
      by (unfold degToRad; field).
    replace ((lng1 - lng2) * degToRad / 2) with (- ((lng2 - lng1) * degToRad / 2))
      by (unfold degToRad; field).
    rewrite !sin_neg.
    replace ((- sin ((lat2 - lat1) * degToRad / 2)) ^ 2)
      with (sin ((lat2 - lat1) * degToRad / 2) ^ 2) by ring.
    replace ((- sin ((lng2 - lng1) * degToRad / 2)) ^ 2)
      with (sin ((lng2 - lng1) * degToRad / 2) ^ 2) by ring.
    rewrite (Rmult_comm (cos (lat2 * degToRad)) (cos (lat1 * degToRad))).
    reflexivity.
  - split; [apply haversine_nonneg | ].
    unfold haversine. cbv zeta.
    match goal with
    | |- 2 * atan2 ?y ?x <= PI =>
        pose proof (atan2_le_half_PI y x (sqrt_pos _) (sqrt_pos _))
    end.
    lra.
Qed.

(** ** Coincident locations *)

Lemma fold_Rmin_same a (l : list R) :
  (forall x, In x l -> x = a) -> fold_left Rmin l a = a.
Proof.
  induction l as [ | y l IH]; intros Hall; [reflexivity | ].
  cbn [fold_left]. rewrite (Hall y (or_introl eq_refl)).
  rewrite Rmin_left by lra. apply IH. intros x Hx. apply Hall. right. exact Hx.
Qed.

Lemma fold_Rmax_same a (l : list R) :
  (forall x, In x l -> x = a) -> fold_left Rmax l a = a.
Proof.
  induction l as [ | y l IH]; intros Hall; [reflexivity | ].
  cbn [fold_left]. rewrite (Hall y (or_introl eq_refl)).
  rewrite Rmax_left by lra. apply IH. intros x Hx. apply Hall. right. exact Hx.
Qed.

(** When every location is at the position of the first, the camera looks
    at that position from range 0, whatever the heading and the padding
    (of positive visible fractions): with no extent there is nothing to
    shift or to scale. *)
Theorem coincident_locations_give_zero_range :
  forall (loc0 : Location.t) (rest : list Location.t) (elevator : ElevationService)
         (heading padTop padRight padBottom padLeft : R),
    0 < 1 - padLeft - padRight ->
    0 < 1 - padTop - padBottom ->
    (forall p, In p rest -> lat p = lat loc0 /\ lng p = lng loc0) ->
    exists view,
      completion (lookAtWithPadding (loc0 :: rest) elevator heading
                    (padTop, padRight, padBottom, padLeft))
      = Returned view
      /\ CameraParams.lat view = lat loc0
      /\ CameraParams.lng view = lng loc0
      /\ CameraParams.range view = 0.
Proof.
  intros loc0 rest elevator heading padTop padRight padBottom padLeft _ _ Hsame.
  rewrite lookAtWithPadding_completion.
  eexists. split; [reflexivity | ].
  cbn [CameraParams.lat CameraParams.lng CameraParams.range].
  assert (HcLat : centerLat (loc0 :: rest) = lat loc0).
  { rewrite centerLat_is_boxCenterLat. unfold Spec.boxCenterLat.
    cbn [map Spec.least Spec.greatest].
    rewrite fold_Rmin_same, fold_Rmax_same; [lra | | ];
      intros x Hx; apply in_map_iff in Hx; destruct Hx as [p [<- Hp]];
      apply Hsame, Hp. }
  assert (HcLng : centerLng (loc0 :: rest) = lng loc0).
  { rewrite centerLng_is_boxCenterLng. unfold Spec.boxCenterLng.
    cbn [map Spec.least Spec.greatest].
    rewrite fold_Rmin_same, fold_Rmax_same; [lra | | ];
      intros x Hx; apply in_map_iff in Hx; destruct Hx as [p [<- Hp]];
      apply Hsame, Hp. }
  assert (Hext : maxAngularDistance (loc0 :: rest) = 0).
  { unfold maxAngularDistance. rewrite furthest_scan, HcLat, HcLng.
    apply fold_Rmax_same. intros x Hx.
    apply in_map_iff in Hx. destruct Hx as [p [<- [<- | Hp]]].
    - apply haversine_same.
    - destruct (Hsame p Hp) as [-> ->]. apply haversine_same. }
  assert (Hfull : forall padding, fullHorizontalDistance (loc0 :: rest) padding = 0).
  { intros padding. unfold fullHorizontalDistance, contentHorizontalDistance, maxDistance.
    rewrite Hext. ring. }
  unfold newCenterLat, newCenterLng, shiftLatDeg, shiftLngDeg,
    shiftNorthMeters, shiftEastMeters, shiftVectorScreenMeters,
    offsetGeoScreenX, offsetGeoScreenY.
  cbn [fst snd]. rewrite Hfull, HcLat, HcLng, slant_zero.
  unfold Rdiv. split; [ring | split; [ring | reflexivity]].
Qed.

Lemma coincident_locations_give_zero_range_witness :
  exists view,
    completion (lookAtWithPadding [Location.mk 48 2 None; Location.mk 48 2 (Some 30)]
                  (fun _ => Resolves None) 90 (0.05, 0.05, 0.05, 0.35))
    = Returned view
    /\ CameraParams.lat view = 48
    /\ CameraParams.lng view = 2
    /\ CameraParams.range view = 0.
Proof.
  apply (coincident_locations_give_zero_range
           (Location.mk 48 2 None) [Location.mk 48 2 (Some 30)]
           (fun _ => Resolves None) 90 0.05 0.05 0.05 0.35); try lra.
  intros p [<- | []]. split; reflexivity.
Defined.

(** ** The order of the locations *)

Lemma least_Permutation (l l' : list R) :
  Permutation l l' -> l <> [] -> Spec.least l = Spec.least l'.
Proof.
  intros Hperm Hne.
  assert (Hne' : l' <> []).
  { intros ->. apply Hne. apply Permutation_nil. symmetry. exact Hperm. }
  destruct (least_spec l Hne) as [Hin Hall].
  destruct (least_spec l' Hne') as [Hin' Hall'].
  apply Rle_antisym.
  - apply Hall. apply (Permutation_in _ (Permutation_sym Hperm)). exact Hin'.
  - apply Hall'. apply (Permutation_in _ Hperm). exact Hin.
Qed.

Lemma greatest_Permutation (l l' : list R) :
  Permutation l l' -> l <> [] -> Spec.greatest l = Spec.greatest l'.
Proof.
  intros Hperm Hne.
  assert (Hne' : l' <> []).
  { intros ->. apply Hne. apply Permutation_nil. symmetry. exact Hperm. }
  destruct (greatest_spec l Hne) as [Hin Hall].
  destruct (greatest_spec l' Hne') as [Hin' Hall'].
  apply Rle_antisym.
  - apply Hall'. apply (Permutation_in _ Hperm). exact Hin.
  - apply Hall. apply (Permutation_in _ (Permutation_sym Hperm)). exact Hin'.
Qed.

(** The centre, the range, the tilt and the heading of the pose do not
    depend on the order of the locations.  (The altitude does: the one
    elevation request is for the first location.) *)
Theorem pose_ignores_the_order_of_locations :
  forall (loc0 loc0' : Location.t) (rest rest' : list Location.t)
         (elevator : ElevationService) (heading : R) (padding : Padding),
    Permutation (loc0 :: rest) (loc0' :: rest') ->
    exists view view',
      completion (lookAtWithPadding (loc0 :: rest) elevator heading padding)
      = Returned view
      /\ completion (lookAtWithPadding (loc0' :: rest') elevator heading padding)
         = Returned view'
      /\ CameraParams.lat view = CameraParams.lat view'
      /\ CameraParams.lng view = CameraParams.lng view'
      /\ CameraParams.range view = CameraParams.range view'
      /\ CameraParams.tilt view = CameraParams.tilt view'
      /\ CameraParams.heading view = CameraParams.heading view'.
Proof.
  intros loc0 loc0' rest rest' elevator heading padding Hperm.
  rewrite !lookAtWithPadding_completion.
  eexists. eexists. split; [reflexivity | split; [reflexivity | ]].
  cbn [CameraParams.lat CameraParams.lng CameraParams.range
       CameraParams.tilt CameraParams.heading].
  assert (HcLat : centerLat (loc0 :: rest) = centerLat (loc0' :: rest')).
  { rewrite !centerLat_is_boxCenterLat. unfold Spec.boxCenterLat.
    pose proof (Permutation_map lat Hperm) as Hp.
    rewrite (least_Permutation _ _ Hp), (greatest_Permutation _ _ Hp)
      by discriminate.
    reflexivity. }
  assert (HcLng : centerLng (loc0 :: rest) = centerLng (loc0' :: rest')).
  { rewrite !centerLng_is_boxCenterLng. unfold Spec.boxCenterLng.
    pose proof (Permutation_map lng Hperm) as Hp.
    rewrite (least_Permutation _ _ Hp), (greatest_Permutation _ _ Hp)
      by discriminate.
    reflexivity. }
  assert (Hext : maxAngularDistance (loc0 :: rest) = maxAngularDistance (loc0' :: rest')).
  { rewrite !maxAngularDistance_is_angularExtent. unfold Spec.angularExtent.
    rewrite <- !centerLat_is_boxCenterLat, <- !centerLng_is_boxCenterLng.
    rewrite <- HcLat, <- HcLng.
    apply greatest_Permutation; [ | discriminate].
    apply Permutation_map. exact Hperm. }
  assert (Hfull : fullHorizontalDistance (loc0 :: rest) padding
                  = fullHorizontalDistance (loc0' :: rest') padding).
  { unfold fullHorizontalDistance, contentHorizontalDistance, maxDistance.
    rewrite Hext. reflexivity. }
  unfold newCenterLat, newCenterLng, shiftLatDeg, shiftLngDeg,
    shiftNorthMeters, shiftEastMeters, shiftVectorScreenMeters,
    offsetGeoScreenX, offsetGeoScreenY.
  rewrite Hfull, HcLat, HcLng. repeat split; reflexivity.
Qed.

Lemma pose_ignores_the_order_of_locations_witness :
  exists view view',
    completion (lookAtWithPadding [Location.mk 40 (-74) None; Location.mk 41 (-73) None]
                  (fun _ => Resolves None) 0 (0.05, 0.05, 0.05, 0.35))
    = Returned view
    /\ completion (lookAtWithPadding [Location.mk 41 (-73) None; Location.mk 40 (-74) None]
                     (fun _ => Resolves None) 0 (0.05, 0.05, 0.05, 0.35))
       = Returned view'
    /\ CameraParams.lat view = CameraParams.lat view'
    /\ CameraParams.lng view = CameraParams.lng view'
    /\ CameraParams.range view = CameraParams.range view'
    /\ CameraParams.tilt view = CameraParams.tilt view'
    /\ CameraParams.heading view = CameraParams.heading view'.
Proof.
  apply (pose_ignores_the_order_of_locations
           (Location.mk 40 (-74) None) (Location.mk 41 (-73) None)
           [Location.mk 41 (-73) None] [Location.mk 40 (-74) None]
           (fun _ => Resolves None) 0 (0.05, 0.05, 0.05, 0.35)).
  apply perm_swap.
Defined.

(** ** Calls to the collaborators *)

(** On a non-empty list [lookAt] asks the elevation service once, for the
    first location, never starts a camera animation, and ends by logging
    that location and the altitude it sampled. *)
Theorem lookAt_requests_once_and_logs :
  forall (loc0 : Location.t) (rest : list Location.t)
         (elevator : ElevationService) (heading : R),
    let req := {| locations := [(lat loc0, lng loc0)] |} in
    elevationRequests (trace (lookAt (loc0 :: rest) elevator heading)) = [req]
    /\ cameraFlights (trace (lookAt (loc0 :: rest) elevator heading)) = []
    /\ trace (lookAt (loc0 :: rest) elevator heading)
       = trace (fetchElevation (lat loc0) (lng loc0) elevator)
         ++ [ConsoleLog "lookAt altitude for"
               [lat loc0; lng loc0; Spec.elevationOrZero elevator req]].
Proof.
  intros loc0 rest elevator heading. cbv zeta.
  assert (Htrace :
    trace (lookAt (loc0 :: rest) elevator heading)
    = trace (fetchElevation (lat loc0) (lng loc0) elevator)
      ++ [ConsoleLog "lookAt altitude for"
            [lat loc0; lng loc0;
             Spec.elevationOrZero elevator {| locations := [(lat loc0, lng loc0)] |}]]).
  { unfold lookAt.
    rewrite trace_bind. cbn [first_location completion trace ret fst snd app].
    rewrite trace_bind, fetchElevation_value.
    rewrite trace_bind. reflexivity. }
  rewrite Htrace, elevationRequests_app, cameraFlights_app,
    fetchElevation_requests, fetchElevation_no_flight.
  repeat split; reflexivity.
Qed.

Lemma mean_of_no_offsets (entities : list MapController.Entity) :
  Spec.mean (map Spec.altitudeOffset (map MapController.location_of entities)) = 0.
Proof.
  unfold Spec.mean.
  assert (Hsum : fold_right Rplus 0
                   (map Spec.altitudeOffset (map MapController.location_of entities))
                 = 0).
  { induction entities as [ | e es IH]; [reflexivity | ].
    cbn [map fold_right]. rewrite IH. cbn. lra. }
  rewrite Hsum. unfold Rdiv. ring.
Qed.

(** The animation [frameEntities] starts on a non-empty list lasts 5000 ms
    and aims, with tilt 60, at the centre [lookAtWithPadding] computes for
    heading 0; its altitude is the elevation sampled at the first entity
    (0 when the lookup fails), entities carrying no altitude offset; and
    the elevation service is asked once, for the first entity. *)
Theorem frameEntities_flight :
  forall (this : MapController.t) (padding : Padding)
         (e0 : MapController.Entity) (es : list MapController.Entity),
    let entities := e0 :: es in
    let locs := map MapController.location_of entities in
    let req := {| locations := [MapController.position e0] |} in
    elevationRequests (trace (MapController.frameEntities this entities padding))
    = [req]
    /\ exists flight,
        cameraFlights (trace (MapController.frameEntities this entities padding))
        = [flight]
        /\ durationMillis flight = 5000
        /\ endCamera_tilt flight = 60
        /\ endCamera_lat flight = newCenterLat locs 0 padding
        /\ endCamera_lng flight = newCenterLng locs 0 padding
        /\ endCamera_altitude flight
           = Spec.elevationOrZero (MapController.elevationLib this) req.
Proof.
  intros this padding e0 es. cbv zeta.
  unfold MapController.frameEntities. cbn [List.length Nat.eqb map].
  rewrite trace_bind, lookAtWithPadding_completion.
  rewrite elevationRequests_app, cameraFlights_app, lookAtWithPadding_trace,
    fetchElevation_requests, fetchElevation_no_flight.
  destruct e0 as [[lat0 lng0]].
  split; [reflexivity | ].
  eexists. split; [reflexivity | ].
  cbn [durationMillis endCamera_tilt endCamera_lat endCamera_lng endCamera_altitude
       CameraParams.lat CameraParams.lng CameraParams.altitude CameraParams.tilt
       MapController.center MapController.tilt].
  repeat split; try reflexivity.
  rewrite lookAtAltitude_nonempty.
  change (MapController.location_of {| MapController.position := (lat0, lng0) |}
          :: map MapController.location_of es)
    with (map MapController.location_of
            ({| MapController.position := (lat0, lng0) |} :: es)).
  rewrite mean_of_no_offsets. unfold requestFor. cbn. lra.
Qed.

(** * The log store (lib/state.ts) *)

Section LogStoreProperties.

Import LogStore.
Local Open Scope nat_scope.

Lemma append_assoc (a b c : string) :
  ((a ++ b) ++ c)%string = (a ++ (b ++ c))%string.
Proof. induction a as [ | ch a IH]; cbn; [reflexivity | rewrite IH; reflexivity]. Qed.

Lemma nth_error_snoc {A : Type} (init : list A) (last : A) :
  nth_error (init ++ [last]) (List.length (init ++ [last]) - 1) = Some last.
Proof.
  rewrite length_app. cbn [List.length].
  replace (List.length init + 1 - 1) with (List.length init) by lia.
  rewrite nth_error_app2 by lia. rewrite Nat.sub_diag. reflexivity.
Qed.

Lemma setAt_middle {A : Type} (before : list A) (x v : A) (after : list A) :
  setAt (List.length before) v (before ++ x :: after) = before ++ v :: after.
Proof.
  induction before as [ | y before IH]; cbn; [reflexivity | rewrite IH; reflexivity].
Qed.

Lemma setAt_snoc {A : Type} (init : list A) (last v : A) :
  setAt (List.length (init ++ [last]) - 1) v (init ++ [last]) = init ++ [v].
Proof.
  rewrite length_app. cbn [List.length].
  replace (List.length init + 1 - 1) with (List.length init) by lia.
  apply setAt_middle.
Qed.

Lemma updateLastTurn_snoc update init last awaiting :
  updateLastTurn update
    {| turns := init ++ [last]; isAwaitingFunctionResponse := awaiting |}
  = {| turns := init ++ [overridden last update];
       isAwaitingFunctionResponse := awaiting |}.
Proof.
  unfold updateLastTurn. cbn [turns isAwaitingFunctionResponse].
  assert (Hlen : Nat.eqb (List.length (init ++ [last])) 0 = false).
  { apply Nat.eqb_neq. rewrite length_app. cbn. lia. }
  rewrite Hlen, nth_error_snoc, setAt_snoc. reflexivity.
Qed.

Lemma nil_or_snoc {A : Type} (l : list A) :
  l = [] \/ exists init last, l = init ++ [last].
Proof.
  destruct l as [ | x l]; [left; reflexivity | right].
  destruct (@exists_last A (x :: l)) as [init [last Heq]]; [discriminate | ].
  exists init, last. exact Heq.
Qed.

(** [updateLastTurn] leaves an empty log as it is; on a log that ends with
    a turn it overrides, in that turn only, the properties the update has,
    and keeps every earlier turn and the number of turns.  Applied right
    after [addTurn], it changes the turn just added. *)
Theorem updateLastTurn_overrides_only_the_last_turn :
  forall (update : TurnUpdate) (state : State),
    (turns state = [] -> updateLastTurn update state = state)
    /\ (forall init last,
          turns state = init ++ [last] ->
          turns (updateLastTurn update state) = init ++ [overridden last update])
    /\ List.length (turns (updateLastTurn update state)) = List.length (turns state)
    /\ isAwaitingFunctionResponse (updateLastTurn update state)
       = isAwaitingFunctionResponse state
    /\ (forall now turn,
          turns (updateLastTurn update (addTurn now turn state))
          = turns state ++ [overridden (stamped turn now) update]).
Proof.
  intros update [ts awaiting]. cbn [turns isAwaitingFunctionResponse].
  split; [intros ->; reflexivity | ].
  split; [intros init last ->; rewrite updateLastTurn_snoc; reflexivity | ].
  split; [ | split].
  - destruct (nil_or_snoc ts) as [-> | [init [last ->]]]; [reflexivity | ].
    rewrite updateLastTurn_snoc. cbn [turns]. rewrite !length_app. reflexivity.
  - destruct (nil_or_snoc ts) as [-> | [init [last ->]]]; [reflexivity | ].
    rewrite updateLastTurn_snoc. reflexivity.
  - intros now turn. unfold addTurn. cbn [turns isAwaitingFunctionResponse].
    rewrite updateLastTurn_snoc. reflexivity.
Qed.

Lemma updateLastTurn_overrides_only_the_last_turn_witness :
  turns (updateLastTurn
           {| upd_timestamp := None; upd_role := None; upd_text := None;
              upd_isFinal := Some true;
              upd_toolUseRequest := None; upd_toolUseResponse := None;
              upd_groundingChunks := None; upd_toolResponse := None |}
           {| turns := [stamped (plainTurn user "hello" false) 7];
              isAwaitingFunctionResponse := false |})
  = [] ++ [stamped (plainTurn user "hello" true) 7].
Proof.
  destruct (updateLastTurn_overrides_only_the_last_turn
              {| upd_timestamp := None; upd_role := None; upd_text := None;
                 upd_isFinal := Some true;
                 upd_toolUseRequest := None; upd_toolUseResponse := None;
                 upd_groundingChunks := None; upd_toolResponse := None |}
              {| turns := [stamped (plainTurn user "hello" false) 7];
                 isAwaitingFunctionResponse := false |})
    as [_ [Hsnoc _]].
  apply (Hsnoc [] (stamped (plainTurn user "hello" false) 7)). reflexivity.
Defined.

Lemma Role_eqb_eq (a b : Role) : Role_eqb a b = true <-> a = b.
Proof. destruct a, b; cbn; split; intros H; try reflexivity; discriminate. Qed.

Lemma Role_eq_dec (a b : Role) : {a = b} + {a <> b}.
Proof. decide equality. Defined.

Lemma lastIndexOf_None r (roles : list Role) :
  lastIndexOf r roles = None <-> ~ In r roles.
Proof.
  induction roles as [ | x roles IH]; cbn [lastIndexOf In].
  - split; [intros _ [] | reflexivity].
  - destruct (lastIndexOf r roles) as [i | ].
    + split; [discriminate | ].
      intros Hnot. exfalso. apply Hnot. right.
      destruct (in_dec Role_eq_dec r roles)
        as [Hin | Hnin]; [exact Hin | ].
      apply IH in Hnin. discriminate.
    + destruct (Role_eqb x r) eqn:Hx.
      * apply Role_eqb_eq in Hx. split; [discriminate | ].
        intros Hnot. exfalso. apply Hnot. left. exact Hx.
      * split; [ | reflexivity]. intros _ [Heq | Hin].
        -- apply Role_eqb_eq in Heq. congruence.
        -- apply (proj1 IH); [reflexivity | exact Hin].
Qed.

Lemma lastIndexOf_last r (before after : list Role) :
  ~ In r after ->
  lastIndexOf r (before ++ r :: after) = Some (List.length before).
Proof.
  intros Hafter. apply lastIndexOf_None in Hafter.
  induction before as [ | x before IH]; cbn [app lastIndexOf List.length].
  - rewrite Hafter. destruct r; reflexivity.
  - rewrite IH. reflexivity.
Qed.

(** A log with an agent turn splits at its last agent turn. *)
Lemma last_agent_turn (ts : list ConversationTurn) :
  In agent (map role ts) ->
  exists before a after,
    ts = before ++ a :: after /\ role a = agent /\ ~ In agent (map role after).
Proof.
  induction ts as [ | t ts IH]; cbn [map In]; [intros [] | ].
  intros Hin.
  destruct (in_dec Role_eq_dec agent (map role ts)) as [Hts | Hnts].
  - destruct (IH Hts) as [before [a [after [-> [Ha Hafter]]]]].
    exists (t :: before), a, after. repeat split; assumption.
  - destruct Hin as [Ht | Hts]; [ | contradiction].
    exists [], t, ts. repeat split; assumption.
Qed.

Lemma merge_at_last_agent now update before a after awaiting :
  role a = agent -> ~ In agent (map role after) ->
  mergeIntoLastAgentTurn now update
    {| turns := before ++ a :: after; isAwaitingFunctionResponse := awaiting |}
  = {| turns := before ++ mergedTurn a update :: after;
       isAwaitingFunctionResponse := awaiting |}.
Proof.
  intros Ha Hafter. unfold mergeIntoLastAgentTurn.
  cbn [turns isAwaitingFunctionResponse].
  rewrite map_app. cbn [map]. rewrite Ha, lastIndexOf_last by exact Hafter.
  rewrite length_map, nth_error_app2 by lia. rewrite Nat.sub_diag.
  cbn [nth_error]. rewrite setAt_middle. reflexivity.
Qed.

(** [mergeIntoLastAgentTurn]: without an agent turn in the log it appends
    one, made of the update; otherwise it rewrites the last agent turn and
    no other: the text of the update is appended to its text, its grounding
    chunks are followed by those of the update, [isFinal] is the update's,
    the tool response is the update's if it has one; its timestamp, role
    and tool requests stay, whatever the update carries. *)
Theorem mergeIntoLastAgentTurn_rewrites_the_last_agent_turn :
  forall (now : Date) (update : TurnData) (state : State),
    ((forall t, In t (turns state) -> role t <> agent) ->
     turns (mergeIntoLastAgentTurn now update state)
     = turns state ++ [stamped (asAgentTurn update) now])
    /\ (forall before a after,
          turns state = before ++ a :: after ->
          role a = agent ->
          (forall t, In t after -> role t <> agent) ->
          turns (mergeIntoLastAgentTurn now update state)
          = before
            ++ {| timestamp := timestamp a;
                  role := agent;
                  text := (text a ++ data_text update)%string;
                  isFinal := data_isFinal update;
                  toolUseRequest := toolUseRequest a;
                  toolUseResponse := toolUseResponse a;
                  groundingChunks :=
                    Some (orEmpty (groundingChunks a)
                          ++ orEmpty (data_groundingChunks update));
                  toolResponse :=
                    match data_toolResponse update with
                    | Some response => Some response
                    | None => toolResponse a
                    end |}
            :: after).
Proof.
  intros now update [ts awaiting]. cbn [turns]. split.
  - intros Hnone. unfold mergeIntoLastAgentTurn. cbn [turns].
    assert (Hnot : ~ In agent (map role ts)).
    { intros Hin. apply in_map_iff in Hin. destruct Hin as [t [Hrole Ht]].
      exact (Hnone t Ht Hrole). }
    apply lastIndexOf_None in Hnot. rewrite Hnot. reflexivity.
  - intros before a after -> Ha Hafter.
    rewrite merge_at_last_agent; [ | exact Ha | ].
    + cbn [turns]. unfold mergedTurn, orElse. rewrite Ha. reflexivity.
    + intros Hin. apply in_map_iff in Hin. destruct Hin as [t [Hrole Ht]].
      exact (Hafter t Ht Hrole).
Qed.

Lemma mergeIntoLastAgentTurn_rewrites_the_last_agent_turn_witness :
  turns (mergeIntoLastAgentTurn 9
           {| data_text := " world"; data_isFinal := true;
              data_toolUseRequest := None; data_toolUseResponse := None;
              data_groundingChunks := None; data_toolResponse := None |}
           {| turns := [stamped (plainTurn agent "hello" false) 7;
                        stamped (plainTurn system "tool call" true) 8];
              isAwaitingFunctionResponse := false |})
  = [ {| timestamp := 7; role := agent; text := "hello world"; isFinal := true;
         toolUseRequest := None; toolUseResponse := None;
         groundingChunks := Some []; toolResponse := None |};
      stamped (plainTurn system "tool call" true) 8 ].
Proof.
  destruct (mergeIntoLastAgentTurn_rewrites_the_last_agent_turn 9
              {| data_text := " world"; data_isFinal := true;
                 data_toolUseRequest := None; data_toolUseResponse := None;
                 data_groundingChunks := None; data_toolResponse := None |}
              {| turns := [stamped (plainTurn agent "hello" false) 7;
                           stamped (plainTurn system "tool call" true) 8];
                 isAwaitingFunctionResponse := false |})
    as [_ Hmerge].
  apply (Hmerge [] (stamped (plainTurn agent "hello" false) 7)
           [stamped (plainTurn system "tool call" true) 8]).
  - reflexivity.
  - reflexivity.
  - intros t [<- | []]. discriminate.
Defined.

(** When the log has an agent turn, [mergeIntoLastAgentTurn] keeps the
    number of turns, their order, their roles, their timestamps and their
    tool requests, and [isAwaitingFunctionResponse]; when it has none, the
    log grows by exactly one turn, an agent turn. *)
Theorem mergeIntoLastAgentTurn_keeps_the_shape_of_the_log :
  forall (now : Date) (update : TurnData) (state : State),
    let merged := mergeIntoLastAgentTurn now update state in
    isAwaitingFunctionResponse merged = isAwaitingFunctionResponse state
    /\ (In agent (map role (turns state)) ->
        map role (turns merged) = map role (turns state)
        /\ map timestamp (turns merged) = map timestamp (turns state)
        /\ map toolUseRequest (turns merged) = map toolUseRequest (turns state)
        /\ map toolUseResponse (turns merged) = map toolUseResponse (turns state))
    /\ (~ In agent (map role (turns state)) ->
        map role (turns merged) = map role (turns state) ++ [agent]).
Proof.
  intros now update [ts awaiting]. cbv zeta. cbn [turns isAwaitingFunctionResponse].
  split; [ | split].
  - destruct (in_dec Role_eq_dec agent (map role ts)) as [Hin | Hnin].
    + destruct (last_agent_turn ts Hin) as [before [a [after [-> [Ha Hafter]]]]].
      rewrite merge_at_last_agent by assumption. reflexivity.
    + unfold mergeIntoLastAgentTurn. cbn [turns].
      apply lastIndexOf_None in Hnin. rewrite Hnin. reflexivity.
  - intros Hin.
    destruct (last_agent_turn ts Hin) as [before [a [after [-> [Ha Hafter]]]]].
    rewrite merge_at_last_agent by assumption. cbn [turns].
    rewrite !map_app. cbn [map mergedTurn role timestamp toolUseRequest toolUseResponse].
    repeat split; reflexivity.
  - intros Hnin. unfold mergeIntoLastAgentTurn. cbn [turns].
    apply lastIndexOf_None in Hnin. rewrite Hnin. cbn [turns].
    rewrite map_app. reflexivity.
Qed.

Lemma mergeIntoLastAgentTurn_keeps_the_shape_of_the_log_witness :
  let log := {| turns := [stamped (plainTurn agent "hello" false) 7;
                          stamped (plainTurn system "tool call" true) 8];
                isAwaitingFunctionResponse := false |} in
  let update := {| data_text := " world"; data_isFinal := true;
                   data_toolUseRequest := None; data_toolUseResponse := None;
                   data_groundingChunks := None; data_toolResponse := None |} in
  map role (turns (mergeIntoLastAgentTurn 9 update log)) = map role (turns log).
Proof.
  cbv zeta.
  destruct (mergeIntoLastAgentTurn_keeps_the_shape_of_the_log 9
              {| data_text := " world"; data_isFinal := true;
                 data_toolUseRequest := None; data_toolUseResponse := None;
                 data_groundingChunks := None; data_toolResponse := None |}
              {| turns := [stamped (plainTurn agent "hello" false) 7;
                           stamped (plainTurn system "tool call" true) 8];
                 isAwaitingFunctionResponse := false |})
    as [_ [Hshape _]].
  apply Hshape. left. reflexivity.
Defined.

(** Merging two updates one after the other into a log that has an agent
    turn is merging once the update that joins their texts and grounding
    chunks, with the [isFinal] of the second and the tool response of the
    second if it has one, else of the first. *)
Theorem mergeIntoLastAgentTurn_twice_is_once :
  forall (now now' now'' : Date) (first second : TurnData) (state : State),
    In agent (map role (turns state)) ->
    mergeIntoLastAgentTurn now' second (mergeIntoLastAgentTurn now first state)
    = mergeIntoLastAgentTurn now'' (bothUpdates first second) state.
Proof.
  intros now now' now'' first second [ts awaiting] Hin.
  cbn [turns] in Hin.
  destruct (last_agent_turn ts Hin) as [before [a [after [-> [Ha Hafter]]]]].
  rewrite (merge_at_last_agent now first) by assumption.
  rewrite (merge_at_last_agent now' second) by assumption.
  rewrite (merge_at_last_agent now'' (bothUpdates first second)) by assumption.
  f_equal. f_equal. f_equal.
  unfold mergedTurn, bothUpdates.
  cbn [timestamp role text isFinal toolUseRequest toolUseResponse groundingChunks
       toolResponse data_text data_isFinal data_groundingChunks data_toolResponse
       orEmpty].
  rewrite append_assoc, app_assoc.
  destruct (data_toolResponse second), (data_toolResponse first); reflexivity.
Qed.

Lemma mergeIntoLastAgentTurn_twice_is_once_witness :
  let log := {| turns := [stamped (plainTurn agent "a" false) 7];
                isAwaitingFunctionResponse := false |} in
  let piece t final :=
    {| data_text := t; data_isFinal := final;
       data_toolUseRequest := None; data_toolUseResponse := None;
       data_groundingChunks := None; data_toolResponse := None |} in
  mergeIntoLastAgentTurn 9 (piece "c"%string true)
    (mergeIntoLastAgentTurn 8 (piece "b"%string false) log)
  = mergeIntoLastAgentTurn 9
      (bothUpdates (piece "b"%string false) (piece "c"%string true)) log.
Proof.
  cbv zeta.
  apply (mergeIntoLastAgentTurn_twice_is_once 8 9 9).
  left. reflexivity.
Defined.

(** ** The transcription handlers *)

Import StreamingConsole.

Lemma lastTurn_snoc init last awaiting :
  lastTurn {| turns := init ++ [last]; isAwaitingFunctionResponse := awaiting |}
  = Some last.
Proof. unfold lastTurn. cbn [turns]. apply nth_error_snoc. Qed.

(** [last] with its [isFinal] set. *)
Lemma overridden_isFinal last final :
  overridden last
    {| upd_timestamp := None; upd_role := None; upd_text := None;
       upd_isFinal := Some final;
       upd_toolUseRequest := None; upd_toolUseResponse := None;
       upd_groundingChunks := None; upd_toolResponse := None |}
  = mkTurn (timestamp last) (role last) (text last) final
      (toolUseRequest last) (toolUseResponse last)
      (groundingChunks last) (toolResponse last).
Proof. reflexivity. Qed.

(** A piece of transcription extends the user turn that ends the log when
    that turn is not final. *)
Lemma input_extends_open_turn now piece final init last awaiting :
  role last = user -> isFinal last = false ->
  handleInputTranscription now piece final
    {| turns := init ++ [last]; isAwaitingFunctionResponse := awaiting |}
  = {| turns :=
         init ++ [mkTurn (timestamp last) user (text last ++ piece)%string final
                    (toolUseRequest last) (toolUseResponse last)
                    (groundingChunks last) (toolResponse last)];
       isAwaitingFunctionResponse := awaiting |}.
Proof.
  intros Hrole Hfinal. unfold handleInputTranscription.
  rewrite lastTurn_snoc, Hrole, Hfinal. cbn [Role_eqb negb andb].
  rewrite updateLastTurn_snoc. unfold overridden. cbn [spread upd_timestamp upd_role
    upd_text upd_isFinal upd_toolUseRequest upd_toolUseResponse upd_groundingChunks
    upd_toolResponse]. rewrite Hrole. reflexivity.
Qed.

(** A piece of transcription opens a user turn when the log is empty or
    ends with a turn that is final or not the user's. *)
Lemma input_opens_a_turn now piece final state :
  (forall last, lastTurn state = Some last -> role last = user -> isFinal last = true) ->
  handleInputTranscription now piece final state
  = addTurn now (plainTurn user piece final) state.
Proof.
  intros Hclosed. unfold handleInputTranscription.
  destruct (lastTurn state) as [last | ] eqn:Hlast; [ | reflexivity].
  destruct (Role_eqb (role last) user) eqn:Hrole; [ | reflexivity].
  apply Role_eqb_eq in Hrole. rewrite (Hclosed last eq_refl Hrole). reflexivity.
Qed.

Lemma pieces_extend_open_turn (pieces : list (Date * string)) :
  forall init last awaiting,
    role last = user -> isFinal last = false ->
    fold_left (fun s p => handleInputTranscription (fst p) (snd p) false s) pieces
      {| turns := init ++ [last]; isAwaitingFunctionResponse := awaiting |}
    = {| turns :=
           init ++ [mkTurn (timestamp last) user
                      (text last ++ fold_right String.append EmptyString (map snd pieces))%string false
                      (toolUseRequest last) (toolUseResponse last)
                      (groundingChunks last) (toolResponse last)];
         isAwaitingFunctionResponse := awaiting |}.
Proof.
  induction pieces as [ | [now piece] pieces IH]; intros init last awaiting Hrole Hfinal.
  - cbn [fold_left map fold_right].
    assert (Hnil : forall a : string, (a ++ EmptyString)%string = a).
    { intros a. induction a as [ | ch a IHa]; cbn; [reflexivity | rewrite IHa; reflexivity]. }
    rewrite Hnil. destruct last. cbn in *. subst. reflexivity.
  - cbn [fold_left fst snd map fold_right].
    rewrite input_extends_open_turn by assumption.
    rewrite IH by reflexivity.
    cbn [timestamp text toolUseRequest toolUseResponse groundingChunks toolResponse].
    rewrite append_assoc. reflexivity.
Qed.

(** Streamed transcription assembles into one turn.  Starting from a log
    that is empty or ends with a turn that is final or not the user's, a
    first piece, any number of further non-final pieces and a final piece
    leave exactly one more turn in the log: a final user turn, carrying the
    date of the first piece and the pieces' texts in order. *)
Theorem input_transcription_pieces_make_one_turn :
  forall (state : State) (now0 : Date) (piece0 : string)
         (pieces : list (Date * string)) (nowEnd : Date) (pieceEnd : string),
    (forall last, lastTurn state = Some last -> role last = user -> isFinal last = true) ->
    let opened := handleInputTranscription now0 piece0 false state in
    let streamed :=
      fold_left (fun s p => handleInputTranscription (fst p) (snd p) false s)
        pieces opened in
    turns (handleInputTranscription nowEnd pieceEnd true streamed)
    = turns state
      ++ [stamped
            (plainTurn user
               (piece0 ++ fold_right String.append EmptyString (map snd pieces) ++ pieceEnd)%string
               true)
            now0].
Proof.
  intros [ts awaiting] now0 piece0 pieces nowEnd pieceEnd Hclosed. cbv zeta.
  rewrite (input_opens_a_turn now0 piece0 false _ Hclosed).
  unfold addTurn. cbn [turns isAwaitingFunctionResponse].
  rewrite pieces_extend_open_turn by reflexivity.
  rewrite input_extends_open_turn by reflexivity.
  cbn [turns stamped plainTurn timestamp text toolUseRequest toolUseResponse
       groundingChunks toolResponse new_role new_text new_isFinal
       new_toolUseRequest new_toolUseResponse new_groundingChunks new_toolResponse].
  rewrite append_assoc. reflexivity.
Qed.

Lemma input_transcription_pieces_make_one_turn_witness :
  turns (handleInputTranscription 30 " Paris"%string true
           (fold_left (fun s p => handleInputTranscription (fst p) (snd p) false s)
              [(20, " me"%string)]
              (handleInputTranscription 10 "show"%string false initial)))
  = [stamped (plainTurn user "show me Paris" true) 10].
Proof.
  apply (input_transcription_pieces_make_one_turn initial 10 "show"%string [(20, " me"%string)]
           30 " Paris"%string).
  intros last Hlast. discriminate Hlast.
Defined.

(** [handleTurnComplete] makes the last turn final and touches nothing
    else: an empty log stays as it is, and on a log that ends with a turn
    the store it leaves is the store it found with [isFinal] set on that
    turn, every other property of the turn, every earlier turn and
    [isAwaitingFunctionResponse] being kept.  Doing it twice is doing it
    once; and the next piece of input transcription then opens a new turn
    instead of extending the completed one. *)
Theorem handleTurnComplete_closes_the_last_turn :
  forall (state : State),
    let closed := handleTurnComplete state in
    handleTurnComplete closed = closed
    /\ isAwaitingFunctionResponse closed = isAwaitingFunctionResponse state
    /\ List.length (turns closed) = List.length (turns state)
    /\ (turns state = [] -> closed = state)
    /\ (forall init last,
          turns state = init ++ [last] ->
          closed
          = {| turns :=
                 init ++ [mkTurn (timestamp last) (role last) (text last) true
                            (toolUseRequest last) (toolUseResponse last)
                            (groundingChunks last) (toolResponse last)];
               isAwaitingFunctionResponse := isAwaitingFunctionResponse state |})
    /\ (forall now piece final,
          handleInputTranscription now piece final closed
          = addTurn now (plainTurn user piece final) closed).
Proof.
  intros [ts awaiting]. cbv zeta.
  destruct (nil_or_snoc ts) as [-> | [init [last ->]]].
  - repeat split; try reflexivity.
    intros init last Hnil. cbn [turns] in Hnil. destruct init; discriminate Hnil.
  - assert (Hclosed :
      handleTurnComplete
        {| turns := init ++ [last]; isAwaitingFunctionResponse := awaiting |}
      = {| turns := init ++ [mkTurn (timestamp last) (role last) (text last) true
                               (toolUseRequest last) (toolUseResponse last)
                               (groundingChunks last) (toolResponse last)];
           isAwaitingFunctionResponse := awaiting |}).
    { unfold handleTurnComplete. rewrite lastTurn_snoc.
      destruct (isFinal last) eqn:Hfinal; cbn [negb].
      - destruct last. cbn in Hfinal. subst. reflexivity.
      - rewrite updateLastTurn_snoc, overridden_isFinal. reflexivity. }
    rewrite Hclosed. cbn [turns isAwaitingFunctionResponse].
    split; [ | split; [ | split; [ | split; [ | split]]]].
    + unfold handleTurnComplete. rewrite lastTurn_snoc. reflexivity.
    + reflexivity.
    + rewrite !length_app. reflexivity.
    + intros Hnil. destruct init; discriminate Hnil.
    + intros init' last' Heq. apply app_inj_tail in Heq. destruct Heq as [-> ->].
      reflexivity.
    + intros now piece final.
      apply input_opens_a_turn.
      intros l Hl _. rewrite lastTurn_snoc in Hl. injection Hl as <-. reflexivity.
Qed.

Lemma handleTurnComplete_closes_the_last_turn_witness :
  handleTurnComplete
    {| turns := [stamped (plainTurn user "show me Paris" false) 10];
       isAwaitingFunctionResponse := true |}
  = {| turns := [] ++ [stamped (plainTurn user "show me Paris" true) 10];
       isAwaitingFunctionResponse := true |}.
Proof.
  destruct (handleTurnComplete_closes_the_last_turn
              {| turns := [stamped (plainTurn user "show me Paris" false) 10];
                 isAwaitingFunctionResponse := true |})
    as [_ [_ [_ [_ [Hlast _]]]]].
  apply (Hlast [] (stamped (plainTurn user "show me Paris" false) 10)). reflexivity.
Defined.

(** ** The agent's transcription *)

Lemma lastIndexOf_Some r (roles : list Role) i :
  lastIndexOf r roles = Some i -> In r roles.
Proof.
  intros Hi. destruct (in_dec Role_eq_dec r roles) as [Hin | Hnin]; [exact Hin | ].
  apply lastIndexOf_None in Hnin. congruence.
Qed.

(** The turns that are not the agent's. *)
Lemma others_app (l l' : list ConversationTurn) :
  filter (fun t => negb (Role_eqb (role t) agent)) (l ++ l')
  = filter (fun t => negb (Role_eqb (role t) agent)) l
    ++ filter (fun t => negb (Role_eqb (role t) agent)) l'.
Proof. apply filter_app. Qed.

Lemma skipn_middle {A : Type} (before : list A) (x : A) (after : list A) :
  skipn (List.length before + 1) (before ++ x :: after) = after.
Proof.
  induction before as [ | y before IH]; [reflexivity | ].
  cbn [List.length Nat.add app skipn]. exact IH.
Qed.

(** A piece of the agent's transcription never touches what the user or a
    tool put in the log: the turns of the other roles stay as they are, in
    order, whatever the log and the held values; the log keeps its length
    or grows by one turn, and [isAwaitingFunctionResponse] stays. *)
Theorem handleOutputTranscription_keeps_the_other_turns :
  forall (now : Date) (heldGroundingChunks : option (list GroundingChunk))
         (heldGroundedResponse : option JsObject) (piece : string) (final : bool)
         (state : State),
    let after :=
      fst (handleOutputTranscription now heldGroundingChunks heldGroundedResponse
             piece final state) in
    filter (fun t => negb (Role_eqb (role t) agent)) (turns after)
    = filter (fun t => negb (Role_eqb (role t) agent)) (turns state)
    /\ (List.length (turns after) = List.length (turns state)
        \/ List.length (turns after) = S (List.length (turns state)))
    /\ isAwaitingFunctionResponse after = isAwaitingFunctionResponse state.
Proof.
  intros now held heldResponse piece final [ts awaiting]. cbv zeta.
  unfold handleOutputTranscription.
  destruct (match lastTurn {| turns := ts; isAwaitingFunctionResponse := awaiting |} with
            | Some last =>
                if Role_eqb (role last) agent && negb (isFinal last)
                then Some last else None
            | None => None
            end) as [last | ] eqn:Hextends.
  - destruct (nil_or_snoc ts) as [-> | [init [last' ->]]]; [discriminate Hextends | ].
    rewrite lastTurn_snoc in Hextends.
    destruct (Role_eqb (role last') agent) eqn:Hrole; [ | discriminate Hextends].
    destruct (negb (isFinal last')); [ | discriminate Hextends].
    cbn [andb] in Hextends. injection Hextends as <-.
    cbn [fst]. rewrite updateLastTurn_snoc.
    cbn [turns isAwaitingFunctionResponse].
    rewrite !others_app, !length_app. cbn [filter List.length overridden role spread
      upd_role]. rewrite Hrole.
    split; [reflexivity | split; [left; reflexivity | reflexivity]].
  - cbn [fst turns].
    destruct (lastIndexOf agent (map role ts)) as [index | ] eqn:Hindex.
    + apply lastIndexOf_Some in Hindex.
      destruct (last_agent_turn ts Hindex) as [before [a [rest [-> [Ha Hrest]]]]].
      match goal with
      | |- context [if ?c then _ else _] => destruct c
      end.
      * rewrite merge_at_last_agent by assumption.
        cbn [turns isAwaitingFunctionResponse].
        rewrite !others_app, !length_app.
        cbn [filter List.length mergedTurn role]. rewrite Ha. cbn [Role_eqb negb].
        split; [reflexivity | split; [left; reflexivity | reflexivity]].
      * unfold addTurn. cbn [turns isAwaitingFunctionResponse].
        rewrite others_app, length_app. cbn [filter List.length stamped asAgentTurn
          role new_role Role_eqb negb].
        rewrite app_nil_r.
        split; [reflexivity | split; [right; lia | reflexivity]].
    + unfold addTurn. cbn [turns isAwaitingFunctionResponse].
      rewrite others_app, length_app. cbn [filter List.length stamped asAgentTurn
        role new_role Role_eqb negb].
      rewrite app_nil_r.
      split; [reflexivity | split; [right; lia | reflexivity]].
Qed.

(** After the messages of a tool, the agent goes on in its own turn.  When
    the last agent turn of the log is followed by system turns only, and by
    at least one, a piece of the agent's transcription does not open a new
    turn: its text is appended to that agent turn, which takes the [isFinal]
    of the piece and the held grounding chunks and response; the system
    turns stay behind it, and each held value is cleared when there is
    one. *)
Theorem output_after_system_turns_joins_the_agent_turn :
  forall (now : Date) (heldGroundingChunks : option (list GroundingChunk))
         (heldGroundedResponse : option JsObject) (piece : string) (final : bool)
         (before : list ConversationTurn) (a : ConversationTurn)
         (messages : list ConversationTurn) (awaiting : bool),
    role a = agent ->
    messages <> [] ->
    (forall t, In t messages -> role t = system) ->
    handleOutputTranscription now heldGroundingChunks heldGroundedResponse piece final
      {| turns := before ++ a :: messages; isAwaitingFunctionResponse := awaiting |}
    = ({| turns :=
            before
            ++ {| timestamp := timestamp a;
                  role := agent;
                  text := (text a ++ piece)%string;
                  isFinal := final;
                  toolUseRequest := toolUseRequest a;
                  toolUseResponse := toolUseResponse a;
                  groundingChunks :=
                    Some (orEmpty (groundingChunks a) ++ orEmpty heldGroundingChunks);
                  toolResponse :=
                    match heldGroundedResponse with
                    | Some response => Some response
                    | None => toolResponse a
                    end |}
            :: messages;
          isAwaitingFunctionResponse := awaiting |},
       (match heldGroundingChunks with Some _ => true | None => false end,
        match heldGroundedResponse with Some _ => true | None => false end)).
Proof.
  intros now held heldResponse piece final before a messages awaiting
    Ha Hsome Hsystem.
  assert (Hnone : ~ In agent (map role messages)).
  { intros Hin. apply in_map_iff in Hin. destruct Hin as [t [Hrole Ht]].
    rewrite (Hsystem t Ht) in Hrole. discriminate Hrole. }
  unfold handleOutputTranscription. cbn [turns].
  destruct (nil_or_snoc messages) as [-> | [init [last Hlast]]]; [contradiction | ].
  assert (Hend : lastTurn {| turns := before ++ a :: messages;
                             isAwaitingFunctionResponse := awaiting |}
                 = Some last).
  { rewrite Hlast.
    change (before ++ a :: init ++ [last]) with (before ++ (a :: init) ++ [last]).
    rewrite app_assoc. apply lastTurn_snoc. }
  rewrite Hend.
  assert (Hrole : role last = system).
  { apply Hsystem. rewrite Hlast. apply in_or_app. right. left. reflexivity. }
  rewrite Hrole. cbn [Role_eqb andb].
  rewrite map_app. cbn [map]. rewrite Ha, lastIndexOf_last by exact Hnone.
  rewrite length_map.
  assert (Hskip : skipn (List.length before + 1) (before ++ a :: messages) = messages)
    by apply skipn_middle.
  rewrite Hskip.
  assert (Hlen : Nat.ltb 0 (List.length messages) = true).
  { apply Nat.ltb_lt. destruct messages; [contradiction | cbn; lia]. }
  assert (Hall : forallb (fun t => Role_eqb (role t) system) messages = true).
  { apply forallb_forall. intros t Ht. rewrite (Hsystem t Ht). reflexivity. }
  rewrite Hlen, Hall. cbn [andb].
  rewrite merge_at_last_agent by assumption.
  unfold mergedTurn, orElse. rewrite Ha. reflexivity.
Qed.

Lemma output_after_system_turns_joins_the_agent_turn_witness :
  fst (handleOutputTranscription 30 None None " Done."%string true
         {| turns := [stamped (plainTurn agent "Framing." true) 10;
                      stamped (plainTurn system "Could not find a location." true) 20];
            isAwaitingFunctionResponse := false |})
  = {| turns := [ {| timestamp := 10; role := agent; text := "Framing. Done.";
                     isFinal := true;
                     toolUseRequest := None; toolUseResponse := None;
                     groundingChunks := Some []; toolResponse := None |};
                  stamped (plainTurn system "Could not find a location." true) 20 ];
       isAwaitingFunctionResponse := false |}.
Proof.
  pose proof (output_after_system_turns_joins_the_agent_turn 30 None None
                " Done."%string true []
                (stamped (plainTurn agent "Framing." true) 10)
                [stamped (plainTurn system "Could not find a location." true) 20] false
                eq_refl) as Hrun.
  cbn [app] in Hrun. rewrite Hrun.
  - reflexivity.
  - discriminate.
  - intros t [<- | []]. reflexivity.
Defined.

End LogStoreProperties.

(** * The tools (lib/tools/tool-registry.ts) *)

Section ToolProperties.

Import ToolRegistry.
Local Open Scope nat_scope.

Lemma andThen_pure {A B} (a : A) (k : A -> Tool B) (w : World) :
  andThen (pure a) k w = k a w.
Proof.
  unfold andThen, pure, ret.
  destruct (k a w) as [[r t] w']. reflexivity.
Qed.

Lemma andThen_onMapStore {B} f (k : unit -> Tool B) (w : World) :
  andThen (onMapStore f) k w
  = k tt {| logStore := logStore w; mapStore := f (mapStore w);
            clock := clock w; clockReads := clockReads w |}.
Proof.
  unfold andThen, onMapStore, ret.
  destruct (k tt _) as [[r t] w']. reflexivity.
Qed.

Lemma andThen_addTurn {B} turn (k : unit -> Tool B) (w : World) :
  andThen (addTurn turn) k w
  = k tt {| logStore := LogStore.addTurn (clock w (clockReads w)) turn (logStore w);
            mapStore := mapStore w;
            clock := clock w; clockReads := S (clockReads w) |}.
Proof.
  unfold andThen, addTurn, ret.
  destruct (k tt _) as [[r t] w']. reflexivity.
Qed.

Lemma andThen_assoc {A B C} (m : Tool A) (k : A -> Tool B) (h : B -> Tool C)
    (w : World) :
  andThen (andThen m k) h w = andThen m (fun x => andThen (k x) h) w.
Proof.
  unfold andThen.
  destruct (m w) as [[[a | e] t] w1]; [ | reflexivity].
  destruct (k a w1) as [[[b | e] t1] w2]; [ | reflexivity].
  destruct (h b w2) as [[r t2] w3]. rewrite app_assoc. reflexivity.
Qed.

Lemma andThen_emit {B} ev (k : unit -> Tool B) (w : World) :
  andThen (await (emit ev)) k w
  = ((completion (fst (k tt w)), ev :: trace (fst (k tt w))), snd (k tt w)).
Proof.
  unfold andThen, await, emit.
  destruct (k tt w) as [[r t] w1]. reflexivity.
Qed.

Lemma forEachGeocoded_run (g : Geocoder) (addresses : list string) :
  forall (acc : list LabelledLocation) (w : World),
  exists added errors,
    forEachGeocoded g addresses acc w
    = ((Returned (acc ++ geocoded g addresses), errors),
       {| logStore :=
            {| LogStore.turns := LogStore.turns (logStore w) ++ added;
               LogStore.isAwaitingFunctionResponse :=
                 LogStore.isAwaitingFunctionResponse (logStore w) |};
          mapStore := mapStore w;
          clock := clock w;
          clockReads := clockReads w + List.length added |})
    /\ List.length added = List.length (notGeocoded g addresses)
    /\ systemTurns added
    /\ elevationRequests errors = []
    /\ cameraFlights errors = [].
Proof.
  induction addresses as [ | address rest IH]; intros acc [[ts awaiting] ms ck reads].
  - exists [], []. cbn. rewrite !app_nil_r, Nat.add_0_r.
    repeat split; constructor.
  - cbn [forEachGeocoded geocoded notGeocoded flat_map filter].
    unfold collectGeocoded.
    destruct (g address) as [reason | [[ | result results] | ]];
      rewrite ?andThen_assoc, ?andThen_emit, ?andThen_assoc, ?andThen_addTurn,
        ?andThen_pure;
      cbn [logStore mapStore clock clockReads LogStore.addTurn LogStore.turns
           LogStore.isAwaitingFunctionResponse];
      match goal with
      | |- context [forEachGeocoded g rest ?acc1 ?w1] =>
          destruct (IH acc1 w1) as [added [errors [Hrun [Hlen [Hsys [Hreq Hfly]]]]]];
          rewrite Hrun
      end;
      cbn [logStore mapStore clock clockReads LogStore.addTurn LogStore.turns
           LogStore.isAwaitingFunctionResponse completion trace fst snd].
    + eexists (_ :: added), (_ :: errors).
      rewrite <- app_assoc. cbn [app List.length].
      rewrite Nat.add_succ_r. cbn [Nat.add].
      split; [reflexivity | ].
      split; [rewrite Hlen; reflexivity | ].
      split; [constructor; [split; reflexivity | exact Hsys] | ].
      split; [exact Hreq | exact Hfly].
    + eexists (_ :: added), errors.
      rewrite <- app_assoc. cbn [app List.length].
      rewrite Nat.add_succ_r. cbn [Nat.add].
      split; [reflexivity | ].
      split; [rewrite Hlen; reflexivity | ].
      split; [constructor; [split; reflexivity | exact Hsys] | ].
      split; [exact Hreq | exact Hfly].
    + exists added, errors. rewrite <- app_assoc. cbn [app].
      repeat split; assumption.
    + eexists (_ :: added), errors.
      rewrite <- app_assoc. cbn [app List.length].
      rewrite Nat.add_succ_r. cbn [Nat.add].
      split; [reflexivity | ].
      split; [rewrite Hlen; reflexivity | ].
      split; [constructor; [split; reflexivity | exact Hsys] | ].
      split; [exact Hreq | exact Hfly].
Qed.

Lemma withTurns_nil (w : World) : withTurns w [] = w.
Proof.
  destruct w as [[ts awaiting] ms ck reads]. unfold withTurns. cbn.
  rewrite app_nil_r, Nat.add_0_r. reflexivity.
Qed.

(** [frameLocations] first collects the explicit locations and the geocoded
    addresses, adding a system turn for each address it cannot geocode, and
    then frames what it has collected. *)
Lemma frameLocations_collects args context g (w : World) :
  addressesOf args = [] \/ geocoder context = Some g ->
  exists added errors,
    frameLocations args context w
    = (let run :=
         frameCollected (markers args) context
           (explicitLocations args ++ geocoded g (addressesOf args))
           (withTurns w added) in
       ((outcome run, errors ++ calls run), worldAfter run))
    /\ List.length added = List.length (notGeocoded g (addressesOf args))
    /\ systemTurns added
    /\ elevationRequests errors = []
    /\ cameraFlights errors = [].
Proof.
  intros Hgeo. unfold frameLocations, addressesOf in *.
  destruct (geocode args) as [[ | address rest] | ] eqn:Haddr.
  - exists [], []. cbn [geocoded flat_map]. rewrite app_nil_r, withTurns_nil.
    cbv zeta. unfold outcome, calls, worldAfter, completion, trace.
    destruct (frameCollected _ _ _ w) as [[r t] w1].
    repeat split; constructor.
  - destruct Hgeo as [Hnil | Hg]; [discriminate | ]. rewrite Hg.
    destruct (forEachGeocoded_run g (address :: rest) (explicitLocations args) w)
      as [added [errors [Hrun [Hlen [Hsys [Hreq Hfly]]]]]].
    exists added, errors. unfold andThen. rewrite Hrun. cbv zeta.
    unfold outcome, calls, worldAfter, completion, trace, withTurns.
    destruct (frameCollected _ _ _ _) as [[r t] w1].
    repeat split; assumption.
  - exists [], []. cbn [geocoded flat_map]. rewrite app_nil_r, withTurns_nil.
    cbv zeta. unfold outcome, calls, worldAfter, completion, trace.
    destruct (frameCollected _ _ _ w) as [[r t] w1].
    repeat split; constructor.
Qed.

Lemma length_mapWithIndex {A B} (f : A -> nat -> B) (l : list A) :
  forall from, List.length (mapWithIndex f from l) = List.length l.
Proof.
  induction l as [ | x l IH]; intros from; cbn; [reflexivity | rewrite IH; reflexivity].
Qed.

Lemma nth_error_mapWithIndex {A B} (f : A -> nat -> B) (l : list A) :
  forall from i x,
    nth_error l i = Some x ->
    nth_error (mapWithIndex f from l) i = Some (f x (from + i)).
Proof.
  induction l as [ | y l IH]; intros from i x Hx.
  - destruct i; discriminate Hx.
  - destruct i as [ | i]; cbn in *.
    + injection Hx as <-. rewrite Nat.add_0_r. reflexivity.
    + rewrite (IH (S from) i x Hx). f_equal. f_equal. lia.
Qed.

Lemma frameCollected_markers context found (w : World) :
  found <> [] ->
  frameCollected true context found w
  = ((Returned [Str ("Framed and added markers for "
                     ++ decimal (List.length found) ++ " locations.")%string],
      []),
     withMapStore w
       {| MapStore.markers := mapWithIndex markerOf 0 found;
          MapStore.cameraTarget := MapStore.cameraTarget (mapStore w);
          MapStore.preventAutoFrame := false |}).
Proof.
  intros Hne. unfold frameCollected.
  destruct found as [ | loc0 rest]; [congruence | ].
  cbn [List.length Nat.eqb].
  rewrite andThen_onMapStore, andThen_onMapStore, length_mapWithIndex.
  reflexivity.
Qed.

Lemma frameCollected_camera context elevator loc0 rest (w : World) :
  elevationLib context = Some elevator ->
  exists view,
    completion (lookAtWithPadding (map asLocation (loc0 :: rest)) elevator 0%R
                  (padding context))
    = Returned view
    /\ frameCollected false context (loc0 :: rest) w
       = ((Returned [Str ("Framed " ++ decimal (List.length (loc0 :: rest))
                          ++ " locations on the map.")%string],
           trace (lookAtWithPadding (map asLocation (loc0 :: rest)) elevator 0%R
                    (padding context))),
          withMapStore w
            {| MapStore.markers := [];
               MapStore.cameraTarget :=
                 Some {| MapController.center :=
                           (CameraParams.lat view, CameraParams.lng view,
                            CameraParams.altitude view);
                         MapController.range := (CameraParams.range view + 1000)%R;
                         MapController.heading := 0%R;
                         MapController.tilt := 60%R;
                         MapController.roll := 0%R |};
               MapStore.preventAutoFrame := MapStore.preventAutoFrame (mapStore w) |}).
Proof.
  intros Helev. eexists. split; [apply lookAtWithPadding_completion | ].
  unfold frameCollected. cbn [List.length Nat.eqb]. rewrite Helev.
  rewrite andThen_onMapStore.
  unfold andThen at 1. unfold await at 1.
  pose proof (lookAtWithPadding_completion (asLocation loc0) (map asLocation rest)
                elevator 0%R (padding context)) as Hview.
  cbn [map].
  destruct (lookAtWithPadding (asLocation loc0 :: map asLocation rest) elevator 0%R
              (padding context)) as [r t] eqn:Hrun.
  unfold completion in Hview. cbn [fst] in Hview. subst r.
  rewrite andThen_onMapStore. unfold pure, ret, withMapStore, trace.
  cbn [logStore mapStore clock clockReads MapStore.clearMarkers MapStore.setCameraTarget
       MapStore.markers MapStore.cameraTarget MapStore.preventAutoFrame
       CameraParams.lat CameraParams.lng CameraParams.altitude CameraParams.range
       CameraParams.heading CameraParams.tilt snd].
  rewrite app_nil_r. reflexivity.
Qed.

(** *** frameLocations *)

(** With [markers] set, [frameLocations] puts one marker in the map store
    for every location it collected (the explicit ones, then the geocoded
    addresses), in that order: at altitude 1, with its label shown, the
    label being the address of a geocoded location and "Location i" for the
    i-th location when it has none.  It allows auto-framing, leaves the
    camera target as it was, and asks for no elevation. *)
Theorem frameLocations_sets_one_marker_per_location :
  forall (args : FrameLocationsArgs) (context : ToolContext) (g : Geocoder) (w : World),
    addressesOf args = [] \/ geocoder context = Some g ->
    markers args = true ->
    let found := explicitLocations args ++ geocoded g (addressesOf args) in
    let run := frameLocations args context w in
    found <> [] ->
    outcome run
    = Returned [Str ("Framed and added markers for " ++ decimal (List.length found)
                     ++ " locations.")%string]
    /\ elevationRequests (calls run) = []
    /\ MapStore.preventAutoFrame (mapStore (worldAfter run)) = false
    /\ MapStore.cameraTarget (mapStore (worldAfter run))
       = MapStore.cameraTarget (mapStore w)
    /\ List.length (MapStore.markers (mapStore (worldAfter run))) = List.length found
    /\ (forall i loc,
          nth_error found i = Some loc ->
          nth_error (MapStore.markers (mapStore (worldAfter run))) i
          = Some {| MapStore.position := (lat loc, lng loc, 1%R);
                    MapStore.label :=
                      match label loc with
                      | Some (String c s) => String c s
                      | _ => ("Location " ++ decimal (i + 1))%string
                      end;
                    MapStore.showLabel := true |}).
Proof.
  intros args context g w Hgeo Hmarkers. cbv zeta. intros Hne.
  destruct (frameLocations_collects args context g w Hgeo)
    as [added [errors [Hrun [_ [_ [Hreq _]]]]]].
  rewrite Hrun, Hmarkers. cbv zeta.
  rewrite frameCollected_markers by exact Hne.
  unfold outcome, calls, worldAfter, completion, trace, withMapStore.
  cbn [fst snd mapStore MapStore.markers MapStore.cameraTarget
       MapStore.preventAutoFrame withTurns].
  rewrite app_nil_r, length_mapWithIndex.
  repeat split; try reflexivity; try assumption.
  intros i loc Hloc.
  rewrite (nth_error_mapWithIndex _ _ 0 i loc Hloc).
  unfold markerOf, labelOr. cbn [Nat.add].
  destruct (label loc) as [[ | c s] | ]; reflexivity.
Qed.

Lemma frameLocations_sets_one_marker_per_location_witness :
  let args := {| locations := Some [(48%R, 2%R)];
                 geocode := Some ["Louvre"%string];
                 markers := true |} in
  let g := fun _ : string => GeocodeResolves (Some [{| location := (48.86%R, 2.33%R) |}]) in
  let context := {| elevationLib := None; geocoder := Some g;
                    padding := (0%R, 0%R, 0%R, 0%R) |} in
  let w := {| logStore := LogStore.initial; mapStore := MapStore.initial;
              clock := fun n => n; clockReads := 0 |} in
  MapStore.markers (mapStore (worldAfter (frameLocations args context w)))
  = [ {| MapStore.position := (48%R, 2%R, 1%R);
         MapStore.label := "Location 1"; MapStore.showLabel := true |};
      {| MapStore.position := (48.86%R, 2.33%R, 1%R);
         MapStore.label := "Louvre"; MapStore.showLabel := true |} ].
Proof.
  cbv zeta.
  set (args := {| locations := Some [(48%R, 2%R)];
                  geocode := Some ["Louvre"%string]; markers := true |}).
  set (g := fun _ : string => GeocodeResolves (Some [{| location := (48.86%R, 2.33%R) |}])).
  set (context := {| elevationLib := None; geocoder := Some g;
                     padding := (0%R, 0%R, 0%R, 0%R) |}).
  set (w := {| logStore := LogStore.initial; mapStore := MapStore.initial;
               clock := fun n => n; clockReads := 0 |}).
  destruct (frameLocations_sets_one_marker_per_location args context g w)
    as [_ [_ [_ [_ [Hlen Hnth]]]]].
  - right. reflexivity.
  - reflexivity.
  - discriminate.
  - remember (MapStore.markers (mapStore (worldAfter (frameLocations args context w))))
      as ms eqn:Hms.
    clear Hms.
    pose proof (Hnth 0 {| lat := 48%R; lng := 2%R; label := None |} eq_refl) as H0.
    pose proof (Hnth 1 {| lat := 48.86%R; lng := 2.33%R; label := Some "Louvre"%string |}
                  eq_refl) as H1.
    change (List.length (explicitLocations args ++ geocoded g (addressesOf args)))
      with 2 in Hlen.
    destruct ms as [ | m0 [ | m1 [ | m2 ms]]]; try discriminate Hlen.
    cbn [nth_error] in H0, H1. injection H0 as ->. injection H1 as ->. reflexivity.
Defined.

(** Without [markers], with an elevation library and at least one collected
    location, [frameLocations] clears the markers and sets the camera target
    to the pose [lookAtWithPadding] returns for the collected locations,
    heading 0 and the padding of the context, 1000 metres further away and
    with roll 0.  It asks the elevation service once, for the first
    collected location, and starts no camera animation itself. *)
Theorem frameLocations_sets_the_camera_target :
  forall (args : FrameLocationsArgs) (context : ToolContext) (g : Geocoder)
         (elevator : ElevationService) (w : World)
         (loc0 : LabelledLocation) (rest : list LabelledLocation),
    addressesOf args = [] \/ geocoder context = Some g ->
    markers args = false ->
    elevationLib context = Some elevator ->
    explicitLocations args ++ geocoded g (addressesOf args) = loc0 :: rest ->
    let run := frameLocations args context w in
    exists view,
      completion (lookAtWithPadding (map asLocation (loc0 :: rest)) elevator 0%R
                    (padding context))
      = Returned view
      /\ outcome run
         = Returned [Str ("Framed " ++ decimal (List.length (loc0 :: rest))
                          ++ " locations on the map.")%string]
      /\ mapStore (worldAfter run)
         = {| MapStore.markers := [];
              MapStore.cameraTarget :=
                Some {| MapController.center :=
                          (CameraParams.lat view, CameraParams.lng view,
                           CameraParams.altitude view);
                        MapController.range := (CameraParams.range view + 1000)%R;
                        MapController.heading := 0%R;
                        MapController.tilt := 60%R;
                        MapController.roll := 0%R |};
              MapStore.preventAutoFrame := MapStore.preventAutoFrame (mapStore w) |}
      /\ elevationRequests (calls run) = [requestFor (asLocation loc0)]
      /\ cameraFlights (calls run) = [].
Proof.
  intros args context g elevator w loc0 rest Hgeo Hmarkers Helev Hfound. cbv zeta.
  destruct (frameLocations_collects args context g w Hgeo)
    as [added [errors [Hrun [_ [_ [Hreq Hfly]]]]]].
  rewrite Hrun, Hmarkers, Hfound. cbv zeta.
  destruct (frameCollected_camera context elevator loc0 rest (withTurns w added) Helev)
    as [view [Hview Hframe]].
  exists view. split; [exact Hview | ].
  rewrite Hframe.
  unfold outcome, calls, worldAfter, completion, trace, withMapStore.
  cbn [fst snd mapStore withTurns].
  rewrite elevationRequests_app, cameraFlights_app, Hreq, Hfly.
  cbn [map app].
  change (snd (lookAtWithPadding (asLocation loc0 :: map asLocation rest) elevator 0%R
                 (padding context)))
    with (trace (lookAtWithPadding (asLocation loc0 :: map asLocation rest) elevator 0%R
                   (padding context))).
  rewrite lookAtWithPadding_trace, fetchElevation_requests, fetchElevation_no_flight.
  repeat split; reflexivity.
Qed.

Lemma frameLocations_sets_the_camera_target_witness :
  let args := {| locations := Some [(48%R, 2%R); (49%R, 3%R)];
                 geocode := None; markers := false |} in
  let context := {| elevationLib := Some (fun _ => Resolves None); geocoder := None;
                    padding := (0.05%R, 0.05%R, 0.05%R, 0.35%R) |} in
  let w := {| logStore := LogStore.initial; mapStore := MapStore.initial;
              clock := fun n => n; clockReads := 0 |} in
  elevationRequests (calls (frameLocations args context w))
  = [requestFor (Location.mk 48%R 2%R None)]
  /\ cameraFlights (calls (frameLocations args context w)) = [].
Proof.
  cbv zeta.
  destruct (frameLocations_sets_the_camera_target
              {| locations := Some [(48%R, 2%R); (49%R, 3%R)];
                 geocode := None; markers := false |}
              {| elevationLib := Some (fun _ => Resolves None); geocoder := None;
                 padding := (0.05%R, 0.05%R, 0.05%R, 0.35%R) |}
              (fun _ => GeocodeResolves None)
              (fun _ => Resolves None)
              {| logStore := LogStore.initial; mapStore := MapStore.initial;
                 clock := fun n => n; clockReads := 0 |}
              {| lat := 48%R; lng := 2%R; label := None |}
              [{| lat := 49%R; lng := 3%R; label := None |}])
    as [view [_ [_ [_ [Hreq Hfly]]]]].
  - left. reflexivity.
  - reflexivity.
  - reflexivity.
  - reflexivity.
  - split; [exact Hreq | exact Hfly].
Defined.

Lemma frameLocations_without_geocoder args context (w : World) address rest :
  geocode args = Some (address :: rest) ->
  geocoder context = None ->
  frameLocations args context w
  = ((Returned [Str "Geocoding service is not available."], []),
     withTurns w
       [LogStore.stamped (systemMessage "Geocoding service is not available.")
          (clock w (clockReads w))]).
Proof.
  intros Haddr Hg. unfold frameLocations. rewrite Haddr, Hg.
  rewrite andThen_addTurn. unfold pure, ret, withTurns.
  destruct w as [[ts awaiting] ms ck reads].
  cbn [logStore mapStore clock clockReads LogStore.addTurn LogStore.turns
       LogStore.isAwaitingFunctionResponse List.length].
  rewrite Nat.add_1_r. reflexivity.
Qed.

(** [frameLocations] gives up without touching the map store in three
    cases.  Asked to geocode without a geocoder, it says so and adds one
    system turn to the log, even when explicit locations were given.  With
    no location collected, and with locations to fly to but no elevation
    library, it only returns its message; in the latter case the markers
    are not cleared. *)
Theorem frameLocations_failures_leave_the_map_store :
  forall (args : FrameLocationsArgs) (context : ToolContext) (w : World),
    (forall address rest,
        geocode args = Some (address :: rest) ->
        geocoder context = None ->
        frameLocations args context w
        = ((Returned [Str "Geocoding service is not available."], []),
           withTurns w
             [LogStore.stamped (systemMessage "Geocoding service is not available.")
                (clock w (clockReads w))]))
    /\ (forall g,
        addressesOf args = [] \/ geocoder context = Some g ->
        explicitLocations args ++ geocoded g (addressesOf args) = [] ->
        outcome (frameLocations args context w)
        = Returned [Str "Could not find any valid locations to frame."]
        /\ mapStore (worldAfter (frameLocations args context w)) = mapStore w
        /\ elevationRequests (calls (frameLocations args context w)) = [])
    /\ (forall g,
        addressesOf args = [] \/ geocoder context = Some g ->
        explicitLocations args ++ geocoded g (addressesOf args) <> [] ->
        markers args = false ->
        elevationLib context = None ->
        outcome (frameLocations args context w)
        = Returned [Str "Elevation library is not available."]
        /\ mapStore (worldAfter (frameLocations args context w)) = mapStore w
        /\ elevationRequests (calls (frameLocations args context w)) = []).
Proof.
  intros args context w. split; [ | split].
  - intros address rest Haddr Hg.
    apply (frameLocations_without_geocoder args context w address rest Haddr Hg).
  - intros g Hgeo Hnone.
    destruct (frameLocations_collects args context g w Hgeo)
      as [added [errors [Hrun [_ [_ [Hreq _]]]]]].
    rewrite Hrun, Hnone. cbv zeta. unfold frameCollected. cbn [List.length Nat.eqb].
    unfold outcome, calls, worldAfter, completion, trace, pure, ret.
    cbn [fst snd withTurns mapStore]. rewrite app_nil_r.
    repeat split; [exact Hreq].
  - intros g Hgeo Hsome Hmarkers Helev.
    destruct (frameLocations_collects args context g w Hgeo)
      as [added [errors [Hrun [_ [_ [Hreq _]]]]]].
    rewrite Hrun, Hmarkers. cbv zeta. unfold frameCollected.
    destruct (explicitLocations args ++ geocoded g (addressesOf args))
      as [ | loc0 rest]; [congruence | ].
    cbn [List.length Nat.eqb]. rewrite Helev.
    unfold outcome, calls, worldAfter, completion, trace, pure, ret.
    cbn [fst snd withTurns mapStore]. rewrite app_nil_r.
    repeat split; [exact Hreq].
Qed.

Lemma frameLocations_failures_leave_the_map_store_witness :
  let args := {| locations := Some [(48%R, 2%R)];
                 geocode := Some ["Louvre"%string]; markers := true |} in
  let context := {| elevationLib := None; geocoder := None;
                    padding := (0%R, 0%R, 0%R, 0%R) |} in
  let w := {| logStore := LogStore.initial; mapStore := MapStore.initial;
              clock := fun n => n; clockReads := 0 |} in
  frameLocations args context w
  = ((Returned [Str "Geocoding service is not available."], []),
     withTurns w
       [LogStore.stamped (systemMessage "Geocoding service is not available.") 0]).
Proof.
  cbv zeta.
  destruct (frameLocations_failures_leave_the_map_store
              {| locations := Some [(48%R, 2%R)];
                 geocode := Some ["Louvre"%string]; markers := true |}
              {| elevationLib := None; geocoder := None;
                 padding := (0%R, 0%R, 0%R, 0%R) |}
              {| logStore := LogStore.initial; mapStore := MapStore.initial;
                 clock := fun n => n; clockReads := 0 |})
    as [Hno _].
  apply (Hno "Louvre"%string []); reflexivity.
Defined.

Lemma frameCollected_returns shouldCreateMarkers context found (w : World) :
  exists reply t store,
    frameCollected shouldCreateMarkers context found w
    = ((Returned reply, t), withMapStore w store)
    /\ cameraFlights t = []
    /\ List.length (elevationRequests t) <= 1.
Proof.
  assert (Hsame : forall w0 : World, w0 = withMapStore w0 (mapStore w0))
    by (intros [l m c r]; reflexivity).
  destruct found as [ | loc0 rest].
  - do 3 eexists. split; [unfold frameCollected; cbn; apply f_equal, Hsame | ].
    split; [reflexivity | cbn; lia].
  - destruct shouldCreateMarkers.
    + do 3 eexists. split; [apply frameCollected_markers; discriminate | ].
      split; [reflexivity | cbn; lia].
    + destruct (elevationLib context) as [elevator | ] eqn:Helev.
      * destruct (frameCollected_camera context elevator loc0 rest w Helev)
          as [view [_ Hframe]].
        do 3 eexists. split; [exact Hframe | ].
        cbn [map].
        rewrite lookAtWithPadding_trace, fetchElevation_requests,
          fetchElevation_no_flight.
        split; [reflexivity | cbn; lia].
      * do 3 eexists.
        split; [unfold frameCollected; cbn [List.length Nat.eqb]; rewrite Helev;
                apply f_equal, Hsame | ].
        split; [reflexivity | cbn; lia].
Qed.

(** [frameLocations] never throws: it calls [lookAtWithPadding] only with a
    non-empty list.  It starts no camera animation itself, asks the
    elevation service at most once, and only adds final system turns to
    the log. *)
Theorem frameLocations_never_throws :
  forall (args : FrameLocationsArgs) (context : ToolContext) (w : World),
    let run := frameLocations args context w in
    (exists reply, outcome run = Returned reply)
    /\ cameraFlights (calls run) = []
    /\ List.length (elevationRequests (calls run)) <= 1
    /\ exists added,
        LogStore.turns (logStore (worldAfter run))
        = LogStore.turns (logStore w) ++ added
        /\ systemTurns added.
Proof.
  intros args context w. cbv zeta.
  assert (Hcollected : forall g,
            addressesOf args = [] \/ geocoder context = Some g ->
            (exists reply, outcome (frameLocations args context w) = Returned reply)
            /\ cameraFlights (calls (frameLocations args context w)) = []
            /\ List.length (elevationRequests (calls (frameLocations args context w))) <= 1
            /\ exists added,
                LogStore.turns (logStore (worldAfter (frameLocations args context w)))
                = LogStore.turns (logStore w) ++ added
                /\ systemTurns added).
  { intros g Hgeo.
    destruct (frameLocations_collects args context g w Hgeo)
      as [added [errors [Hrun [_ [Hsys [Hreq Hfly]]]]]].
    rewrite Hrun. cbv zeta.
    destruct (frameCollected_returns (markers args) context
                (explicitLocations args ++ geocoded g (addressesOf args))
                (withTurns w added))
      as [reply [t [store [Hframe [Hnofly Hone]]]]].
    rewrite Hframe.
    unfold outcome, calls, worldAfter, completion, trace.
    cbn [fst snd withMapStore withTurns logStore LogStore.turns].
    rewrite cameraFlights_app, elevationRequests_app, Hreq, Hfly, Hnofly.
    cbn [app].
    split; [eexists; reflexivity | ].
    split; [reflexivity | ].
    split; [exact Hone | ].
    exists added. split; [reflexivity | exact Hsys]. }
  destruct (geocoder context) as [g | ] eqn:Hg.
  - apply (Hcollected g). right. reflexivity.
  - destruct (geocode args) as [[ | address rest] | ] eqn:Haddr.
    + apply (Hcollected (fun _ => GeocodeResolves None)).
      left. unfold addressesOf. rewrite Haddr. reflexivity.
    + rewrite (frameLocations_without_geocoder args context w address rest Haddr Hg).
      unfold outcome, calls, worldAfter, completion, trace.
      cbn [fst snd withTurns logStore LogStore.turns cameraFlights elevationRequests
           List.length].
      split; [eexists; reflexivity | ].
      split; [reflexivity | ].
      split; [lia | ].
      eexists. split; [reflexivity | ].
      constructor; [split; reflexivity | constructor].
    + apply (Hcollected (fun _ => GeocodeResolves None)).
      left. unfold addressesOf. rewrite Haddr. reflexivity.
Qed.

(** *** frameEstablishingShot *)

(** The camera target of an establishing shot. *)
Lemma setEstablishingShot_target lat lng geocode (w : World) :
  exists reply,
    setEstablishingShot (Some lat) (Some lng) geocode w
    = ((Returned reply, []),
       withMapStore w
         (MapStore.setCameraTarget
            (Some {| MapController.center := (lat, lng, 5000%R);
                     MapController.range := 15000%R;
                     MapController.heading := 0%R;
                     MapController.tilt := 10%R;
                     MapController.roll := 0%R |})
            (mapStore w)))
    /\ reply
       = match geocode with
         | Some (String c s) => [Str ("Set camera target to " ++ String c s ++ ".")%string]
         | _ => [Str "Set camera target to latitude "; Num lat;
                 Str " and longitude "; Num lng; Str "."]
         end.
Proof.
  unfold setEstablishingShot. rewrite andThen_onMapStore.
  destruct geocode as [[ | c s] | ]; cbn [truthy]; eexists;
    (split; [reflexivity | reflexivity]).
Qed.

(** A geocode that is found wins over the coordinates of the arguments:
    the camera target is set 5000 m above the first geocoding result, with
    range 15000, tilt 10, heading 0 and roll 0, whatever [lat] and [lng]
    the arguments carry; markers, auto-framing and the log stay as they
    were. *)
Theorem frameEstablishingShot_geocode_wins :
  forall (args : EstablishingShotArgs) (context : ToolContext) (w : World)
         (c : Ascii.ascii) (s : string) (g : Geocoder)
         (result : GeocoderResult) (results : list GeocoderResult),
    shot_geocode args = Some (String c s) ->
    geocoder context = Some g ->
    g (String c s) = GeocodeResolves (Some (result :: results)) ->
    frameEstablishingShot args context w
    = ((Returned [Str ("Set camera target to " ++ String c s ++ ".")%string], []),
       withMapStore w
         {| MapStore.markers := MapStore.markers (mapStore w);
            MapStore.cameraTarget :=
              Some {| MapController.center :=
                        (fst (location result), snd (location result), 5000%R);
                      MapController.range := 15000%R;
                      MapController.heading := 0%R;
                      MapController.tilt := 10%R;
                      MapController.roll := 0%R |};
            MapStore.preventAutoFrame := MapStore.preventAutoFrame (mapStore w) |}).
Proof.
  intros args context w c s g result results Hgeo Hg Hfound.
  unfold frameEstablishingShot. rewrite Hgeo. cbn [truthy]. rewrite Hg.
  unfold geocodeOne. rewrite Hfound, andThen_pure.
  destruct (location result) as [lat lng] eqn:Hloc. cbn [fst snd].
  destruct (setEstablishingShot_target lat lng (Some (String c s)) w)
    as [reply [Hrun Hreply]].
  rewrite Hrun, Hreply. reflexivity.
Qed.

Lemma frameEstablishingShot_geocode_wins_witness :
  let args := {| shot_lat := Some 10%R; shot_lng := Some 20%R;
                 shot_geocode := Some "Paris"%string |} in
  let g := fun _ : string => GeocodeResolves (Some [{| location := (48.85%R, 2.35%R) |}]) in
  let context := {| elevationLib := None; geocoder := Some g;
                    padding := (0%R, 0%R, 0%R, 0%R) |} in
  let w := {| logStore := LogStore.initial; mapStore := MapStore.initial;
              clock := fun n => n; clockReads := 0 |} in
  MapStore.cameraTarget (mapStore (worldAfter (frameEstablishingShot args context w)))
  = Some {| MapController.center := (48.85%R, 2.35%R, 5000%R);
            MapController.range := 15000%R;
            MapController.heading := 0%R;
            MapController.tilt := 10%R;
            MapController.roll := 0%R |}.
Proof.
  cbv zeta.
  rewrite (frameEstablishingShot_geocode_wins
             {| shot_lat := Some 10%R; shot_lng := Some 20%R;
                shot_geocode := Some "Paris"%string |}
             {| elevationLib := None;
                geocoder := Some (fun _ : string =>
                                    GeocodeResolves (Some [{| location := (48.85%R, 2.35%R) |}]));
                padding := (0%R, 0%R, 0%R, 0%R) |}
             {| logStore := LogStore.initial; mapStore := MapStore.initial;
                clock := fun n => n; clockReads := 0 |}
             (Ascii.ascii_of_nat 80) "aris"%string
             (fun _ : string => GeocodeResolves (Some [{| location := (48.85%R, 2.35%R) |}]))
             {| location := (48.85%R, 2.35%R) |} []
             eq_refl eq_refl eq_refl).
  reflexivity.
Defined.

(** A geocode that cannot be resolved is final: without a geocoder, when
    the lookup is rejected and when it has no result, the tool returns an
    error message, adds one final system turn to the log and leaves the map
    store as it was; the coordinates of the arguments are no fallback. *)
Theorem frameEstablishingShot_failed_geocode_is_final :
  forall (args : EstablishingShotArgs) (context : ToolContext) (w : World)
         (c : Ascii.ascii) (s : string),
    shot_geocode args = Some (String c s) ->
    geocoder context = None
    \/ (exists g,
          geocoder context = Some g
          /\ forall result results,
              g (String c s) <> GeocodeResolves (Some (result :: results))) ->
    let run := frameEstablishingShot args context w in
    (exists message, outcome run = Returned [Str message])
    /\ mapStore (worldAfter run) = mapStore w
    /\ exists turn,
        LogStore.turns (logStore (worldAfter run))
        = LogStore.turns (logStore w) ++ [turn]
        /\ LogStore.role turn = LogStore.system
        /\ LogStore.isFinal turn = true.
Proof.
  intros args context w c s Hgeo Hfail. cbv zeta.
  unfold frameEstablishingShot. rewrite Hgeo. cbn [truthy].
  destruct Hfail as [Hnone | [g [Hg Hnot]]].
  - rewrite Hnone, andThen_addTurn.
    unfold outcome, worldAfter, completion, pure, ret. cbn.
    split; [eexists; reflexivity | ].
    split; [reflexivity | ].
    eexists. repeat split; reflexivity.
  - rewrite Hg. unfold geocodeOne.
    destruct (g (String c s)) as [error | [[ | result results] | ]] eqn:Hreply.
    + rewrite andThen_assoc, andThen_emit, andThen_assoc, andThen_addTurn,
        !andThen_pure.
      unfold outcome, worldAfter, completion, pure, ret. cbn.
      split; [eexists; reflexivity | ].
      split; [reflexivity | ].
      eexists. repeat split; reflexivity.
    + rewrite andThen_assoc, andThen_addTurn, !andThen_pure.
      unfold outcome, worldAfter, completion, pure, ret. cbn.
      split; [eexists; reflexivity | ].
      split; [reflexivity | ].
      eexists. repeat split; reflexivity.
    + exfalso. exact (Hnot result results eq_refl).
    + rewrite andThen_assoc, andThen_addTurn, !andThen_pure.
      unfold outcome, worldAfter, completion, pure, ret. cbn.
      split; [eexists; reflexivity | ].
      split; [reflexivity | ].
      eexists. repeat split; reflexivity.
Qed.

Lemma frameEstablishingShot_failed_geocode_is_final_witness :
  let args := {| shot_lat := Some 10%R; shot_lng := Some 20%R;
                 shot_geocode := Some "Paris"%string |} in
  let context := {| elevationLib := None; geocoder := None;
                    padding := (0%R, 0%R, 0%R, 0%R) |} in
  let w := {| logStore := LogStore.initial; mapStore := MapStore.initial;
              clock := fun n => n; clockReads := 0 |} in
  mapStore (worldAfter (frameEstablishingShot args context w)) = mapStore w.
Proof.
  cbv zeta.
  destruct (frameEstablishingShot_failed_geocode_is_final
              {| shot_lat := Some 10%R; shot_lng := Some 20%R;
                 shot_geocode := Some "Paris"%string |}
              {| elevationLib := None; geocoder := None;
                 padding := (0%R, 0%R, 0%R, 0%R) |}
              {| logStore := LogStore.initial; mapStore := MapStore.initial;
                 clock := fun n => n; clockReads := 0 |}
              (Ascii.ascii_of_nat 80) "aris"%string eq_refl (or_introl eq_refl))
    as [_ [Hmap _]].
  exact Hmap.
Defined.

(** Without a geocode (none given, or the empty string) the tool needs both
    coordinates: given both, it sets the camera target 5000 m above them;
    with [lat] or [lng] missing or not a number it returns the message on
    invalid arguments and changes nothing, the log included. *)
Theorem frameEstablishingShot_by_coordinates :
  forall (args : EstablishingShotArgs) (context : ToolContext) (w : World),
    shot_geocode args = None \/ shot_geocode args = Some EmptyString ->
    (forall lat lng,
        shot_lat args = Some lat -> shot_lng args = Some lng ->
        frameEstablishingShot args context w
        = ((Returned [Str "Set camera target to latitude "; Num lat;
                      Str " and longitude "; Num lng; Str "."], []),
           withMapStore w
             (MapStore.setCameraTarget
                (Some {| MapController.center := (lat, lng, 5000%R);
                         MapController.range := 15000%R;
                         MapController.heading := 0%R;
                         MapController.tilt := 10%R;
                         MapController.roll := 0%R |})
                (mapStore w))))
    /\ (shot_lat args = None \/ shot_lng args = None ->
        frameEstablishingShot args context w
        = ((Returned [Str "Invalid arguments for frameEstablishingShot. You must provide either a `geocode` string or numeric `lat` and `lng` values."],
            []),
           w)).
Proof.
  intros args context w Hgeo. split.
  - intros lat lng Hlat Hlng.
    unfold frameEstablishingShot.
    destruct (setEstablishingShot_target lat lng (shot_geocode args) w)
      as [reply [Hrun Hreply]].
    destruct Hgeo as [Hnone | Hempty].
    + rewrite Hnone in *. rewrite Hlat, Hlng, Hrun, Hreply. reflexivity.
    + rewrite Hempty in *. cbn [truthy]. rewrite Hlat, Hlng, Hrun, Hreply. reflexivity.
  - intros Hmissing.
    assert (Hset : setEstablishingShot (shot_lat args) (shot_lng args)
                     (shot_geocode args) w
                   = ((Returned [Str "Invalid arguments for frameEstablishingShot. You must provide either a `geocode` string or numeric `lat` and `lng` values."],
                       []), w)).
    { unfold setEstablishingShot.
      destruct Hmissing as [-> | ->]; [reflexivity | ].
      destruct (shot_lat args); reflexivity. }
    unfold frameEstablishingShot.
    destruct Hgeo as [Hnone | Hempty].
    + rewrite Hnone in *. exact Hset.
    + rewrite Hempty in *. cbn [truthy]. exact Hset.
Qed.

Lemma frameEstablishingShot_by_coordinates_witness :
  let args := {| shot_lat := Some 48%R; shot_lng := None; shot_geocode := None |} in
  let context := {| elevationLib := None; geocoder := None;
                    padding := (0%R, 0%R, 0%R, 0%R) |} in
  let w := {| logStore := LogStore.initial; mapStore := MapStore.initial;
              clock := fun n => n; clockReads := 0 |} in
  worldAfter (frameEstablishingShot args context w) = w.
Proof.
  cbv zeta.
  destruct (frameEstablishingShot_by_coordinates
              {| shot_lat := Some 48%R; shot_lng := None; shot_geocode := None |}
              {| elevationLib := None; geocoder := None;
                 padding := (0%R, 0%R, 0%R, 0%R) |}
              {| logStore := LogStore.initial; mapStore := MapStore.initial;
                 clock := fun n => n; clockReads := 0 |}
              (or_introl eq_refl))
    as [_ Hinvalid].
  rewrite Hinvalid; [reflexivity | right; reflexivity].
Defined.

(** *** updateMapStateWithMarkers *)

(** [updateMapStateWithMarkers] always stores the markers it is given.  It
    prevents auto-framing exactly when some grounding chunk has place
    answer sources and there is a single marker; then the camera target
    becomes a close-up of that marker (200 m above it, range 500, tilt 60).
    Otherwise the camera target is left as it was, not cleared.  The log
    is not touched. *)
Theorem updateMapStateWithMarkers_prevents_auto_frame_for_one_answer :
  forall (markers : list MapStore.MapMarker) (groundingChunks : list GroundingChunk)
         (w : World),
    let run := updateMapStateWithMarkers markers groundingChunks w in
    let after := mapStore (worldAfter run) in
    outcome run = Returned tt
    /\ calls run = []
    /\ logStore (worldAfter run) = logStore w
    /\ MapStore.markers after = markers
    /\ (MapStore.preventAutoFrame after = true
        <-> (exists chunk m sources,
               In chunk groundingChunks /\ maps chunk = Some m
               /\ placeAnswerSources m = Some sources)
            /\ List.length markers = 1)
    /\ (forall marker,
          MapStore.preventAutoFrame after = true ->
          markers = [marker] ->
          MapStore.cameraTarget after
          = Some {| MapController.center :=
                      (fst (fst (MapStore.position marker)),
                       snd (fst (MapStore.position marker)), 200%R);
                    MapController.range := 500%R;
                    MapController.heading := 0%R;
                    MapController.tilt := 60%R;
                    MapController.roll := 0%R |})
    /\ (MapStore.preventAutoFrame after = false ->
        MapStore.cameraTarget after = MapStore.cameraTarget (mapStore w)).
Proof.
  intros markers groundingChunks w. cbv zeta.
  assert (Hsources : hasPlaceAnswerSources groundingChunks = true
                     <-> exists chunk m sources,
                           In chunk groundingChunks /\ maps chunk = Some m
                           /\ placeAnswerSources m = Some sources).
  { unfold hasPlaceAnswerSources. rewrite existsb_exists. split.
    - intros [chunk [Hin Htest]].
      destruct (maps chunk) as [m | ] eqn:Hm; [ | discriminate].
      destruct (placeAnswerSources m) as [sources | ] eqn:Hs; [ | discriminate].
      exists chunk, m, sources. repeat split; assumption.
    - intros [chunk [m [sources [Hin [Hm Hs]]]]].
      exists chunk. split; [exact Hin | ]. rewrite Hm, Hs. reflexivity. }
  unfold updateMapStateWithMarkers.
  destruct (hasPlaceAnswerSources groundingChunks) eqn:Hhas;
    destruct markers as [ | marker [ | marker' rest]];
    rewrite ?andThen_onMapStore;
    unfold onMapStore, outcome, calls, worldAfter, completion, trace, ret;
    cbn [fst snd logStore mapStore MapStore.setPreventAutoFrame MapStore.setMarkers
         MapStore.setCameraTarget MapStore.markers MapStore.cameraTarget
         MapStore.preventAutoFrame List.length];
    (split; [reflexivity | ]); (split; [reflexivity | ]);
    (split; [reflexivity | ]); (split; [reflexivity | ]).
  all: try (split;
              [split;
               [discriminate
               | intros [He Hl];
                 first [discriminate Hl
                       | apply (proj2 Hsources) in He; discriminate He]]
              | split; [intros m Hp; discriminate Hp | intros _; reflexivity]]).
  split; [ | split].
  - split; [intros _; split; [apply Hsources; reflexivity | reflexivity]
           | intros _; reflexivity].
  - intros m _ Heq. injection Heq as <-.
    destruct (MapStore.position marker) as [[lat lng] alt]. reflexivity.
  - intros Hp. discriminate Hp.
Qed.

Lemma updateMapStateWithMarkers_prevents_auto_frame_for_one_answer_witness :
  let marker := {| MapStore.position := (48%R, 2%R, 1%R);
                   MapStore.label := "Louvre"; MapStore.showLabel := true |} in
  let chunk := {| web := None;
                  maps := Some {| uri := None; title := Some "Louvre"%string;
                                  placeId := "places/abc";
                                  placeAnswerSources := Some "{}"%string |} |} in
  let w := {| logStore := LogStore.initial; mapStore := MapStore.initial;
              clock := fun n => n; clockReads := 0 |} in
  MapStore.cameraTarget
    (mapStore (worldAfter (updateMapStateWithMarkers [marker] [chunk] w)))
  = Some {| MapController.center := (48%R, 2%R, 200%R);
            MapController.range := 500%R;
            MapController.heading := 0%R;
            MapController.tilt := 60%R;
            MapController.roll := 0%R |}.
Proof.
  cbv zeta.
  destruct (updateMapStateWithMarkers_prevents_auto_frame_for_one_answer
              [{| MapStore.position := (48%R, 2%R, 1%R);
                  MapStore.label := "Louvre"; MapStore.showLabel := true |}]
              [{| web := None;
                  maps := Some {| uri := None; title := Some "Louvre"%string;
                                  placeId := "places/abc";
                                  placeAnswerSources := Some "{}"%string |} |}]
              {| logStore := LogStore.initial; mapStore := MapStore.initial;
                 clock := fun n => n; clockReads := 0 |})
    as [_ [_ [_ [_ [_ [Hclose _]]]]]].
  apply (Hclose _ eq_refl eq_refl).
Defined.

End ToolProperties.

(** * The markers of the map and the padding of the layout *)

(** [addMarkers] appends one element for each marker, in order, after the
    children the map already has; after [clearMap] the map therefore holds
    exactly the markers.  An element shows its label only when the marker
    asks for it, and always carries the label as its title. *)
Theorem addMarkers_after_clearMap_shows_exactly_the_markers :
  forall (markers : list MapStore.MapMarker) (children : MapElement.Children),
    MapElement.addMarkers markers children
    = children ++ map MapElement.marker3D markers
    /\ List.length (MapElement.addMarkers markers (MapElement.clearMap children))
       = List.length markers
    /\ (forall i marker,
          nth_error markers i = Some marker ->
          exists element,
            nth_error (MapElement.addMarkers markers (MapElement.clearMap children)) i
            = Some element
            /\ MapElement.position element = MapStore.position marker
            /\ MapElement.title element = MapStore.label marker
            /\ (MapElement.label element
                = if MapStore.showLabel marker then Some (MapStore.label marker)
                  else None)).
Proof.
  intros markers children.
  assert (Happend : forall ms ch,
            MapElement.addMarkers ms ch = ch ++ map MapElement.marker3D ms).
  { induction ms as [ | m ms IH]; intros ch.
    - cbn. rewrite app_nil_r. reflexivity.
    - unfold MapElement.addMarkers in *. cbn [fold_left map].
      rewrite IH, <- app_assoc. reflexivity. }
  split; [apply Happend | ].
  rewrite Happend. unfold MapElement.clearMap. cbn [app].
  split; [apply length_map | ].
  intros i marker Hi. exists (MapElement.marker3D marker).
  split; [apply map_nth_error; exact Hi | ].
  repeat split; reflexivity.
Qed.

Lemma addMarkers_after_clearMap_shows_exactly_the_markers_witness :
  let marker :=
    {| MapStore.position := (48.8584, 2.2945, 1);
       MapStore.label := "Eiffel Tower"; MapStore.showLabel := false |} in
  exists element,
    nth_error (MapElement.addMarkers [marker] (MapElement.clearMap [])) 0 = Some element
    /\ MapElement.position element = MapStore.position marker
    /\ MapElement.title element = MapStore.label marker
    /\ MapElement.label element
       = if MapStore.showLabel marker then Some (MapStore.label marker) else None.
Proof.
  cbv zeta.
  destruct (addMarkers_after_clearMap_shows_exactly_the_markers
              [{| MapStore.position := (48.8584, 2.2945, 1);
                  MapStore.label := "Eiffel Tower"; MapStore.showLabel := false |}] [])
    as [_ [_ Hshown]].
  apply (Hshown 0%nat). reflexivity.
Defined.

(** With padding equal at the top and the bottom, at least as large on the
    left as on the right, positive visible fractions, heading 0 and
    latitudes strictly between the poles, the centre keeps the latitude
    [lookAt] returns, its longitude is not east of the one [lookAt]
    returns, and the range is not below the range of [lookAt]. *)
Lemma heading_0_shift_is_west loc0 rest padTop padRight padBottom padLeft :
  padTop = padBottom -> padRight <= padLeft ->
  0 <= padTop -> 0 <= padRight ->
  0 < 1 - padLeft - padRight -> 0 < 1 - padTop - padBottom ->
  (forall p, In p (loc0 :: rest) -> -90 < lat p < 90) ->
  let padding := (padTop, padRight, padBottom, padLeft) in
  newCenterLat (loc0 :: rest) 0 padding = centerLat (loc0 :: rest)
  /\ newCenterLng (loc0 :: rest) 0 padding <= centerLng (loc0 :: rest)
  /\ slant (horizontalDistance (loc0 :: rest))
     <= slant (fullHorizontalDistance (loc0 :: rest) padding).
Proof.
  intros Hv Hh Ht Hr Hw Hhf Hlat. cbv zeta.
  pose proof (center_within_latitudes loc0 rest (-90) 90 Hlat) as Hc.
  pose proof PI_RGT_0 as HPI.
  assert (Hcos : 0 < cos (centerLat (loc0 :: rest) * degToRad)).
  { apply cos_gt_0; unfold degToRad; nra. }
  pose proof (contentHorizontalDistance_nonneg (loc0 :: rest)) as Hcontent.
  assert (Hscale : 1 <= scale (padTop, padRight, padBottom, padLeft)).
  { unfold scale, visibleWidthFraction, visibleHeightFraction.
    eapply Rle_trans; [ | apply Rmax_l].
    apply Rmult_le_reg_r with (1 - padLeft - padRight); [lra | ].
    replace (1 / (1 - padLeft - padRight) * (1 - padLeft - padRight)) with 1
      by (field; lra).
    lra. }
  unfold newCenterLat, newCenterLng, shiftLatDeg, shiftLngDeg,
    shiftNorthMeters, shiftEastMeters, shiftVectorScreenMeters,
    offsetGeoScreenX, offsetGeoScreenY, fullHorizontalDistance, offsetX, offsetY,
    horizontalDistance.
  cbn [fst snd]. rewrite Rmult_0_l, sin_0, cos_0.
  fold (contentHorizontalDistance (loc0 :: rest)).
  set (full := contentHorizontalDistance (loc0 :: rest)
               * scale (padTop, padRight, padBottom, padLeft)).
  set (den := 111000 * cos (centerLat (loc0 :: rest) * degToRad)).
  assert (Hfull : 0 <= full) by (unfold full; nra).
  assert (Hden : 0 < den) by (unfold den; nra).
  assert (Hshift :
    (- ((padLeft - padRight) / 2 * full) * 1 - (padTop - padBottom) / 2 * full * 0) / den
    = - ((padLeft - padRight) / 2 * full / den)) by (field; lra).
  rewrite Hshift.
  assert (Hq : 0 <= (padLeft - padRight) / 2 * full / den).
  { apply Rle_mult_inv_pos; [nra | exact Hden]. }
  split; [subst padTop; lra | split; [lra | ]].
  apply slant_le. unfold full. split; [lra | nra].
Qed.

(** [calculatePadding] sets a padding exactly when both the console panel
    and the control tray are there.  Whenever the panel leaves some of the
    width of the window free (its width is under 93% of a window of positive
    width), [frameEntities] with that padding flies to the latitude [lookAt]
    computes for the entities, to a longitude that is not east of the one
    [lookAt] computes, and to a range that is at least the range of [lookAt]
    plus 1000. *)
Theorem measured_padding_only_shifts_the_camera_west :
  forall (isMobile : bool) (offsetWidth vw : R) (this : MapController.t)
         (e0 : MapController.Entity) (es : list MapController.Entity),
    0 < vw -> 0 <= offsetWidth -> offsetWidth / vw < 0.93 ->
    (forall e, In e (e0 :: es) -> -90 < fst (MapController.position e) < 90) ->
    let entities := e0 :: es in
    (forall consoleEl trayEl,
        calculatePadding consoleEl trayEl isMobile vw = None
        <-> consoleEl = None \/ trayEl = false)
    /\ exists padding flight view0,
      calculatePadding (Some offsetWidth) true isMobile vw = Some padding
      /\ cameraFlights (trace (MapController.frameEntities this entities padding))
         = [flight]
      /\ completion (lookAt (map MapController.location_of entities)
                       (MapController.elevationLib this) 0)
         = Returned view0
      /\ endCamera_lat flight = CameraParams.lat view0
      /\ endCamera_lng flight <= CameraParams.lng view0
      /\ CameraParams.range view0 + 1000 <= endCamera_range flight.
Proof.
  intros isMobile offsetWidth vw this e0 es Hvw Hwidth Hfree Hlat. cbv zeta.
  split.
  { intros [w | ] [ | ]; cbn; split; intros H;
      first [discriminate H | destruct H as [H | H]; discriminate H
            | reflexivity | left; reflexivity | right; reflexivity]. }
  assert (Hpad : exists padLeft,
            calculatePadding (Some offsetWidth) true isMobile vw
            = Some (0.05, 0.05, 0.05, padLeft)
            /\ 0.05 <= padLeft < 0.95).
  { unfold calculatePadding. destruct isMobile; cbn [negb].
    - exists 0.05. split; [reflexivity | lra].
    - exists (Rmax 0.05 (offsetWidth / vw + 0.02)). split; [reflexivity | ].
      split; [apply Rmax_l | ]. apply Rmax_lub_lt; lra. }
  destruct Hpad as [padLeft [-> [Hlo Hhi]]].
  exists (0.05, 0.05, 0.05, padLeft).
  unfold MapController.frameEntities. cbn [List.length Nat.eqb map].
  rewrite trace_bind, lookAtWithPadding_completion, lookAt_completion.
  rewrite cameraFlights_app, lookAtWithPadding_trace, fetchElevation_no_flight.
  eexists. eexists.
  split; [reflexivity | split; [reflexivity | split; [reflexivity | ]]].
  cbn [endCamera_lat endCamera_lng endCamera_range CameraParams.lat CameraParams.lng
       CameraParams.range MapController.center MapController.range].
  assert (Hlocs : forall p,
            In p (MapController.location_of e0 :: map MapController.location_of es) ->
            -90 < lat p < 90).
  { intros p Hp.
    change (MapController.location_of e0 :: map MapController.location_of es)
      with (map MapController.location_of (e0 :: es)) in Hp.
    apply in_map_iff in Hp. destruct Hp as [e [<- He]]. apply Hlat, He. }
  destruct (heading_0_shift_is_west (MapController.location_of e0)
              (map MapController.location_of es)
              0.05 0.05 0.05 padLeft) as [HlatEq [HlngLe Hrange]];
    [reflexivity | lra | lra | lra | lra | lra | exact Hlocs | ].
  split; [exact HlatEq | split; [exact HlngLe | lra]].
Qed.

Lemma measured_padding_only_shifts_the_camera_west_witness :
  exists padding flight view0,
    calculatePadding (Some 480) true false 1600 = Some padding
    /\ cameraFlights
      (trace (MapController.frameEntities
                {| MapController.elevationLib := fun _ => Resolves None |}
                [{| MapController.position := (40, -74) |};
                 {| MapController.position := (41, -73) |}]
                padding))
    = [flight]
    /\ completion (lookAt (map MapController.location_of
                             [{| MapController.position := (40, -74) |};
                              {| MapController.position := (41, -73) |}])
                     (fun _ => Resolves None) 0)
       = Returned view0
    /\ endCamera_lat flight = CameraParams.lat view0
    /\ endCamera_lng flight <= CameraParams.lng view0
    /\ CameraParams.range view0 + 1000 <= endCamera_range flight.
Proof.
  assert (Hlat : forall e,
            In e [{| MapController.position := (40, -74) |};
                  {| MapController.position := (41, -73) |}] ->
            -90 < fst (MapController.position e) < 90).
  { intros e [<- | [<- | []]]; cbn; lra. }
  assert (Hvw : 0 < 1600) by lra.
  assert (Hwidth : 0 <= 480) by lra.
  assert (Hfree : 480 / 1600 < 0.93) by lra.
  exact (proj2 (measured_padding_only_shifts_the_camera_west false 480 1600
           {| MapController.elevationLib := fun _ => Resolves None |}
           {| MapController.position := (40, -74) |}
           [{| MapController.position := (41, -73) |}] Hvw Hwidth Hfree Hlat)).
Defined.

(** * From a tool to the camera (App.tsx) *)

Section EffectProperties.

Import ToolRegistry.
Local Open Scope nat_scope.

(** The markers [frameLocations] makes are framed as the locations they
    were made of. *)
Lemma entities_of_markers (found : list LabelledLocation) :
  forall from,
    map MapController.location_of
      (map App.entityOf (map MapStore.position (mapWithIndex markerOf from found)))
    = map asLocation found.
Proof.
  induction found as [ | loc found IH]; intros from; [reflexivity | ].
  cbn [mapWithIndex map]. rewrite IH. reflexivity.
Qed.

(** What [frameEntities] does on a non-empty array. *)
Lemma frameEntities_run (this : MapController.t) e0 es (padding : Padding) :
  let locs := map MapController.location_of (e0 :: es) in
  let elevator := MapController.elevationLib this in
  MapController.frameEntities this (e0 :: es) padding
  = (Returned tt,
     trace (lookAtWithPadding locs elevator 0%R padding)
     ++ [FlyCameraTo
           {| durationMillis := 5000%R;
              endCamera_lat := newCenterLat locs 0%R padding;
              endCamera_lng := newCenterLng locs 0%R padding;
              endCamera_altitude :=
                lookAtAltitude
                  (Spec.elevationOrZero elevator
                     (requestFor (MapController.location_of e0)))
                  locs;
              endCamera_range := (slant (fullHorizontalDistance locs padding) + 1000)%R;
              endCamera_heading := 0%R;
              endCamera_tilt := 60%R;
              endCamera_roll := 0%R |}]).
Proof.
  cbv zeta. unfold MapController.frameEntities. cbn [List.length Nat.eqb map].
  pose proof (lookAtWithPadding_completion (MapController.location_of e0)
                (map MapController.location_of es) (MapController.elevationLib this)
                0%R padding) as Hview.
  destruct (lookAtWithPadding (MapController.location_of e0
                               :: map MapController.location_of es)
              (MapController.elevationLib this) 0%R padding) as [view calls].
  cbn [completion fst] in Hview. subst view. reflexivity.
Qed.

(** [frameLocations] leads the camera to the same place with or without
    markers.  With markers, the body of the marker effect, run on the
    markers and the flag the tool left in the store, shows one element for
    each collected location and starts one flight; without, the body of the
    camera-target effect, run on the store the tool left, starts one
    flight; and the two flights are the same animation, provided the tool
    and the controller use the same elevation service and the effect gets
    the padding of the tool's context. *)
Theorem frameLocations_flies_the_same_with_or_without_markers :
  forall (explicit : option (list (R * R))) (addresses : option (list string))
         (context : ToolContext) (g : Geocoder) (controller : MapController.t)
         (w : World) (children : MapElement.Children)
         (loc0 : LabelledLocation) (rest : list LabelledLocation),
    let args shouldCreateMarkers :=
      {| locations := explicit; geocode := addresses;
         markers := shouldCreateMarkers |} in
    addressesOf (args true) = [] \/ geocoder context = Some g ->
    explicitLocations (args true) ++ geocoded g (addressesOf (args true))
    = loc0 :: rest ->
    elevationLib context = Some (MapController.elevationLib controller) ->
    let marked := mapStore (worldAfter (frameLocations (args true) context w)) in
    let shown :=
      App.markerEffect (Some controller) (MapStore.markers marked) (padding context)
        (MapStore.preventAutoFrame marked) children in
    let targeted := mapStore (worldAfter (frameLocations (args false) context w)) in
    let flown := App.cameraTargetEffect (Some controller) targeted in
    List.length (snd shown) = List.length (loc0 :: rest)
    /\ exists flight,
        cameraFlights (trace (fst shown)) = [flight]
        /\ cameraFlights (trace (fst flown)) = [flight].
Proof.
  intros explicit addresses context g controller w children loc0 rest.
  cbv zeta. intros Hgeo Hfound Hlib.
  destruct (frameLocations_collects
              {| locations := explicit; geocode := addresses; markers := true |}
              context g w Hgeo) as [added [errors [Hrun _]]].
  destruct (frameLocations_collects
              {| locations := explicit; geocode := addresses; markers := false |}
              context g w Hgeo) as [added' [errors' [Hrun' _]]].
  change (explicitLocations {| locations := explicit; geocode := addresses;
                               markers := false |})
    with (explicitLocations {| locations := explicit; geocode := addresses;
                               markers := true |}) in Hrun'.
  change (addressesOf {| locations := explicit; geocode := addresses;
                         markers := false |})
    with (addressesOf {| locations := explicit; geocode := addresses;
                         markers := true |}) in Hrun'.
  rewrite Hrun, Hrun'. cbv zeta. rewrite Hfound. cbn [markers].
  unfold worldAfter, outcome, calls. cbn [snd fst].
  rewrite frameCollected_markers by discriminate.
  destruct (frameCollected_camera context (MapController.elevationLib controller)
              loc0 rest (withTurns w added') Hlib) as [view [Hview ->]].
  cbn [snd fst withMapStore mapStore MapStore.markers MapStore.preventAutoFrame].
  cbn [map] in Hview. rewrite lookAtWithPadding_completion in Hview.
  injection Hview as <-.
  unfold App.markerEffect, App.cameraTargetEffect.
  cbn [MapStore.cameraTarget CameraParams.lat CameraParams.lng CameraParams.altitude
       CameraParams.range].
  cbn [mapWithIndex map List.length Nat.ltb Nat.leb andb negb fst snd].
  rewrite frameEntities_run. cbv zeta. cbn [map].
  rewrite entities_of_markers.
  split.
  - unfold MapElement.clearMap, MapElement.addMarkers. cbn [fold_left app].
    assert (Happend : forall ms ch,
              List.length
                (fold_left (fun ch' m => ch' ++ [MapElement.marker3D m]) ms ch)
              = List.length ch + List.length ms).
    { induction ms as [ | m ms IH]; intros ch; cbn [fold_left List.length]; [lia | ].
      rewrite IH, length_app. cbn [List.length]. lia. }
    rewrite Happend, length_mapWithIndex. reflexivity.
  - eexists. split.
    + cbn [trace snd]. rewrite cameraFlights_app.
      change (MapController.location_of (App.entityOf (MapStore.position (markerOf loc0 0))))
        with (asLocation loc0).
      change (asLocation loc0 :: map asLocation rest) with (map asLocation (loc0 :: rest)).
      cbn [map]. rewrite lookAtWithPadding_trace, fetchElevation_no_flight.
      reflexivity.
    + reflexivity.
Qed.

Lemma frameLocations_flies_the_same_with_or_without_markers_witness :
  let controller := {| MapController.elevationLib := fun _ => Resolves None |} in
  let context :=
    {| elevationLib := Some (MapController.elevationLib controller);
       geocoder := None; padding := (0.05, 0.05, 0.05, 0.35)%R |} in
  let w :=
    {| logStore := LogStore.initial; mapStore := MapStore.initial;
       clock := fun n => n; clockReads := 0 |} in
  let args shouldCreateMarkers :=
    {| locations := Some [(40, -74); (41, -73)]%R; geocode := None;
       markers := shouldCreateMarkers |} in
  let marked := mapStore (worldAfter (frameLocations (args true) context w)) in
  let targeted := mapStore (worldAfter (frameLocations (args false) context w)) in
  exists flight,
    cameraFlights
      (trace (fst (App.markerEffect (Some controller) (MapStore.markers marked)
                     (padding context) (MapStore.preventAutoFrame marked) [])))
    = [flight]
    /\ cameraFlights (trace (fst (App.cameraTargetEffect (Some controller) targeted)))
       = [flight].
Proof.
  cbv zeta.
  refine (proj2 (frameLocations_flies_the_same_with_or_without_markers
           (Some [(40, -74); (41, -73)]%R) None
           {| elevationLib := Some (fun _ => Resolves None);
              geocoder := None; padding := (0.05, 0.05, 0.05, 0.35)%R |}
           (fun _ => GeocodeResolves None)
           {| MapController.elevationLib := fun _ => Resolves None |}
           {| logStore := LogStore.initial; mapStore := MapStore.initial;
              clock := fun n => n; clockReads := 0 |}
           []
           {| lat := 40%R; lng := (-74)%R; label := None |}
           [{| lat := 41%R; lng := (-73)%R; label := None |}] _ _ _)).
  - left. reflexivity.
  - reflexivity.
  - reflexivity.
Defined.

(** The close-up of a single place answer.  After
    [updateMapStateWithMarkers] on one marker and chunks with place answer
    sources, the body of the marker effect shows the marker and starts
    nothing, and the body of the camera-target effect starts the close-up
    flight (200 m above the marker, range 500, tilt 60), clears the target
    and allows auto-framing again, so that a second run of it does nothing.
    On the store it leaves, the body of the marker effect starts a flight
    of its own. *)
Theorem close_up_flight_and_what_the_effects_leave :
  forall (marker : MapStore.MapMarker) (groundingChunks : list GroundingChunk)
         (controller : MapController.t) (padding : Padding)
         (children : MapElement.Children) (w : World),
    hasPlaceAnswerSources groundingChunks = true ->
    let store := mapStore (worldAfter (updateMapStateWithMarkers [marker] groundingChunks w)) in
    let shown :=
      App.markerEffect (Some controller) (MapStore.markers store) padding
        (MapStore.preventAutoFrame store) children in
    let flown := App.cameraTargetEffect (Some controller) store in
    let again :=
      App.markerEffect (Some controller) (MapStore.markers (snd flown)) padding
        (MapStore.preventAutoFrame (snd flown)) (snd shown) in
    shown = (ret tt, [MapElement.marker3D marker])
    /\ fst flown
       = (Returned tt,
          [FlyCameraTo
             {| durationMillis := 5000%R;
                endCamera_lat := fst (fst (MapStore.position marker));
                endCamera_lng := snd (fst (MapStore.position marker));
                endCamera_altitude := 200%R;
                endCamera_range := 500%R;
                endCamera_heading := 0%R;
                endCamera_tilt := 60%R;
                endCamera_roll := 0%R |}])
    /\ snd flown
       = {| MapStore.markers := [marker]; MapStore.cameraTarget := None;
            MapStore.preventAutoFrame := false |}
    /\ App.cameraTargetEffect (Some controller) (snd flown) = (ret tt, snd flown)
    /\ snd again = [MapElement.marker3D marker]
    /\ exists flight,
        cameraFlights (trace (fst again)) = [flight]
        /\ durationMillis flight = 5000%R.
Proof.
  intros marker groundingChunks controller padding children w Hsources. cbv zeta.
  unfold updateMapStateWithMarkers. rewrite Hsources.
  rewrite !andThen_onMapStore. unfold onMapStore, worldAfter.
  cbn [snd mapStore MapStore.setCameraTarget MapStore.setMarkers
       MapStore.setPreventAutoFrame MapStore.markers MapStore.cameraTarget
       MapStore.preventAutoFrame].
  unfold App.cameraTargetEffect, App.markerEffect.
  cbn [MapStore.setCameraTarget MapStore.setMarkers MapStore.setPreventAutoFrame
       MapStore.markers MapStore.cameraTarget MapStore.preventAutoFrame
       map List.length Nat.ltb Nat.leb andb negb fst snd
       MapElement.clearMap MapElement.addMarkers fold_left app].
  destruct (MapStore.position marker) as [[lat lng] altitude] eqn:Hposition.
  cbn [fst snd].
  split; [reflexivity | ].
  split; [reflexivity | ].
  split; [reflexivity | ].
  split; [reflexivity | ].
  split; [reflexivity | ].
  rewrite frameEntities_run. cbv zeta. cbn [trace snd map].
  rewrite cameraFlights_app, lookAtWithPadding_trace, fetchElevation_no_flight.
  eexists. split; reflexivity.
Qed.

Lemma close_up_flight_and_what_the_effects_leave_witness :
  let marker :=
    {| MapStore.position := (48.8584, 2.2945, 1)%R;
       MapStore.label := "Eiffel Tower"; MapStore.showLabel := true |} in
  let chunks :=
    [{| web := None;
        maps := Some {| uri := None; title := None; placeId := "ChIJLU7jZClu5kcR4PcOOO6p3I0"%string;
                        placeAnswerSources := Some "{}"%string |} |}] in
  let controller := {| MapController.elevationLib := fun _ => Resolves None |} in
  let w :=
    {| logStore := LogStore.initial; mapStore := MapStore.initial;
       clock := fun n => n; clockReads := 0 |} in
  let store := mapStore (worldAfter (updateMapStateWithMarkers [marker] chunks w)) in
  App.markerEffect (Some controller) (MapStore.markers store)
    (0.05, 0.05, 0.05, 0.35)%R (MapStore.preventAutoFrame store) []
  = (ret tt, [MapElement.marker3D marker]).
Proof.
  cbv zeta.
  refine (proj1 (close_up_flight_and_what_the_effects_leave
           {| MapStore.position := (48.8584, 2.2945, 1)%R;
              MapStore.label := "Eiffel Tower"; MapStore.showLabel := true |}
           [{| web := None;
               maps := Some {| uri := None; title := None; placeId := "ChIJLU7jZClu5kcR4PcOOO6p3I0"%string;
                               placeAnswerSources := Some "{}"%string |} |}]
           {| MapController.elevationLib := fun _ => Resolves None |}
           (0.05, 0.05, 0.05, 0.35)%R []
           {| logStore := LogStore.initial; mapStore := MapStore.initial;
              clock := fun n => n; clockReads := 0 |} _)).
  reflexivity.
Defined.

End EffectProperties.
